(** * go-html: the tag tokenizer, the script-body scanner, the tag-context
      stack and the recursive-descent tree builder of [html.go]

    The development embeds the second (current) revision of [html.go]:
    [ParseStrict] / [Parse] / [parseChildren], [readUntilTag], [readTag],
    [readUntilScriptTagClose], the [elementStack] and the helpers they call.

    Conventions of the embedding.
    - A Go [rune] is a [Z]; a [[]rune] is a [list Z] indexed by a [nat]
      cursor.  [Parse] converts its argument with [[]rune(body)] first, so
      the tree builder only ever sees the rune sequence; the model takes that
      sequence as the input.  The runes of such a sequence are Unicode
      scalar values, for which [string(c)] holds exactly the rune [c].
    - A Go [string] that was produced from runes ([string(c)],
      [string(body[i:j])], concatenations of those, string literals) is
      represented by its sequence of code points, [gostring].  The bytes of
      such a string are recovered by [utf8_encode] where the source indexes
      a string by byte ([countNewlinesBefore]).
    - [strings.ToLower] maps [unicode.ToLower] over the runes of a string.
      The Unicode case tables are not part of the repository, so
      [unicode_ToLower] is a parameter of the model; the concrete instance
      [asciiToLower] is used to run the model on ASCII inputs.
    - The [Parent] back-pointer of [Element] is not represented: it is a
      pointer that no function of the parser reads.
    - A nil pointer dereference is the outcome [Panic]. *)

From Stdlib Require Import ZArith Ascii String Lia.
From stdpp Require Import gmap strings list.

#[local] Set Warnings "-register-all".

(** ** Runes and strings *)

Abbreviation rune := Z (only parsing).
Abbreviation gostring := (list Z) (only parsing).

Definition rune_of_ascii (a : ascii) : rune := Z.of_N (N_of_ascii a).

(** [is_rune a c]: the comparison [c == 'a'] of the source. *)
Definition is_rune (a : ascii) (c : rune) : bool := Z.eqb c (rune_of_ascii a).

(** The rune sequence of an ASCII literal. *)
Definition runes (s : string) : gostring :=
  List.map rune_of_ascii (list_ascii_of_string s).

Definition EMPTY : gostring := [].
Definition ELEMENT_INTERNAL_XML_COMMENT : gostring := runes "xmlcomment".
Definition ELEMENT_INTERNAL_TEXT : gostring := runes "text".

(** [text[lo:hi]] for [lo <= hi <= len(text)]. *)
Definition slice (text : list rune) (lo hi : nat) : list rune :=
  take (hi - lo) (drop lo text).

(** [unicode.ToLower] on the ASCII range; other runes are left alone. *)
Definition asciiToLower (c : rune) : rune :=
  if ((65 <=? c) && (c <=? 90))%Z then (c + 32)%Z else c.

(** [string(body)] as bytes: Go encodes each rune in UTF-8, and a rune
    that is not a Unicode scalar value as U+FFFD. *)
Definition utf8_encode_rune (c : rune) : list Z :=
  (if (c <? 0) || (1114111 <? c) || ((55296 <=? c) && (c <=? 57343)) then
     [239; 191; 189]
   else if c <? 128 then [c]
   else if c <? 2048 then
     [Z.lor 192 (Z.shiftr c 6); Z.lor 128 (Z.land c 63)]
   else if c <? 65536 then
     [Z.lor 224 (Z.shiftr c 12);
      Z.lor 128 (Z.land (Z.shiftr c 6) 63);
      Z.lor 128 (Z.land c 63)]
   else
     [Z.lor 240 (Z.shiftr c 18);
      Z.lor 128 (Z.land (Z.shiftr c 12) 63);
      Z.lor 128 (Z.land (Z.shiftr c 6) 63);
      Z.lor 128 (Z.land c 63)])%Z.

Definition utf8_encode (s : list rune) : list Z :=
  List.concat (List.map utf8_encode_rune s).

(** ** Elements *)

Inductive Element : Type := mkElement {
  ElementName : gostring;
  InnerHTML : gostring;
  Attributes : option (gmap gostring gostring);
  Children : list Element;
  IsText : bool;
  IsVoid : bool;
  IsComment : bool;
  IsRoot : bool;
  IsClose : bool;
  IsData : bool
}.

(** [Element{}] *)
Definition zeroElement : Element :=
  mkElement EMPTY EMPTY None [] false false false false false false.

Definition set_ElementName (e : Element) (v : gostring) : Element :=
  mkElement v (InnerHTML e) (Attributes e) (Children e) (IsText e) (IsVoid e)
            (IsComment e) (IsRoot e) (IsClose e) (IsData e).

Definition set_InnerHTML (e : Element) (v : gostring) : Element :=
  mkElement (ElementName e) v (Attributes e) (Children e) (IsText e) (IsVoid e)
            (IsComment e) (IsRoot e) (IsClose e) (IsData e).

Definition set_Attributes (e : Element) (v : option (gmap gostring gostring)) : Element :=
  mkElement (ElementName e) (InnerHTML e) v (Children e) (IsText e) (IsVoid e)
            (IsComment e) (IsRoot e) (IsClose e) (IsData e).

Definition set_Children (e : Element) (v : list Element) : Element :=
  mkElement (ElementName e) (InnerHTML e) (Attributes e) v (IsText e) (IsVoid e)
            (IsComment e) (IsRoot e) (IsClose e) (IsData e).

Definition set_IsVoid (e : Element) (v : bool) : Element :=
  mkElement (ElementName e) (InnerHTML e) (Attributes e) (Children e) (IsText e) v
            (IsComment e) (IsRoot e) (IsClose e) (IsData e).

Definition set_IsComment (e : Element) (v : bool) : Element :=
  mkElement (ElementName e) (InnerHTML e) (Attributes e) (Children e) (IsText e)
            (IsVoid e) v (IsRoot e) (IsClose e) (IsData e).

Definition set_IsClose (e : Element) (v : bool) : Element :=
  mkElement (ElementName e) (InnerHTML e) (Attributes e) (Children e) (IsText e)
            (IsVoid e) (IsComment e) (IsRoot e) v (IsData e).

(** [elem.Attributes[k] = v]; the tokenizer only writes to the map it made
    with [map[string]string{}], a write to a nil map is not reachable. *)
Definition set_attr (e : Element) (k v : gostring) : Element :=
  set_Attributes e
    (Some (<[k := v]> (default (∅ : gmap gostring gostring) (Attributes e)))).

(** [_, ok := e.Attributes[k]] (a read of a nil map finds nothing). *)
Definition get_attr (e : Element) (k : gostring) : option gostring :=
  match Attributes e with
  | Some m => m !! k
  | None => None
  end.

(** [e.AddChild(newChild)]: the child is appended by value. *)
Definition AddChild (e newChild : Element) : Element :=
  set_Children e (Children e ++ [newChild]).

Definition newTextNode (text : list rune) : Element :=
  mkElement ELEMENT_INTERNAL_TEXT text None [] true true false false false false.

(** [e.EqualTo(e2)].  [len] of a nil map is 0, and [reflect.DeepEqual]
    tells a nil map from an empty one. *)
Fixpoint EqualTo (e e2 : Element) : bool :=
  bool_decide (ElementName e = ElementName e2)
  && Bool.eqb (IsVoid e) (IsVoid e2)
  && Bool.eqb (IsClose e) (IsClose e2)
  && bool_decide (InnerHTML e = InnerHTML e2)
  && (length (Children e) =? length (Children e2))
  && (size (default (∅ : gmap gostring gostring) (Attributes e))
      =? size (default (∅ : gmap gostring gostring) (Attributes e2)))
  && bool_decide (Attributes e = Attributes e2)
  && (fix children_equal (l l2 : list Element) : bool :=
        match l, l2 with
        | childA :: rest, childB :: rest2 =>
            EqualTo childA childB && children_equal rest rest2
        | _, _ => true
        end) (Children e) (Children e2).

(** ** Character classes and the void-element table *)

Definition isWhitespace (char : rune) : bool :=
  is_rune " " char || is_rune "009" char || is_rune "013" char || is_rune "010" char.

Definition isContinuousWhitespace (corpus : list rune) : bool :=
  forallb isWhitespace corpus.

Definition KNOWN_VOID_ELEMENTS : gmap gostring bool :=
  list_to_map
    (List.map (fun s => (runes s, true))
       ["area"; "base"; "br"; "col"; "embed"; "hr"; "img"; "input"; "keygen";
        "link"; "menuitem"; "meta"; "param"; "source"; "track"; "wbr"]%string).

(** ** Errors and outcomes *)

(** [errors.New(text)] *)
Inductive error : Type := errors_New (text : gostring).

Definition Error (e : error) : gostring :=
  match e with errors_New text => text end.

Definition emptyTagError : error :=
  errors_New (runes "Empty tag similar to `<>` or `< >` or `</>`").

Definition almostCommentError : error :=
  errors_New (runes "Almost an XML comment but not quite.").

(** What a call can end in: it returns, it dereferences a nil pointer, or
    the bounded evaluation of the model was given too little fuel. *)
Inductive outcome (A : Type) : Type :=
| Returns (a : A)
| Panic
| OutOfFuel.
Arguments Returns {A} a.
Arguments Panic {A}.
Arguments OutOfFuel {A}.

(** ** The tokenizer and the scanners *)

(** States of the [readTag] switch, named after their integer labels.
    [T11] is assigned by case 10 but the switch has no [case 11];
    [T2] has a case but is never assigned. *)
Inductive tagState : Type :=
| T0 | T1 | T2 | T3 | T4 | T10 | T11 | T20
| T100 | T101 | T102 | T103 | T200 | T201 | T202.

(** The local variables of [readTag]. *)
Record tagMachine : Type := mkTagMachine {
  state : tagState;
  elem : Element;
  attr_name : gostring;
  attr_value : gostring;
  element_name : gostring;
  quote_character : rune
}.

(** One pass through the switch.  [Next]: the pass ends in [break] or
    [continue], the loop's [*cursor++] follows.  [Back]: the pass set
    [*cursor = *cursor - 1] before that.  [Return]: the pass set
    [*cursor = *cursor + 1] and returned. *)
Inductive tagStep : Type :=
| Next (m : tagMachine)
| Back (m : tagMachine)
| Return (e : Element) (err : option error).

(** States of the [readUntilScriptTagClose] switch. *)
Inductive scriptState : Type :=
| J0 | J11 | J12 | J21 | J22 | J25 | J26 | J30.

Record scriptMachine : Type := mkScriptMachine {
  js_state : scriptState;
  tag_start : nat;
  working_tag : gostring;
  js_quote_character : rune
}.

Inductive scriptStep : Type :=
| JNext (m : scriptMachine)
| JReturn (tag_start : nat).

(** The scanner is in the states that read [tag_start]. *)
Definition in_tag (m : scriptMachine) : Prop :=
  js_state m = J11 \/ js_state m = J12.

Definition quote_double : rune := 34%Z.
Definition quote_single : rune := rune_of_ascii "'".

(** A double quote, for the inputs of the examples. *)
Definition dq : gostring := [quote_double].

(** The record that [readTag] returns when the cursor is at the end of
    the text: nothing is read and the loop body never runs. *)
Definition trailingElement : Element :=
  mkElement EMPTY EMPTY (Some ∅) [] false false false false false false.

Section Tokenizer.

(** [unicode.ToLower] *)
Variable unicode_ToLower : rune -> rune.

(** [strings.ToLower] *)
Definition ToLower (s : gostring) : gostring := List.map unicode_ToLower s.

Definition isKnownVoidElement (elementName : gostring) : bool :=
  bool_decide (is_Some (KNOWN_VOID_ELEMENTS !! ToLower elementName)).

(** *** readUntilTag *)

Fixpoint readUntilTag_loop (fuel : nat) (text : list rune) (cursor : nat) : nat :=
  match fuel with
  | O => cursor
  | S fuel' =>
      match text !! cursor with
      | None => cursor
      | Some c =>
          if negb (isWhitespace c) && is_rune "<" c then cursor
          else readUntilTag_loop fuel' text (cursor + 1)
      end
  end.

(** Returns the span read and the new cursor; the error is always nil. *)
Definition readUntilTag (text : list rune) (cursor : nat) : list rune * nat :=
  let cursor' := readUntilTag_loop (length text - cursor) text cursor in
  (slice text cursor cursor', cursor').

(** *** readTag *)

(** [elem.ElementName = strings.ToLower(element_name)] *)
Definition name_elem (m : tagMachine) : Element :=
  set_ElementName (elem m) (ToLower (element_name m)).

(** ... followed by
    [elem.IsVoid = elem.IsVoid || isKnownVoidElement(elem.ElementName)] *)
Definition name_void_elem (m : tagMachine) : Element :=
  let e := name_elem m in
  set_IsVoid e (IsVoid e || isKnownVoidElement (ElementName e)).

Definition with_state (m : tagMachine) (s : tagState) : tagMachine :=
  mkTagMachine s (elem m) (attr_name m) (attr_value m) (element_name m)
               (quote_character m).

Definition with_elem (m : tagMachine) (e : Element) : tagMachine :=
  mkTagMachine (state m) e (attr_name m) (attr_value m) (element_name m)
               (quote_character m).

Definition with_attr_name (m : tagMachine) (s : gostring) : tagMachine :=
  mkTagMachine (state m) (elem m) s (attr_value m) (element_name m)
               (quote_character m).

Definition with_attr_value (m : tagMachine) (s : gostring) : tagMachine :=
  mkTagMachine (state m) (elem m) (attr_name m) s (element_name m)
               (quote_character m).

Definition with_element_name (m : tagMachine) (s : gostring) : tagMachine :=
  mkTagMachine (state m) (elem m) (attr_name m) (attr_value m) s
               (quote_character m).

Definition with_quote (m : tagMachine) (q : rune) : tagMachine :=
  mkTagMachine (state m) (elem m) (attr_name m) (attr_value m)
               (element_name m) q.

(** [elem.Attributes[strings.ToLower(attr_name)] = v] *)
Definition store_attr (m : tagMachine) (v : gostring) : tagMachine :=
  with_elem m (set_attr (elem m) (ToLower (attr_name m)) v).

(** [attr_name], [attr_value] are set to the empty string, [state = 20] *)
Definition reset_attr (m : tagMachine) : tagMachine :=
  with_state (with_attr_value (with_attr_name m EMPTY) EMPTY) T20.

Definition readTag_step (m : tagMachine) (c : rune) : tagStep :=
  match state m with
  | T0 =>
      if is_rune "<" c then Next (with_state m T1) else Next m
  | T1 =>
      if is_rune "!" c then
        Next (with_state (with_elem m (set_IsVoid (elem m) true)) T3)
      else if is_rune "/" c then
        Next (with_elem m (set_IsClose (elem m) true))
      else if is_rune ">" c then
        Return (name_void_elem m) (Some emptyTagError)
      else if negb (isWhitespace c) then
        Next (with_element_name (with_state m T10) (element_name m ++ [c]))
      else Next m
  | T2 =>
      if is_rune "/" c then
        Next (with_elem m (set_IsVoid (elem m) true))
      else if is_rune ">" c then
        Return (name_void_elem m) None
      else if negb (isWhitespace c) then
        Next (with_element_name (with_state m T100) (element_name m ++ [c]))
      else Next m
  | T3 =>
      if is_rune "-" c then Next (with_state m T4)
      else Back (with_state m T1)
  | T4 =>
      if is_rune "-" c then
        Next (with_state
                (with_elem (with_element_name m ELEMENT_INTERNAL_XML_COMMENT)
                           (set_IsComment (elem m) true))
                T200)
      else Return (name_elem m) (Some almostCommentError)
  | T10 =>
      if isWhitespace c then Next (with_state m T20)
      else if is_rune "-" c then Next (with_state m T11)
      else if is_rune ">" c then Return (name_void_elem m) None
      else if is_rune "/" c then
        Return (name_elem (with_elem m (set_IsVoid (elem m) true))) None
      else Next (with_element_name m (element_name m ++ [c]))
  | T11 => Next m
  | T20 =>
      if is_rune "/" c then
        Return (name_elem (with_elem m (set_IsVoid (elem m) true))) None
      else if is_rune ">" c then Return (name_void_elem m) None
      else if negb (isWhitespace c) then Back (with_state m T100)
      else Next m
  | T100 =>
      if is_rune "=" c then Next (with_state m T101)
      else if is_rune ">" c || is_rune "/" c then
        Back (with_state (store_attr m EMPTY) T20)
      else if isWhitespace c then Next (reset_attr (store_attr m EMPTY))
      else Next (with_attr_name m (attr_name m ++ [c]))
  | T101 =>
      if Z.eqb c quote_single || Z.eqb c quote_double then
        Next (with_state (with_quote m c) T102)
      else if negb (isWhitespace c) then
        Next (with_state (with_attr_value m (attr_value m ++ [c])) T103)
      else Next m
  | T102 =>
      if Z.eqb c (quote_character m) then
        Next (reset_attr (store_attr m (attr_value m)))
      else Next (with_attr_value m (attr_value m ++ [c]))
  | T103 =>
      if isWhitespace c then
        Next (reset_attr (store_attr m (attr_value m)))
      else Next (with_attr_value m (attr_value m ++ [c]))
  | T200 =>
      let m' :=
        with_elem m
          (set_IsComment
             (set_ElementName (elem m) ELEMENT_INTERNAL_XML_COMMENT) true) in
      if is_rune "-" c then Next (with_state m' T201)
      else Next (with_elem m' (set_InnerHTML (elem m') (InnerHTML (elem m') ++ [c])))
  | T201 =>
      if is_rune "-" c then Next (with_state m T202)
      else
        Next (with_elem (with_state m T200)
                (set_InnerHTML (elem m) (InnerHTML (elem m) ++ [c])))
  | T202 =>
      if is_rune ">" c then Return (name_elem m) None
      else Next m
  end.

(** The [for ; *cursor < len(text); *cursor++] loop of [readTag] and the
    statements after it.  The result is the element, the error and the
    new cursor; [None] when the fuel ran out. *)
Fixpoint readTag_loop (fuel : nat) (text : list rune) (m : tagMachine)
    (cursor : nat) : option (Element * option error * nat) :=
  match text !! cursor with
  | None => Some (name_void_elem m, None, cursor)
  | Some c =>
      match fuel with
      | O => None
      | S fuel' =>
          match readTag_step m c with
          | Next m' => readTag_loop fuel' text m' (cursor + 1)
          | Back m' => readTag_loop fuel' text m' (cursor - 1 + 1)
          | Return e err => Some (e, err, (cursor + 1)%nat)
          end
      end
  end.

Definition readTag_init : tagMachine :=
  mkTagMachine T0 (set_Attributes zeroElement (Some ∅)) EMPTY EMPTY EMPTY 0%Z.

Definition readTag_fuel (text : list rune) (cursor : nat) : nat :=
  2 * (length text - cursor) + 1.

Definition readTag (text : list rune) (cursor : nat)
    : option (Element * option error * nat) :=
  readTag_loop (readTag_fuel text cursor) text readTag_init cursor.

(** [backs m c]: the pass of the switch on [c] from [m] steps back. *)
Definition backs (m : tagMachine) (c : rune) : bool :=
  match readTag_step m c with
  | Back _ => true
  | _ => false
  end.

(** Iterations that are enough for the loop of [readTag] from a machine
    state at a cursor. *)
Definition readTag_need (text : list rune) (m : tagMachine) (cursor : nat) : nat :=
  match text !! cursor with
  | None => 0
  | Some c =>
      if backs m c then 2 * (length text - cursor)
      else 2 * (length text - cursor) - 1
  end.

(** *** readUntilScriptTagClose *)

Definition js_with_state (m : scriptMachine) (s : scriptState) : scriptMachine :=
  mkScriptMachine s (tag_start m) (working_tag m) (js_quote_character m).

Definition readUntilScriptTagClose_step (scriptType : gostring)
    (m : scriptMachine) (cursor : nat) (c : rune) : scriptStep :=
  match js_state m with
  | J0 =>
      if is_rune "/" c && bool_decide (scriptType = runes "text/javascript") then
        JNext (js_with_state m J21)
      else if is_rune "<" c then
        JNext (mkScriptMachine J11 cursor (working_tag m) (js_quote_character m))
      else if Z.eqb c quote_double || Z.eqb c quote_single then
        JNext (mkScriptMachine J30 (tag_start m) (working_tag m) c)
      else JNext m
  | J11 =>
      if is_rune "/" c then JNext (js_with_state m J12) else JNext m
  | J12 =>
      if is_rune ">" c then
        if bool_decide (ToLower (working_tag m) = runes "script") then
          JReturn (tag_start m)
        else JNext m
      else if negb (isWhitespace c) then
        JNext (mkScriptMachine J12 (tag_start m) (working_tag m ++ [c])
                               (js_quote_character m))
      else JNext m
  | J21 =>
      if is_rune "*" c then JNext (js_with_state m J25)
      else if is_rune "/" c then JNext (js_with_state m J22)
      else JNext (js_with_state m J0)
  | J22 =>
      if is_rune "010" c then JNext (js_with_state m J0) else JNext m
  | J25 =>
      if is_rune "*" c then JNext (js_with_state m J26) else JNext m
  | J26 =>
      if is_rune "/" c then JNext (js_with_state m J0) else JNext m
  | J30 =>
      if Z.eqb c (js_quote_character m) then JNext (js_with_state m J0)
      else JNext m
  end.

(** The loop of [readUntilScriptTagClose]: where the span to return ends,
    and the new cursor. *)
Fixpoint readUntilScriptTagClose_loop (fuel : nat) (text : list rune)
    (scriptType : gostring) (m : scriptMachine) (cursor : nat) : nat * nat :=
  match fuel with
  | O => (cursor, cursor)
  | S fuel' =>
      match text !! cursor with
      | None => (cursor, cursor)
      | Some c =>
          match readUntilScriptTagClose_step scriptType m cursor c with
          | JNext m' =>
              readUntilScriptTagClose_loop fuel' text scriptType m' (cursor + 1)
          | JReturn ts => (ts, (cursor + 1)%nat)
          end
      end
  end.

(** Returns the span read and the new cursor; the error is always nil. *)
Definition readUntilScriptTagClose (text : list rune) (cursor : nat)
    (scriptType : gostring) : list rune * nat :=
  let starting_position := cursor in
  let '(span_end, cursor') :=
    readUntilScriptTagClose_loop (length text - cursor) text scriptType
      (mkScriptMachine J0 0 EMPTY 0%Z) cursor in
  (slice text starting_position span_end, cursor').

End Tokenizer.

(** ** The tag-context stack, as the tree builder uses it

    The nodes of an [elementStack] are never written after they are
    allocated ([Push] allocates, [Pop] only moves [Top]), so the chain
    [Top -> Next -> ... -> nil] is a list of the [Value]s, top first, and
    the nil pointer is the empty list.  Module [StackHeap] below models the
    same operations on a store of mutable structs and relates them to
    these. *)

Record elementStack : Type := mkStack {
  Top : list Element;
  Count : Z
}.

(** [&elementStack{}] *)
Definition emptyStack : elementStack := mkStack [] 0.

Definition Push (es : elementStack) (e : Element) : elementStack :=
  mkStack (e :: Top es) (Count es + 1).

(** Returns the popped value (nil on an empty stack) and the stack. *)
Definition Pop (es : elementStack) : option Element * elementStack :=
  match Top es with
  | [] => (None, es)
  | toReturn :: newNext => (Some toReturn, mkStack newNext (Count es - 1))
  end.

Definition Peek (es : elementStack) : option Element :=
  match Top es with
  | [] => None
  | v :: _ => Some v
  end.

(** [strings.Join] *)
Fixpoint strings_Join (elems : list gostring) (sep : gostring) : gostring :=
  match elems with
  | [] => []
  | [s] => s
  | s :: rest => s ++ sep ++ strings_Join rest sep
  end.

(** The walk [for nodePtr != nil] that prepends what it reads from each node
    to the slice collected so far. *)
Fixpoint walk_prepend {A : Type} (f : Element -> A) (nodePtr : list Element)
    (acc : list A) : list A :=
  match nodePtr with
  | [] => acc
  | v :: next => walk_prepend f next (f v :: acc)
  end.

Definition stack_ToString (es : elementStack) : gostring :=
  match Top es with
  | [] => runes "*"
  | _ => strings_Join (walk_prepend ElementName (Top es) []) (runes " > ")
  end.

Definition Duplicate (es : elementStack) : elementStack :=
  match Top es with
  | [] => emptyStack
  | _ => foldl Push emptyStack (walk_prepend (fun v => v) (Top es) [])
  end.

(** ** The tree builder *)

(** [strconv]-style decimal rendering of a non-negative [int], for the
    [%d] verb of [fmt.Sprintf]. *)
Fixpoint decimal_digits (fuel n : nat) (acc : gostring) : gostring :=
  match fuel with
  | O => acc
  | S fuel' =>
      let acc' := (48 + Z.of_nat (n mod 10))%Z :: acc in
      if n <? 10 then acc' else decimal_digits fuel' (n / 10) acc'
  end.

Definition decimal (n : nat) : gostring := decimal_digits (S n) n [].

(** [body] is the byte sequence of the string, [cursorPosition] indexes
    bytes.  The tree builder passes a position that is within the string. *)
Fixpoint countNewlinesBefore (body : list Z) (cursorPosition : nat) : nat :=
  match cursorPosition, body with
  | S n, c :: rest =>
      (if (c =? 10)%Z then 1 else 0) + countNewlinesBefore rest n
  | _, _ => 0
  end.

(** The number of newline characters in a rune sequence. *)
Definition count_newlines (l : list rune) : nat :=
  length (filter (fun c => c = 10%Z) l).

(** A rune that [string(body)] holds in one byte. *)
Definition single_byte (c : rune) : Prop := (0 <= c < 128)%Z.

(** The text built on a close-tag mismatch in strict mode. *)
Definition mismatch_text (unexpected expected : gostring) (line : nat)
    (path : gostring) : gostring :=
  (runes "unexpected close </" ++ unexpected ++ runes "> (expected </"
     ++ expected ++ runes ">) on line: " ++ decimal line)
  ++ (runes "
current path: " ++ path).

(** What [parseChildren] leaves behind: the element behind [parentElement],
    [*cursor], the stack behind [tagStack], and the error it returns. *)
Record parseResult : Type := mkResult {
  r_parent : Element;
  r_cursor : nat;
  r_stack : elementStack;
  r_err : option error
}.

Section TreeBuilder.

Variable unicode_ToLower : rune -> rune.

(** The [for *cursor < len(body)] loop of [parseChildren] and the two
    statements after it.  One unit of [fuel] is spent per iteration; the
    recursive call of [parseChildren] (its [len(body) == 0] test, then
    its own loop started at the current cursor) is written in place. *)
Fixpoint parseChildren_loop (fuel : nat) (shouldCheckElementStack : bool)
    (body : list rune) (parse_start : nat) (parentElement : Element)
    (cursor : nat) (tagStack : elementStack) : outcome parseResult :=
  if decide (cursor < length body) then
    match fuel with
    | O => OutOfFuel
    | S fuel' =>
        let '(results, cursor1) := readUntilTag body cursor in
        let parent1 :=
          if (0 <? length results) && negb (isContinuousWhitespace results)
          then AddChild parentElement (newTextNode results)
          else parentElement in
        match readTag unicode_ToLower body cursor1 with
        | None => OutOfFuel
        | Some (read_tag, Some read_tag_error, cursor2) =>
            Returns (mkResult parent1 cursor2 tagStack (Some read_tag_error))
        | Some (read_tag, None, cursor2) =>
            if IsClose read_tag then
              match Peek tagStack with
              | None => Panic
              | Some expected_tag =>
                  if bool_decide (ElementName expected_tag = ElementName read_tag)
                  then
                    Returns (mkResult
                               (set_InnerHTML parent1 (slice body parse_start cursor2))
                               cursor2 (snd (Pop tagStack)) None)
                  else if shouldCheckElementStack then
                    Returns (mkResult parent1 cursor2 tagStack
                               (Some (errors_New
                                  (mismatch_text (ElementName read_tag)
                                     (ElementName expected_tag)
                                     (countNewlinesBefore (utf8_encode body) cursor2)
                                     (stack_ToString tagStack)))))
                  else
                    parseChildren_loop fuel' shouldCheckElementStack body
                      parse_start parent1 cursor2 tagStack
              end
            else if IsVoid read_tag then
              parseChildren_loop fuel' shouldCheckElementStack body
                parse_start (AddChild parent1 read_tag) cursor2 tagStack
            else if bool_decide (ElementName read_tag = runes "script") then
              let script_type :=
                match get_attr read_tag (runes "type") with
                | Some tag_script_type => tag_script_type
                | None => runes "text/javascript"
                end in
              let '(script_contents, cursor3) :=
                readUntilScriptTagClose unicode_ToLower body cursor2 script_type in
              let script_body := newTextNode script_contents in
              parseChildren_loop fuel' shouldCheckElementStack body
                parse_start (AddChild parent1 (AddChild read_tag script_body))
                cursor3 tagStack
            else
              let new_stack := Push (Duplicate tagStack) read_tag in
              let child :=
                if decide (length body = 0) then
                  Returns (mkResult read_tag cursor2 new_stack None)
                else
                  parseChildren_loop fuel' shouldCheckElementStack body
                    cursor2 read_tag cursor2 new_stack in
              match child with
              | Returns r =>
                  let parent2 := AddChild parent1 (r_parent r) in
                  match r_err r with
                  | Some parse_children_error =>
                      Returns (mkResult parent2 (r_cursor r) tagStack
                                 (Some parse_children_error))
                  | None =>
                      parseChildren_loop fuel' shouldCheckElementStack body
                        parse_start parent2 (r_cursor r) tagStack
                  end
              | Panic => Panic
              | OutOfFuel => OutOfFuel
              end
        end
    end
  else
    Returns (mkResult (set_InnerHTML parentElement (slice body parse_start cursor))
               cursor tagStack None).

Definition parseChildren (fuel : nat) (parentElement : Element)
    (body : list rune) (cursor : nat) (tagStack : elementStack)
    (shouldCheckElementStack : bool) : outcome parseResult :=
  if decide (length body = 0) then
    Returns (mkResult parentElement cursor tagStack None)
  else
    parseChildren_loop fuel shouldCheckElementStack body cursor
      parentElement cursor tagStack.

(** [Element{IsRoot: true}] *)
Definition rootElement : Element :=
  mkElement EMPTY EMPTY None [] false false false true false false.

(** [body] is [[]rune(body)] of the source.  [length body] iterations are
    always enough (lemma [parseChildren_terminates]). *)
Definition ParseStrict (body : list rune) : outcome (Element * option error) :=
  match parseChildren (length body) rootElement body 0 emptyStack true with
  | Returns r => Returns (r_parent r, r_err r)
  | Panic => Panic
  | OutOfFuel => OutOfFuel
  end.

Definition Parse (body : list rune) : outcome (Element * option error) :=
  match parseChildren (length body) rootElement body 0 emptyStack false with
  | Returns r => Returns (r_parent r, r_err r)
  | Panic => Panic
  | OutOfFuel => OutOfFuel
  end.

(** *** Notions used to state the properties of the tree builder *)

(** The call returned or panicked, and if it returned the cursor is
    between [cursor] and the end of [body]. *)
Definition returns_within (body : list rune) (cursor : nat)
    (o : outcome parseResult) : Prop :=
  match o with
  | Returns r => cursor <= r_cursor r <= length body
  | Panic => True
  | OutOfFuel => False
  end.

(** The text node that an iteration appends for the run [results]. *)
Definition with_text (parent : Element) (results : list rune) : Element :=
  if (0 <? length results) && negb (isContinuousWhitespace results)
  then AddChild parent (newTextNode results)
  else parent.

(** The names on the stack, innermost first. *)
Definition stack_names (es : elementStack) : list gostring :=
  List.map ElementName (Top es).

End TreeBuilder.

(** ** The control flow of the tree builder, without the tree

    Whatever the level of the recursion, the cursor goes through the input
    one iteration at a time: a run of text, then a tag.  A nested level
    starts where the open tag ended, and the level that called it goes on
    where the nested level returned. *)

Section TokenScan.

Variable unicode_ToLower : rune -> rune.

(** The type that the script scanner is called with. *)
Definition script_type_of (read_tag : Element) : gostring :=
  match get_attr read_tag (runes "type") with
  | Some tag_script_type => tag_script_type
  | None => runes "text/javascript"
  end.

(** The cursor at the end of the iteration that starts at [cursor], when
    the tag it reads is read without an error. *)
Definition next_cursor (body : list rune) (cursor : nat) : option nat :=
  match readTag unicode_ToLower body (snd (readUntilTag body cursor)) with
  | Some (read_tag, None, cursor2) =>
      if IsClose read_tag then Some cursor2
      else if IsVoid read_tag then Some cursor2
      else if bool_decide (ElementName read_tag = runes "script") then
        Some (snd (readUntilScriptTagClose unicode_ToLower body cursor2
                     (script_type_of read_tag)))
      else Some cursor2
  | _ => None
  end.

(** [iterates body a c]: a tree builder that starts an iteration at [a]
    and is not stopped before starts an iteration at [c]. *)
Inductive iterates (body : list rune) : nat -> nat -> Prop :=
| iterates_here (c : nat) : iterates body c c
| iterates_next (a a' c : nat) :
    a < length body ->
    next_cursor body a = Some a' ->
    iterates body a' c ->
    iterates body a c.

(** How the strict tree builder ends. *)
Inductive scanEnd : Type :=
| EndOfInput
| TokenError (e : error)
| CloseOnEmptyStack
| Mismatch (read_tag expected_tag : Element) (cursor2 : nat) (open : list Element).

(** [strict_scan body cursor open res]: from [cursor], with the open
    containers [open] on the stack (innermost first), the strict tree
    builder ends in [res]: at the end of the input, at the first tag that
    the tokenizer rejects, at a close tag met while nothing is open, or at
    the first close tag whose name is not the name of the innermost open
    container.  [Mismatch] records that close tag, the innermost open
    container, the cursor after the close tag and the open containers. *)
Inductive strict_scan (body : list rune) : nat -> list Element -> scanEnd -> Prop :=
| scan_end (cursor : nat) (open : list Element) :
    length body <= cursor ->
    strict_scan body cursor open EndOfInput
| scan_token_error (cursor : nat) (open : list Element) (read_tag : Element)
    (err : error) (cursor2 : nat) :
    cursor < length body ->
    readTag unicode_ToLower body (snd (readUntilTag body cursor))
    = Some (read_tag, Some err, cursor2) ->
    strict_scan body cursor open (TokenError err)
| scan_close_empty (cursor : nat) (read_tag : Element) (cursor2 : nat) :
    cursor < length body ->
    readTag unicode_ToLower body (snd (readUntilTag body cursor))
    = Some (read_tag, None, cursor2) ->
    IsClose read_tag = true ->
    strict_scan body cursor [] CloseOnEmptyStack
| scan_close_match (cursor : nat) (read_tag : Element) (cursor2 : nat)
    (expected_tag : Element) (outer : list Element) (res : scanEnd) :
    cursor < length body ->
    readTag unicode_ToLower body (snd (readUntilTag body cursor))
    = Some (read_tag, None, cursor2) ->
    IsClose read_tag = true ->
    ElementName expected_tag = ElementName read_tag ->
    strict_scan body cursor2 outer res ->
    strict_scan body cursor (expected_tag :: outer) res
| scan_mismatch (cursor : nat) (read_tag : Element) (cursor2 : nat)
    (expected_tag : Element) (outer : list Element) :
    cursor < length body ->
    readTag unicode_ToLower body (snd (readUntilTag body cursor))
    = Some (read_tag, None, cursor2) ->
    IsClose read_tag = true ->
    ElementName expected_tag <> ElementName read_tag ->
    strict_scan body cursor (expected_tag :: outer)
      (Mismatch read_tag expected_tag cursor2 (expected_tag :: outer))
| scan_void (cursor : nat) (open : list Element) (read_tag : Element)
    (cursor2 : nat) (res : scanEnd) :
    cursor < length body ->
    readTag unicode_ToLower body (snd (readUntilTag body cursor))
    = Some (read_tag, None, cursor2) ->
    IsClose read_tag = false ->
    IsVoid read_tag = true ->
    strict_scan body cursor2 open res ->
    strict_scan body cursor open res
| scan_script (cursor : nat) (open : list Element) (read_tag : Element)
    (cursor2 : nat) (res : scanEnd) :
    cursor < length body ->
    readTag unicode_ToLower body (snd (readUntilTag body cursor))
    = Some (read_tag, None, cursor2) ->
    IsClose read_tag = false ->
    IsVoid read_tag = false ->
    ElementName read_tag = runes "script" ->
    strict_scan body
      (snd (readUntilScriptTagClose unicode_ToLower body cursor2
              (script_type_of read_tag)))
      open res ->
    strict_scan body cursor open res
| scan_open (cursor : nat) (open : list Element) (read_tag : Element)
    (cursor2 : nat) (res : scanEnd) :
    cursor < length body ->
    readTag unicode_ToLower body (snd (readUntilTag body cursor))
    = Some (read_tag, None, cursor2) ->
    IsClose read_tag = false ->
    IsVoid read_tag = false ->
    ElementName read_tag <> runes "script" ->
    strict_scan body cursor2 (read_tag :: open) res ->
    strict_scan body cursor open res.

(** The names of the open containers, outermost first, joined as
    [ToString] joins them. *)
Definition stack_path (open : list Element) : gostring :=
  strings_Join (rev (List.map ElementName open)) (runes " > ").

(** The error that [ParseStrict] returns for an end of the scan. *)
Definition scan_error (body : list rune) (res : scanEnd) : option error :=
  match res with
  | TokenError e => Some e
  | Mismatch read_tag expected_tag cursor2 open =>
      Some (errors_New
              (mismatch_text (ElementName read_tag) (ElementName expected_tag)
                 (countNewlinesBefore (utf8_encode body) cursor2)
                 (stack_path open)))
  | _ => None
  end.

(** What a level of the strict tree builder, started at [cursor] with the
    open containers [open], says about the scan from there. *)
Definition follows_scan (body : list rune) (cursor : nat) (open : list Element)
    (o : outcome parseResult) : Prop :=
  match o with
  | Returns r =>
      match r_err r with
      | Some e =>
          exists res, strict_scan body cursor open res /\ scan_error body res = Some e
      | None =>
          (length body <= r_cursor r /\ strict_scan body cursor open EndOfInput)
          \/ (exists expected_tag outer,
                 open = expected_tag :: outer
                 /\ forall res, strict_scan body (r_cursor r) outer res ->
                                strict_scan body cursor open res)
      end
  | Panic => strict_scan body cursor open CloseOnEmptyStack
  | OutOfFuel => True
  end.

End TokenScan.

(** ** The tag-context stack as a store of mutable structs

    [*elementStack] and [*elementStackNode] are addresses into a store;
    [Push] and [Pop] write the struct behind their pointer receiver.  A nil
    pointer is [None]; reading through an address that holds nothing is a
    dereference of a nil pointer.  The walks over the nodes take a bound on
    the number of nodes they may visit. *)

Module StackHeap.

Abbreviation loc := positive (only parsing).

Record elementStackNode : Type := mkNode {
  Next : option loc;
  Value : Element
}.

Record elementStack : Type := mkStack {
  Top : option loc;
  Count : Z
}.

Record store : Type := mkStore {
  nodes : gmap loc elementStackNode;
  stacks : gmap loc elementStack
}.

(** [&elementStackNode{Next: next, Value: e}] *)
Definition new_node (h : store) (next : option loc) (e : Element) : store * loc :=
  let p := fresh (dom (nodes h)) in
  (mkStore (<[p := mkNode next e]> (nodes h)) (stacks h), p).

(** [&elementStack{}] *)
Definition new_stack (h : store) : store * loc :=
  let p := fresh (dom (stacks h)) in
  (mkStore (nodes h) (<[p := mkStack None 0]> (stacks h)), p).

Definition write_stack (h : store) (es : loc) (v : elementStack) : store :=
  mkStore (nodes h) (<[es := v]> (stacks h)).

Definition Push (h : store) (es : loc) (e : Element) : outcome store :=
  match stacks h !! es with
  | None => Panic
  | Some st =>
      let h1 := write_stack h es (mkStack (Top st) (Count st + 1)) in
      let '(h2, p) := new_node h1 (Top st) e in
      Returns (write_stack h2 es (mkStack (Some p) (Count st + 1)))
  end.

Definition Pop (h : store) (es : loc) : outcome (store * option Element) :=
  match stacks h !! es with
  | None => Panic
  | Some st =>
      match Top st with
      | None => Returns (h, None)
      | Some top =>
          match nodes h !! top with
          | None => Panic
          | Some nd =>
              Returns (write_stack h es (mkStack (Next nd) (Count st - 1)),
                       Some (Value nd))
          end
      end
  end.

Definition Peek (h : store) (es : loc) : outcome (option Element) :=
  match stacks h !! es with
  | None => Panic
  | Some st =>
      match Top st with
      | None => Returns None
      | Some top =>
          match nodes h !! top with
          | None => Panic
          | Some nd => Returns (Some (Value nd))
          end
      end
  end.

(** [for nodePtr != nil { acc = append([]T{f(nodePtr.Value)}, acc...);
    nodePtr = nodePtr.Next }] *)
Fixpoint walk {A : Type} (fuel : nat) (h : store) (f : Element -> A)
    (nodePtr : option loc) (acc : list A) : outcome (list A) :=
  match nodePtr with
  | None => Returns acc
  | Some p =>
      match fuel with
      | O => OutOfFuel
      | S fuel' =>
          match nodes h !! p with
          | None => Panic
          | Some nd => walk fuel' h f (Next nd) (f (Value nd) :: acc)
          end
      end
  end.

Definition ToString (fuel : nat) (h : store) (es : loc) : outcome gostring :=
  match stacks h !! es with
  | None => Panic
  | Some st =>
      match Top st with
      | None => Returns (runes "*")
      | Some _ =>
          match walk fuel h ElementName (Top st) [] with
          | Returns names => Returns (strings_Join names (runes " > "))
          | Panic => Panic
          | OutOfFuel => OutOfFuel
          end
      end
  end.

(** [for _, node := range nodes { new_es.Push(node) }] *)
Fixpoint push_all (h : store) (new_es : loc) (nodes : list Element) : outcome store :=
  match nodes with
  | [] => Returns h
  | node :: rest =>
      match Push h new_es node with
      | Returns h' => push_all h' new_es rest
      | Panic => Panic
      | OutOfFuel => OutOfFuel
      end
  end.

Definition Duplicate (fuel : nat) (h : store) (es : loc) : outcome (store * loc) :=
  match stacks h !! es with
  | None => Panic
  | Some st =>
      let '(h1, new_es) := new_stack h in
      match Top st with
      | None => Returns (h1, new_es)
      | Some _ =>
          match walk fuel h1 (fun v => v) (Top st) [] with
          | Returns nodes =>
              match push_all h1 new_es nodes with
              | Returns h2 => Returns (h2, new_es)
              | Panic => Panic
              | OutOfFuel => OutOfFuel
              end
          | Panic => Panic
          | OutOfFuel => OutOfFuel
          end
      end
  end.

(** A later use of a stack: one [Push] or one [Pop]. *)
Inductive stackOp : Type :=
| OpPush (e : Element)
| OpPop.

Definition run_op (h : store) (es : loc) (op : stackOp) : outcome store :=
  match op with
  | OpPush e => Push h es e
  | OpPop =>
      match Pop h es with
      | Returns (h', _) => Returns h'
      | Panic => Panic
      | OutOfFuel => OutOfFuel
      end
  end.

Fixpoint run_ops (h : store) (es : loc) (ops : list stackOp) : outcome store :=
  match ops with
  | [] => Returns h
  | op :: rest =>
      match run_op h es op with
      | Returns h' => run_ops h' es rest
      | Panic => Panic
      | OutOfFuel => OutOfFuel
      end
  end.

(** The chain of nodes from [nodePtr] to nil holds the values [vs], top
    first. *)
Inductive chain (h : store) : option loc -> list Element -> Prop :=
| chain_nil : chain h None []
| chain_cons p next v vs :
    nodes h !! p = Some (mkNode next v) ->
    chain h next vs ->
    chain h (Some p) (v :: vs).

End StackHeap.

(** The struct behind [es] is the stack [s] of the tree builder's model. *)
Definition repr (h : StackHeap.store) (es : positive) (s : elementStack) : Prop :=
  exists st,
    StackHeap.stacks h !! es = Some st
    /\ StackHeap.chain h (StackHeap.Top st) (Top s)
    /\ StackHeap.Count st = Count s.

(** What an operation on [es] leaves alone. *)
Definition frame (h h' : StackHeap.store) (es : positive) : Prop :=
  forall es' s', es' <> es -> repr h es' s' -> repr h' es' s'.

(** The tree builder's model of a later use of a stack. *)
Definition apply_op (s : elementStack) (op : StackHeap.stackOp) : elementStack :=
  match op with
  | StackHeap.OpPush e => Push s e
  | StackHeap.OpPop => snd (Pop s)
  end.

(** The elements of [TestElementStack]. *)
Definition test_br : Element :=
  mkElement (runes "br") [] None [] false true false false false false.

Definition test_div (class : string) : Element :=
  mkElement (runes "div") [] (Some {[ runes "class" := runes class ]}) []
            false false false false false false.


(** What [EqualTo] looks at: the tree with the flags [IsText], [IsComment],
    [IsRoot] and [IsData] cleared at every node. *)
Fixpoint compared_part (e : Element) : Element :=
  mkElement (ElementName e) (InnerHTML e) (Attributes e)
            (List.map compared_part (Children e))
            false (IsVoid e) false false (IsClose e) false.

(** ** Character classes for the statements about the tokenizer *)

(** A character that starts a tag name in state 1 of [readTag]. *)
Definition name_start (c : rune) : bool :=
  negb (is_rune "!" c) && negb (is_rune "/" c) && negb (is_rune ">" c)
  && negb (isWhitespace c).

(** A character that state 10 of [readTag] appends to the tag name. *)
Definition name_char (c : rune) : bool :=
  negb (isWhitespace c) && negb (is_rune "-" c) && negb (is_rune ">" c)
  && negb (is_rune "/" c).

(** A character that state 100 of [readTag] appends to the attribute name. *)
Definition attr_char (c : rune) : bool :=
  negb (is_rune "=" c) && negb (is_rune ">" c) && negb (is_rune "/" c)
  && negb (isWhitespace c).

(** [runs lower text m cursor r]: the loop of [readTag], started in the
    machine state [m] at [cursor], ends with [r]. *)
Definition runs (lower : rune -> rune) (text : list rune) (m : tagMachine)
    (cursor : nat) (r : Element * option error * nat) : Prop :=
  exists fuel, readTag_loop lower fuel text m cursor = Some r.

(** A quoted attribute as it stands in a tag: whitespace if any, the name,
    [=], a quote, the value, the same quote. *)
Record quotedAttr : Type := mkQuotedAttr {
  qa_gap : list rune;
  qa_first : rune;
  qa_rest : list rune;
  qa_quote : rune;
  qa_value : list rune
}.

Definition qa_name (a : quotedAttr) : gostring := qa_first a :: qa_rest a.

Definition qa_text (a : quotedAttr) : list rune :=
  qa_gap a ++ qa_name a ++ runes "=" ++ [qa_quote a] ++ qa_value a ++ [qa_quote a].

(** The name has no [=], [>], [/] or whitespace, the quote is one of the
    two quote characters, and the value does not contain it. *)
Definition qa_ok (a : quotedAttr) : bool :=
  forallb isWhitespace (qa_gap a)
  && forallb attr_char (qa_name a)
  && (Z.eqb (qa_quote a) quote_single || Z.eqb (qa_quote a) quote_double)
  && forallb (fun c => negb (Z.eqb c (qa_quote a))) (qa_value a).

(** The map that the assignments [Attributes[ToLower(name)] = value] build,
    in the order of the attributes. *)
Definition attrs_map (lower : rune -> rune) (attrs : list quotedAttr)
    : gmap gostring gostring :=
  foldl (fun mp a => <[ToLower lower (qa_name a) := qa_value a]> mp) ∅ attrs.

(** [elem.Attributes[ToLower(name)] = value] for one quoted attribute. *)
Definition store_quoted (lower : rune -> rune) (e : Element) (a : quotedAttr)
    : Element :=
  set_attr e (ToLower lower (qa_name a)) (qa_value a).

(** What every record returned by [readTag] looks like: it is not a text
    node, a root or data, it has no children and a map of its own, only a
    comment has [InnerHTML], and a comment is void. *)
Definition tag_shape (e : Element) : Prop :=
  IsText e = false /\ IsRoot e = false /\ IsData e = false
  /\ Children e = [] /\ Attributes e <> None
  /\ (IsComment e = false -> InnerHTML e = [])
  /\ (IsComment e = true -> IsVoid e = true).

(** The invariant of the loop of [readTag]. *)
Definition machine_inv (m : tagMachine) : Prop :=
  tag_shape (elem m)
  /\ match state m with
     | T200 | T201 | T202 => IsComment (elem m) = true /\ IsVoid (elem m) = true
     | T3 | T4 => IsVoid (elem m) = true
     | _ => True
     end.

(** A character that state 0 of [readUntilScriptTagClose] passes over
    whatever the script type is. *)
Definition plain_js (c : rune) : bool :=
  negb (is_rune "/" c) && negb (is_rune "<" c)
  && negb (Z.eqb c quote_double) && negb (Z.eqb c quote_single).

(** A character that state 12 of [readUntilScriptTagClose] appends to the
    name of the close tag. *)
Definition close_name_char (c : rune) : bool :=
  negb (is_rune ">" c) && negb (isWhitespace c).

(** What a level of the tree builder does to the element it is given:
    [result] is [parent] with children appended and another [InnerHTML]. *)
Definition extends (parent result : Element) : Prop :=
  ElementName result = ElementName parent
  /\ Attributes result = Attributes parent
  /\ IsText result = IsText parent /\ IsVoid result = IsVoid parent
  /\ IsComment result = IsComment parent /\ IsRoot result = IsRoot parent
  /\ IsClose result = IsClose parent /\ IsData result = IsData parent
  /\ exists added, Children result = Children parent ++ added.

(** The record of a tag without attributes. *)
Definition plain_tag (name : gostring) (void close : bool) : Element :=
  mkElement name EMPTY (Some ∅) [] false void false false close false.

(** ** Well-formed markup

    The spec's notion of a well-formed input -- every open tag has a
    matching close tag in proper nesting -- read as: the input is written
    out from a tree of text, comments, void elements and containers, each
    container between its open tag and the close tag of the same name.  The
    tokens are as section 4.1 of the spec describes them; nothing here is
    taken from the code but the table of void elements. *)

Inductive markup : Type :=
| MText (text : list rune)
| MComment (text : list rune)
| MVoid (name : gostring) (attrs : list quotedAttr)
| MElement (name : gostring) (attrs : list quotedAttr) (children : list markup).

Definition open_tag_text (name : gostring) (attrs : list quotedAttr) : list rune :=
  runes "<" ++ name
  ++ match attrs with
     | [] => []
     | _ => runes " " ++ List.concat (List.map qa_text attrs)
     end
  ++ runes ">".

Definition close_tag_text (name : gostring) : list rune :=
  runes "</" ++ name ++ runes ">".

Fixpoint markup_text (m : markup) : list rune :=
  match m with
  | MText text => text
  | MComment text => runes "<!--" ++ text ++ runes "-->"
  | MVoid name attrs => open_tag_text name attrs
  | MElement name attrs children =>
      open_tag_text name attrs
      ++ (fix over_children (l : list markup) : list rune :=
            match l with
            | [] => []
            | child :: rest => markup_text child ++ over_children rest
            end) children
      ++ close_tag_text name
  end.

(** The input that a sequence of top-level nodes is written as. *)
Definition document_text (doc : list markup) : list rune :=
  List.concat (List.map markup_text doc).

(** A tag name is not empty, does not start with [!], [/], [>] or
    whitespace, and holds no whitespace, [>] or [/]. *)
Definition tag_name_ok (name : gostring) : bool :=
  match name with
  | [] => false
  | c0 :: rest =>
      name_start c0
      && forallb (fun c => negb (isWhitespace c) && negb (is_rune ">" c)
                          && negb (is_rune "/" c)) rest
  end.

Fixpoint is_prefix (p l : list rune) : bool :=
  match p, l with
  | [], _ => true
  | _ :: _, [] => false
  | a :: p', b :: l' => Z.eqb a b && is_prefix p' l'
  end.

Fixpoint has_infix (p l : list rune) : bool :=
  is_prefix p l
  || match l with
     | [] => false
     | _ :: l' => has_infix p l'
     end.

(** The text of a comment does not hold the closing marker and does not
    end with a [-], which would run into the closing marker. *)
Definition comment_text_ok (text : list rune) : bool :=
  negb (has_infix (runes "-->") text)
  && match last text with
     | Some c => negb (is_rune "-" c)
     | None => true
     end.

Section WellFormedMarkup.

Variable unicode_ToLower : rune -> rune.

(** Text holds no [<]; names and attributes are as the tokens of the spec
    require; a void element has the name of a known void element, a
    container has not, and is not a script (whose body has rules of its
    own). *)
Fixpoint well_formed (m : markup) : bool :=
  match m with
  | MText text => forallb (fun c => negb (is_rune "<" c)) text
  | MComment text => comment_text_ok text
  | MVoid name attrs =>
      tag_name_ok name && forallb qa_ok attrs
      && isKnownVoidElement unicode_ToLower (ToLower unicode_ToLower name)
  | MElement name attrs children =>
      tag_name_ok name && forallb qa_ok attrs
      && negb (isKnownVoidElement unicode_ToLower (ToLower unicode_ToLower name))
      && negb (bool_decide (ToLower unicode_ToLower name = runes "script"))
      && (fix over_children (l : list markup) : bool :=
            match l with
            | [] => true
            | child :: rest => well_formed child && over_children rest
            end) children
  end.

(** No tag name and no comment holds a [-]. *)
Fixpoint hyphen_free (m : markup) : bool :=
  match m with
  | MText _ => true
  | MComment text => forallb (fun c => negb (is_rune "-" c)) text
  | MVoid name _ => forallb (fun c => negb (is_rune "-" c)) name
  | MElement name _ children =>
      forallb (fun c => negb (is_rune "-" c)) name
      && (fix over_children (l : list markup) : bool :=
            match l with
            | [] => true
            | child :: rest => hyphen_free child && over_children rest
            end) children
  end.

(** A level of the tree builder, with as many iterations as the input is
    long: enough for any level (lemma [level_fuel]). *)
Definition level (sc : bool) (body : list rune) (parse_start : nat)
    (parent : Element) (cursor : nat) (tagStack : elementStack)
    : outcome parseResult :=
  parseChildren_loop unicode_ToLower (length body) sc body parse_start parent
    cursor tagStack.

(** The tree builder takes in [text] wherever it stands in an input: a
    level whose cursor is at pending text (text without [<], not yet read)
    before [text] does, in either mode, what it does from the end of [text]
    with an element that has got the nodes of [text], the same in both
    modes, and with the pending text that [text] ends with. *)
Definition absorbs (text : list rune) : Prop :=
  forall (before pending rest : list rune) (parent : Element),
    Forall (fun c => is_rune "<" c = false) pending ->
    exists (parent' : Element) (before' pending' : list rune),
      before' ++ pending' = before ++ pending ++ text
      /\ Forall (fun c => is_rune "<" c = false) pending'
      /\ forall (sc : bool) (parse_start : nat) (tagStack : elementStack),
           level sc (before ++ pending ++ text ++ rest) parse_start parent
             (length before) tagStack
           = level sc (before ++ pending ++ text ++ rest) parse_start parent'
               (length before') tagStack.

End WellFormedMarkup.

(** ** Reading whitespace, trimming *)

Fixpoint readWhitespace_loop (fuel : nat) (text : list rune) (cursor : nat) : nat :=
  match fuel with
  | O => cursor
  | S fuel' =>
      match text !! cursor with
      | None => cursor
      | Some c =>
          if negb (isWhitespace c) then cursor
          else readWhitespace_loop fuel' text (cursor + 1)
      end
  end.

(** Returns the span read and the new cursor; the error is always nil. *)
Definition readWhitespace (text : list rune) (cursor : nat) : list rune * nat :=
  let cursor' := readWhitespace_loop (length text - cursor) text cursor in
  (slice text cursor cursor', cursor').

(** The first loop of [trim]: [left] after
    [for ; left < len(text); left++ { if !isWhitespace(text[left]) { break } }]. *)
Fixpoint trim_left (fuel : nat) (text : list rune) (left : nat) : nat :=
  match fuel with
  | O => left
  | S fuel' =>
      match text !! left with
      | None => left
      | Some c => if negb (isWhitespace c) then left else trim_left fuel' text (S left)
      end
  end.

(** The second loop of [trim]: [right] after
    [for ; right > 0; right-- { if !isWhitespace(text[right]) { break } }]. *)
Fixpoint trim_right (text : list rune) (right : nat) : nat :=
  match right with
  | O => O
  | S right' =>
      match text !! right with
      | Some c => if negb (isWhitespace c) then right else trim_right text right'
      | None => right
      end
  end.

(** [text[left : right+1]] panics when [left > right+1]. *)
Definition trim (text : list rune) : outcome (list rune) :=
  if decide (length text = 0) then Returns text
  else
    let left := trim_left (length text) text 0 in
    let right := trim_right text (length text - 1) in
    if decide (left <= right + 1 <= length text)
    then Returns (slice text left (right + 1))
    else Panic.

(** [trimString]: [string(trim([]rune(text)))] on a string given by its
    runes. *)
Definition trimString (text : gostring) : outcome gostring := trim text.

(** ** Queries on the element tree *)

(** [strings.Split(s, " ")] *)
Fixpoint strings_Split_space (s : gostring) : list gostring :=
  match s with
  | [] => [[]]
  | c :: rest =>
      if is_rune " " c then [] :: strings_Split_space rest
      else
        match strings_Split_space rest with
        | piece :: pieces => (c :: piece) :: pieces
        | [] => [[c]]
        end
  end.

Fixpoint sliceContains (slice : list gostring) (value : gostring) : bool :=
  match slice with
  | [] => false
  | e :: rest => if bool_decide (e = value) then true else sliceContains rest value
  end.

(** [e.Flatten()]: the children, each followed by its own flattening. *)
Fixpoint Flatten (e : Element) : list Element :=
  (fix over_children (children : list Element) : list Element :=
     match children with
     | [] => []
     | child :: rest => (child :: Flatten child) ++ over_children rest
     end) (Children e).

(** [e.Attributes[k]] as a value: the empty string when the key is missing
    or the map is nil. *)
Definition attr_value_of (e : Element) (k : gostring) : gostring :=
  match get_attr e k with
  | Some v => v
  | None => EMPTY
  end.

(** Returns a copy of the first match, nil when there is none. *)
Definition GetElementById (e : Element) (id : gostring) : option Element :=
  List.find (fun child => bool_decide (attr_value_of child (runes "id") = id))
            (Flatten e).

(** [c] is a child of [e], or a child of a child, and so on. *)
Inductive descendant : Element -> Element -> Prop :=
| descendant_child (c e : Element) :
    In c (Children e) -> descendant c e
| descendant_deeper (c d e : Element) :
    In d (Children e) -> descendant c d -> descendant c e.

Section Queries.

Variable unicode_ToLower : rune -> rune.

Definition HasClass (e : Element) (className : gostring) : bool :=
  let class_name_lower := ToLower unicode_ToLower className in
  match get_attr e (runes "class") with
  | Some elem_class =>
      let elem_class_pieces :=
        strings_Split_space (ToLower unicode_ToLower elem_class) in
      sliceContains elem_class_pieces class_name_lower
  | None => false
  end.

Definition GetElementsByTagName (e : Element) (tagName : gostring) : list Element :=
  let tag_name_lower := ToLower unicode_ToLower tagName in
  List.filter
    (fun child =>
       bool_decide (tag_name_lower = ToLower unicode_ToLower (ElementName child)))
    (Flatten e).

Definition GetElementsByClassName (e : Element) (className : gostring) : list Element :=
  let class_name_lower := ToLower unicode_ToLower className in
  List.filter (fun child => HasClass child class_name_lower) (Flatten e).

Definition GetText (e : Element) : gostring :=
  let textElements := GetElementsByTagName e ELEMENT_INTERNAL_TEXT in
  strings_Join (List.map InnerHTML textElements) EMPTY.

End Queries.

(** * Properties *)

(** ** Slices and the scanning loops *)

Lemma slice_full_from (text : list rune) (lo : nat) :
  slice text lo (length text) = drop lo text.
Proof.
  unfold slice. rewrite <- (length_drop text lo). apply firstn_all.
Qed.

Lemma slice_empty (text : list rune) (lo : nat) : slice text lo lo = [].
Proof. unfold slice. by rewrite Nat.sub_diag. Qed.

Lemma lookup_lt_length (text : list rune) (i : nat) (c : rune) :
  text !! i = Some c -> i < length text.
Proof. intros H. apply lookup_lt_is_Some. eauto. Qed.

Lemma readUntilTag_loop_bounds (fuel : nat) (text : list rune) (cursor : nat) :
  cursor <= length text ->
  cursor <= readUntilTag_loop fuel text cursor <= length text.
Proof.
  revert cursor. induction fuel as [|fuel IH]; intros cursor Hle; simpl; [lia|].
  destruct (text !! cursor) as [c|] eqn:Hc; [|lia].
  apply lookup_lt_length in Hc.
  destruct (negb (isWhitespace c) && is_rune "<" c); [lia|].
  specialize (IH (cursor + 1)). lia.
Qed.

(** With [length text - cursor] iterations the loop stops for the reason
    the source stops: at a ["<"] or at the end of the text. *)
Lemma readUntilTag_loop_stops (fuel : nat) (text : list rune) (cursor : nat) :
  length text - cursor <= fuel ->
  let cursor' := readUntilTag_loop fuel text cursor in
  cursor' < length text -> text !! cursor' = Some (rune_of_ascii "<").
Proof.
  revert cursor. induction fuel as [|fuel IH]; intros cursor Hfuel; simpl.
  - lia.
  - destruct (text !! cursor) as [c|] eqn:Hc.
    + destruct (negb (isWhitespace c) && is_rune "<" c) eqn:Hlt.
      * intros _. apply andb_prop in Hlt as [_ Hlt].
        unfold is_rune in Hlt. apply Z.eqb_eq in Hlt. by subst.
      * apply IH. lia.
    + apply lookup_ge_None in Hc. lia.
Qed.

(** A text without ["<"] from the cursor on is read to its end. *)
Lemma readUntilTag_loop_no_tag (fuel : nat) (text : list rune) (cursor : nat) :
  length text - cursor <= fuel ->
  cursor <= length text ->
  Forall (fun c => is_rune "<" c = false) (drop cursor text) ->
  readUntilTag_loop fuel text cursor = length text.
Proof.
  revert cursor. induction fuel as [|fuel IH]; intros cursor Hfuel Hle Hall; simpl.
  - lia.
  - destruct (text !! cursor) as [c|] eqn:Hc.
    + pose proof (lookup_lt_length _ _ _ Hc).
      rewrite (drop_S _ _ _ Hc) in Hall. inversion Hall as [|? ? Hc' Hrest]; subst.
      rewrite Hc', andb_false_r. replace (cursor + 1) with (S cursor) by lia.
      apply IH; [lia | lia | done].
    + apply lookup_ge_None in Hc. lia.
Qed.

Lemma readUntilTag_bounds (text : list rune) (cursor : nat) :
  cursor <= length text ->
  cursor <= snd (readUntilTag text cursor) <= length text.
Proof. intros H. unfold readUntilTag. simpl. by apply readUntilTag_loop_bounds. Qed.

Lemma readUntilTag_no_tag (text : list rune) (cursor : nat) :
  cursor <= length text ->
  Forall (fun c => is_rune "<" c = false) (drop cursor text) ->
  readUntilTag text cursor = (drop cursor text, length text).
Proof.
  intros Hle Hall. unfold readUntilTag.
  rewrite readUntilTag_loop_no_tag by (done || lia).
  by rewrite slice_full_from.
Qed.

Section TokenizerFacts.

Variable lower : rune -> rune.

Lemma readUntilScriptTagClose_step_in_tag (scriptType : gostring) (m m' : scriptMachine)
    (start cursor : nat) (c : rune) :
  start <= cursor ->
  (in_tag m -> start <= tag_start m <= cursor) ->
  readUntilScriptTagClose_step lower scriptType m cursor c = JNext m' ->
  in_tag m' -> start <= tag_start m' <= cursor.
Proof.
  unfold in_tag, readUntilScriptTagClose_step. intros Hle Hinv.
  destruct (js_state m) eqn:Hs; intros H;
    repeat match type of H with
           | (if ?b then _ else _) = _ => destruct b
           end;
    try discriminate; injection H as <-; simpl; rewrite ?Hs;
    intros [?|?]; try discriminate; try lia; apply Hinv; auto.
Qed.

Lemma readUntilScriptTagClose_step_return (scriptType : gostring) (m : scriptMachine)
    (cursor : nat) (c : rune) (ts : nat) :
  readUntilScriptTagClose_step lower scriptType m cursor c = JReturn ts ->
  in_tag m /\ ts = tag_start m.
Proof.
  unfold in_tag, readUntilScriptTagClose_step.
  destruct (js_state m) eqn:Hs; intros H;
    repeat match type of H with
           | (if ?b then _ else _) = _ => destruct b
           end;
    try discriminate; injection H as <-; auto.
Qed.

(** The span that the scanner returns lies between the starting position
    and the new cursor, and the new cursor is within the text. *)
Lemma readUntilScriptTagClose_loop_bounds (fuel : nat) (text : list rune)
    (scriptType : gostring) (start : nat) :
  forall (m : scriptMachine) (cursor : nat),
    start <= cursor <= length text ->
    (in_tag m -> start <= tag_start m <= cursor) ->
    let '(span_end, cursor') :=
      readUntilScriptTagClose_loop lower fuel text scriptType m cursor in
    start <= span_end <= cursor' /\ cursor <= cursor' <= length text.
Proof.
  induction fuel as [|fuel IH]; intros m cursor Hle Hinv; simpl; [lia|].
  destruct (text !! cursor) as [c|] eqn:Hc; [|lia].
  apply lookup_lt_length in Hc.
  destruct (readUntilScriptTagClose_step lower scriptType m cursor c) as [m'|ts] eqn:Hstep.
  - assert (Hinv' : in_tag m' -> start <= tag_start m' <= cursor + 1).
    { intros Hin.
      pose proof (readUntilScriptTagClose_step_in_tag scriptType m m' start cursor c
                    ltac:(lia) Hinv Hstep Hin).
      lia. }
    specialize (IH m' (cursor + 1) ltac:(lia) Hinv').
    destruct (readUntilScriptTagClose_loop lower fuel text scriptType m' (cursor + 1)).
    lia.
  - apply readUntilScriptTagClose_step_return in Hstep as [Hin ->].
    specialize (Hinv Hin). lia.
Qed.

(** With [length text - cursor] iterations the loop ends for the reason the
    source ends: more iterations change nothing. *)
Lemma readUntilScriptTagClose_loop_fuel (fuel : nat) (text : list rune)
    (scriptType : gostring) :
  forall (m : scriptMachine) (cursor : nat),
    length text - cursor <= fuel ->
    readUntilScriptTagClose_loop lower (S fuel) text scriptType m cursor
    = readUntilScriptTagClose_loop lower fuel text scriptType m cursor.
Proof.
  induction fuel as [|fuel IH]; intros m cursor Hfuel.
  - simpl. destruct (text !! cursor) eqn:Hc; [|done].
    apply lookup_lt_length in Hc. lia.
  - change (readUntilScriptTagClose_loop lower (S (S fuel)) text scriptType m cursor)
      with (match text !! cursor with
            | None => (cursor, cursor)
            | Some c =>
                match readUntilScriptTagClose_step lower scriptType m cursor c with
                | JNext m' =>
                    readUntilScriptTagClose_loop lower (S fuel) text scriptType m'
                      (cursor + 1)
                | JReturn ts => (ts, (cursor + 1)%nat)
                end
            end).
    simpl. destruct (text !! cursor) as [c|]; [|done].
    destruct (readUntilScriptTagClose_step lower scriptType m cursor c); [|done].
    apply IH. lia.
Qed.

Lemma readUntilScriptTagClose_bounds (text : list rune) (cursor : nat)
    (scriptType : gostring) :
  cursor <= length text ->
  cursor <= snd (readUntilScriptTagClose lower text cursor scriptType) <= length text.
Proof.
  intros Hle. unfold readUntilScriptTagClose.
  pose proof (readUntilScriptTagClose_loop_bounds (length text - cursor) text scriptType
                cursor (mkScriptMachine J0 0 EMPTY 0%Z) cursor ltac:(lia)) as H.
  destruct (readUntilScriptTagClose_loop lower (length text - cursor) text scriptType
              (mkScriptMachine J0 0 EMPTY 0%Z) cursor).
  simpl. apply H. unfold in_tag. simpl. intros [?|?]; discriminate.
Qed.

(** *** The tokenizer never runs out of fuel and consumes input *)

(** A pass that steps back is never the first one, and the pass that
    re-reads the character does not step back again. *)
Lemma readTag_step_Back (m m' : tagMachine) (c : rune) :
  readTag_step lower m c = Back m' ->
  state m <> T0 /\ state m' <> T0 /\ backs lower m' c = false.
Proof.
  unfold backs, readTag_step.
  destruct (state m) eqn:Hs; intros H;
    repeat match type of H with
           | (if ?b then _ else _) = _ => destruct b eqn:?
           | (let _ := _ in _) = _ => simpl in H
           end;
    try discriminate; inversion H; subst; clear H; simpl;
    (split; [done|]); (split; [done|]).
  - (* 3 -> 1 *)
    repeat match goal with |- context [if ?b then _ else _] => destruct b end; done.
  - (* 20 -> 100 *)
    match goal with Hw : negb (isWhitespace c) = true |- _ =>
      apply negb_true_iff in Hw; rewrite Hw end.
    repeat match goal with H : is_rune _ c = false |- _ => rewrite H end.
    simpl. by destruct (is_rune "=" c).
  - (* 100 -> 20 *)
    match goal with Hor : is_rune ">" c || is_rune "/" c = true |- _ =>
      apply orb_true_iff in Hor as [Hor|Hor]; rewrite Hor end;
      by destruct (is_rune "/" c).
Qed.

Lemma readTag_need_le (text : list rune) (m : tagMachine) (cursor : nat) :
  readTag_need lower text m cursor <= 2 * (length text - cursor).
Proof.
  unfold readTag_need. destruct (text !! cursor) as [c|]; [|lia].
  destruct (backs lower m c); lia.
Qed.

Lemma readTag_loop_spec (text : list rune) (start : nat) (fuel : nat) :
  forall (m : tagMachine) (cursor : nat),
    start <= cursor <= length text ->
    (state m <> T0 -> start < cursor) ->
    readTag_need lower text m cursor <= fuel ->
    exists e err cursor',
      readTag_loop lower fuel text m cursor = Some (e, err, cursor')
      /\ cursor <= cursor' <= length text
      /\ (start < length text -> start < cursor').
Proof.
  induction fuel as [|fuel IH]; intros m cursor Hrange Hstate Hneed;
    unfold readTag_need in Hneed; simpl;
    destruct (text !! cursor) as [c|] eqn:Hc.
  - pose proof (lookup_lt_length _ _ _ Hc). destruct (backs lower m c); lia.
  - apply lookup_ge_None in Hc. eexists _, _, _. split; [done|]. lia.
  - pose proof (lookup_lt_length _ _ _ Hc) as Hlt.
    unfold backs in Hneed.
    destruct (readTag_step lower m c) as [m'|m'|e err] eqn:Hstep.
    + destruct (IH m' (cursor + 1)) as (e & err & c' & Hrun & Hc' & Hprog).
      * lia.
      * intros _. lia.
      * pose proof (readTag_need_le text m' (cursor + 1)). lia.
      * exists e, err, c'. split; [done|]. lia.
    + apply readTag_step_Back in Hstep as (Hm & Hm' & Hback).
      specialize (Hstate Hm).
      replace (cursor - 1 + 1) with cursor by lia.
      destruct (IH m' cursor) as (e & err & c' & Hrun & Hc' & Hprog).
      * lia.
      * intros _. lia.
      * unfold readTag_need. rewrite Hc, Hback. lia.
      * exists e, err, c'. split; [done|]. lia.
    + eexists _, _, _. split; [done|]. lia.
  - apply lookup_ge_None in Hc. eexists _, _, _. split; [done|]. lia.
Qed.

(** [readTag] returns; the cursor does not leave the text, and moves
    forward when it was inside the text. *)
Lemma readTag_total (text : list rune) (cursor : nat) :
  cursor <= length text ->
  exists e err cursor',
    readTag lower text cursor = Some (e, err, cursor')
    /\ cursor <= cursor' <= length text
    /\ (cursor < length text -> cursor < cursor').
Proof.
  intros Hle. unfold readTag.
  apply readTag_loop_spec; [lia | done |].
  pose proof (readTag_need_le text readTag_init cursor).
  unfold readTag_fuel. lia.
Qed.

(** The only errors of the tokenizer. *)
Lemma readTag_step_error (m : tagMachine) (c : rune) (e : Element) (err : error) :
  readTag_step lower m c = Return e (Some err) ->
  err = emptyTagError \/ err = almostCommentError.
Proof.
  unfold readTag_step.
  destruct (state m); intros H;
    repeat match type of H with
           | (if ?b then _ else _) = _ => destruct b
           | (let _ := _ in _) = _ => simpl in H
           end;
    try discriminate; inversion H; auto.
Qed.

Lemma readTag_loop_error (text : list rune) (fuel : nat) :
  forall (m : tagMachine) (cursor : nat) (e : Element) (err : error) (cursor' : nat),
    readTag_loop lower fuel text m cursor = Some (e, Some err, cursor') ->
    err = emptyTagError \/ err = almostCommentError.
Proof.
  induction fuel as [|fuel IH]; intros m cursor e err cursor'; simpl;
    destruct (text !! cursor) as [c|]; try discriminate.
  destruct (readTag_step lower m c) as [m'|m'|e' [err'|]] eqn:Hstep; try discriminate.
  - apply IH.
  - apply IH.
  - intros [= <- <- <-]. by apply readTag_step_error in Hstep.
Qed.

Lemma readTag_error (text : list rune) (cursor : nat) (e : Element) (err : error)
    (cursor' : nat) :
  readTag lower text cursor = Some (e, Some err, cursor') ->
  err = emptyTagError \/ err = almostCommentError.
Proof. apply readTag_loop_error. Qed.

Lemma readTag_at_end (text : list rune) (cursor : nat) :
  length text <= cursor ->
  readTag lower text cursor = Some (trailingElement, None, cursor).
Proof.
  intros Hge. unfold readTag, readTag_fuel.
  replace (length text - cursor) with 0 by lia. simpl.
  rewrite (proj2 (lookup_ge_None text cursor) Hge).
  reflexivity.
Qed.

End TokenizerFacts.

(** ** The tree builder: termination and the cursor *)

Opaque readUntilTag readTag readUntilScriptTagClose.

Section TreeBuilderFacts.

Variable lower : rune -> rune.

(** One iteration of the tree-builder loop: the cursor after
    [readUntilTag] and [readTag] is strictly larger than before. *)
Lemma iteration_advances (body : list rune) (cursor : nat) :
  cursor < length body ->
  exists read_tag err cursor2,
    readTag lower body (snd (readUntilTag body cursor)) = Some (read_tag, err, cursor2)
    /\ cursor < cursor2 <= length body.
Proof.
  intros Hlt.
  pose proof (readUntilTag_bounds body cursor) as Hb1.
  destruct (readTag_total lower body (snd (readUntilTag body cursor)))
    as (e & err & c2 & Hrt & Hb2 & Hprog); [lia|].
  exists e, err, c2. split; [done|]. lia.
Qed.

(** [length body - cursor] iterations are enough for the loop started at
    [cursor], nested calls included. *)
Lemma parseChildren_loop_terminates (fuel : nat) :
  forall (sc : bool) (body : list rune) (parse_start : nat) (parent : Element)
         (cursor : nat) (tagStack : elementStack),
    cursor <= length body ->
    length body - cursor <= fuel ->
    returns_within body cursor
      (parseChildren_loop lower fuel sc body parse_start parent cursor tagStack).
Proof.
  induction fuel as [|fuel IH]; intros sc body parse_start parent cursor tagStack Hle Hfuel.
  - simpl. destruct (decide (cursor < length body)); simpl; lia.
  - simpl. destruct (decide (cursor < length body)) as [Hlt|]; [|simpl; lia].
    destruct (iteration_advances body cursor Hlt) as (tag & err & c2 & Hrt & Hc2).
    destruct (readUntilTag body cursor) as [results cursor1] eqn:Hrut.
    simpl in Hrt. rewrite Hrt.
    set (parent1 := if (0 <? length results) && negb (isContinuousWhitespace results)
                    then _ else _). clearbody parent1.
    assert (Hstep : forall ps p c st, c2 <= c <= length body ->
              returns_within body c
                (parseChildren_loop lower fuel sc body ps p c st)).
    { intros ps p c st Hc. apply IH; lia. }
    assert (Hweak : forall c o, cursor <= c ->
              returns_within body c o -> returns_within body cursor o).
    { intros c [r| |] Hc; simpl; try done. lia. }
    destruct err as [err|]; [simpl; lia|].
    destruct (IsClose tag).
    { destruct (Peek tagStack) as [expected|]; [|done].
      destruct (bool_decide _); [simpl; lia|].
      destruct sc; [simpl; lia|]. apply (Hweak c2); [lia|]. apply Hstep. lia. }
    destruct (IsVoid tag); [apply (Hweak c2); [lia|]; apply Hstep; lia|].
    destruct (bool_decide (ElementName tag = runes "script")).
    { destruct (readUntilScriptTagClose lower body c2 _) as [contents c3] eqn:Hs.
      pose proof (readUntilScriptTagClose_bounds lower body c2
                    match get_attr tag (runes "type") with
                    | Some t => t | None => runes "text/javascript" end) as Hb.
      rewrite Hs in Hb. simpl in Hb.
      apply (Hweak c3); [lia|]. apply Hstep. lia. }
    destruct (decide (length body = 0)); [lia|].
    pose proof (Hstep c2 tag c2 (Push (Duplicate tagStack) tag) ltac:(lia)) as Hchild.
    destruct (parseChildren_loop lower fuel sc body c2 tag c2 _) as [r| |];
      simpl in Hchild; try done.
    destruct (r_err r); [simpl; lia|].
    apply (Hweak (r_cursor r)); [lia|]. apply Hstep. lia.
Qed.

Lemma parseChildren_terminates (sc : bool) (body : list rune) (parent : Element)
    (cursor : nat) (tagStack : elementStack) (fuel : nat) :
  cursor <= length body ->
  length body - cursor <= fuel ->
  returns_within body cursor (parseChildren lower fuel parent body cursor tagStack sc).
Proof.
  intros Hle Hfuel. unfold parseChildren.
  destruct (decide (length body = 0)); [simpl; lia|].
  by apply parseChildren_loop_terminates.
Qed.

(** More fuel does not change what the loop does once it is enough. *)
Lemma parseChildren_loop_fuel_mono (fuel : nat) :
  forall (fuel' : nat) (sc : bool) (body : list rune) (parse_start : nat)
         (parent : Element) (cursor : nat) (tagStack : elementStack),
    fuel <= fuel' ->
    parseChildren_loop lower fuel sc body parse_start parent cursor tagStack <> OutOfFuel ->
    parseChildren_loop lower fuel' sc body parse_start parent cursor tagStack
    = parseChildren_loop lower fuel sc body parse_start parent cursor tagStack.
Proof.
  induction fuel as [|fuel IH]; intros fuel' sc body parse_start parent cursor tagStack Hle Hok.
  - simpl in *. destruct fuel'; simpl; destruct (decide (cursor < length body)); done.
  - destruct fuel' as [|fuel']; [lia|]. simpl in *.
    destruct (decide (cursor < length body)); [|done].
    destruct (readUntilTag body cursor) as [results cursor1].
    destruct (readTag lower body cursor1) as [[[tag [err|]] c2]|]; try done.
    assert (Hstep : forall ps p c st,
              parseChildren_loop lower fuel sc body ps p c st <> OutOfFuel ->
              parseChildren_loop lower fuel' sc body ps p c st
              = parseChildren_loop lower fuel sc body ps p c st).
    { intros. apply IH; [lia|done]. }
    destruct (IsClose tag).
    { destruct (Peek tagStack); [|done]. destruct (bool_decide _); [done|].
      destruct sc; [done|]. by apply Hstep. }
    destruct (IsVoid tag); [by apply Hstep|].
    destruct (bool_decide (ElementName tag = runes "script")).
    { destruct (readUntilScriptTagClose lower body c2 _). by apply Hstep. }
    destruct (decide (length body = 0)).
    { simpl in *. by apply Hstep. }
    destruct (parseChildren_loop lower fuel sc body c2 tag c2 _) as [r| |] eqn:Hchild;
      try done; rewrite Hstep by (by rewrite Hchild); rewrite Hchild; try done.
    destruct (r_err r); [done|]. by apply Hstep.
Qed.

End TreeBuilderFacts.

(** ** The tag-context stack of the tree builder *)

Lemma walk_prepend_rev {A : Type} (f : Element -> A) (l : list Element) (acc : list A) :
  walk_prepend f l acc = rev (List.map f l) ++ acc.
Proof.
  revert acc. induction l as [|v l IH]; intros acc; simpl; [done|].
  rewrite IH. by rewrite <- app_assoc.
Qed.

Lemma foldl_Push_Top (vs : list Element) (es : elementStack) :
  Top (foldl Push es vs) = rev vs ++ Top es.
Proof.
  revert es. induction vs as [|v vs IH]; intros es; simpl; [done|].
  rewrite IH. simpl. by rewrite <- app_assoc.
Qed.

Lemma Duplicate_Top (es : elementStack) : Top (Duplicate es) = Top es.
Proof.
  unfold Duplicate. destruct (Top es) as [|v vs] eqn:H; [done|].
  rewrite foldl_Push_Top, walk_prepend_rev, app_nil_r, app_nil_r.
  rewrite map_id. apply rev_involutive.
Qed.

Lemma Push_Top (es : elementStack) (e : Element) : Top (Push es e) = e :: Top es.
Proof. done. Qed.

Lemma stack_ToString_names (es : elementStack) :
  stack_ToString es =
    match Top es with
    | [] => runes "*"
    | _ => strings_Join (rev (List.map ElementName (Top es))) (runes " > ")
    end.
Proof.
  unfold stack_ToString. destruct (Top es); [done|].
  by rewrite walk_prepend_rev, app_nil_r.
Qed.

Lemma Duplicate_ToString (es : elementStack) :
  stack_ToString (Duplicate es) = stack_ToString es.
Proof. by rewrite !stack_ToString_names, Duplicate_Top. Qed.

(** ** The last iteration of a level *)

Section Levels.

Variable lower : rune -> rune.

(** When [readUntilTag] runs to the end of the input, [readTag] returns
    the empty record, the tree builder descends into it as into a
    container, and the level ends with that record appended. *)
Lemma trailing_iteration (fuel : nat) (sc : bool) (body : list rune)
    (parse_start : nat) (parent : Element) (cursor : nat) (tagStack : elementStack)
    (results : list rune) :
  cursor < length body ->
  readUntilTag body cursor = (results, length body) ->
  parseChildren_loop lower (S fuel) sc body parse_start parent cursor tagStack
  = Returns (mkResult
               (set_InnerHTML
                  (AddChild (with_text parent results) (trailingElement))
                  (slice body parse_start (length body)))
               (length body) tagStack None).
Proof.
  intros Hlt Hrut. simpl.
  destruct (decide (cursor < length body)); [|lia].
  rewrite Hrut, readTag_at_end by lia. simpl.
  destruct (decide (length body = 0)); [lia|].
  assert (Hend : forall ps p st,
            parseChildren_loop lower fuel sc body ps p (length body) st
            = Returns (mkResult (set_InnerHTML p (slice body ps (length body)))
                         (length body) st None)).
  { intros. destruct fuel; simpl; destruct (decide (length body < length body)); done || lia. }
  rewrite Hend. simpl. rewrite Hend. rewrite slice_empty. reflexivity.
Qed.

(** What the tree builder does at a close tag when the stack is not empty.
    If the names agree the level returns, and the span it records ends at
    the cursor that [readTag] left after the close tag.  If they differ,
    the lenient mode goes on with the next iteration of the same level: the
    close tag is dropped. *)
Lemma matching_close_ends_level (fuel : nat) (sc : bool) (body : list rune)
    (parse_start : nat) (parent : Element) (cursor : nat) (tagStack : elementStack)
    (results : list rune) (cursor1 cursor2 : nat) (read_tag expected_tag : Element) :
  cursor < length body ->
  readUntilTag body cursor = (results, cursor1) ->
  readTag lower body cursor1 = Some (read_tag, None, cursor2) ->
  IsClose read_tag = true ->
  Peek tagStack = Some expected_tag ->
  ElementName expected_tag = ElementName read_tag ->
  parseChildren_loop lower (S fuel) sc body parse_start parent cursor tagStack
  = Returns (mkResult
               (set_InnerHTML (with_text parent results)
                  (slice body parse_start cursor2))
               cursor2 (snd (Pop tagStack)) None).
Proof.
  intros Hlt Hrut Hrt Hclose Hpeek Hname. simpl.
  destruct (decide (cursor < length body)); [|lia].
  rewrite Hrut, Hrt, Hclose, Hpeek. by rewrite bool_decide_eq_true_2.
Qed.

Lemma lenient_drops_mismatched_close (fuel : nat) (body : list rune)
    (parse_start : nat) (parent : Element) (cursor : nat) (tagStack : elementStack)
    (results : list rune) (cursor1 cursor2 : nat) (read_tag expected_tag : Element) :
  cursor < length body ->
  readUntilTag body cursor = (results, cursor1) ->
  readTag lower body cursor1 = Some (read_tag, None, cursor2) ->
  IsClose read_tag = true ->
  Peek tagStack = Some expected_tag ->
  ElementName expected_tag <> ElementName read_tag ->
  parseChildren_loop lower (S fuel) false body parse_start parent cursor tagStack
  = parseChildren_loop lower fuel false body parse_start (with_text parent results)
      cursor2 tagStack.
Proof.
  intros Hlt Hrut Hrt Hclose Hpeek Hname. simpl.
  destruct (decide (cursor < length body)); [|lia].
  rewrite Hrut, Hrt, Hclose, Hpeek. by rewrite bool_decide_eq_false_2.
Qed.

End Levels.

(** ** The cases of the repository's tests and of the spec's examples *)

Example readTag_doctype :
  readTag asciiToLower (runes "<!DOCTYPE html>") 0
  = Some (mkElement (runes "doctype") [] (Some {[ runes "html" := [] ]}) []
                    false true false false false false, None, 15).
Proof. vm_compute. reflexivity. Qed.

Example readTag_comment :
  readTag asciiToLower (runes "<!-- this is a comment -->") 0
  = Some (mkElement (runes "xmlcomment") (runes " this is a comment ") (Some ∅) []
                    false true true false false false, None, 26).
Proof. vm_compute. reflexivity. Qed.

Example readTag_void_by_name_any_case :
  readTag asciiToLower (runes "<BR>") 0
  = Some (mkElement (runes "br") [] (Some ∅) [] false true false false false false,
          None, 4)
  /\ readTag asciiToLower (runes "<Br/>") 0
     = Some (mkElement (runes "br") [] (Some ∅) [] false true false false false false,
             None, 4).
Proof. split; vm_compute; reflexivity. Qed.

Example readTag_close :
  readTag asciiToLower (runes "</ div>") 0
  = Some (mkElement (runes "div") [] (Some ∅) [] false false false false true false,
          None, 7)
  /\ readTag asciiToLower (runes "< /div>") 0
     = Some (mkElement (runes "div") [] (Some ∅) [] false false false false true false,
             None, 7).
Proof. split; vm_compute; reflexivity. Qed.

Example readTag_attributes :
  readTag asciiToLower
    (runes "<a class=" ++ dq ++ runes "my-link" ++ dq ++ runes " href=" ++ dq
       ++ runes "/test/route" ++ dq ++ runes " />") 0
  = Some (mkElement (runes "a") []
            (Some (<[runes "href" := runes "/test/route"]>
                     {[ runes "class" := runes "my-link" ]})) []
            false true false false false false, None, 39)
  /\ readTag asciiToLower
       (runes "<div class='with=" ++ dq ++ runes "escaped_quotes" ++ dq ++ runes "'>") 0
     = Some (mkElement (runes "div") []
               (Some {[ runes "class" :=
                          runes "with=" ++ dq ++ runes "escaped_quotes" ++ dq ]}) []
               false false false false false false, None, 35).
Proof. split; vm_compute; reflexivity. Qed.

Example readTag_empty_tag_error :
  readTag asciiToLower (runes "< >") 0
  = Some (mkElement [] [] (Some ∅) [] false false false false false false,
          Some emptyTagError, 3).
Proof. vm_compute. reflexivity. Qed.

Example readUntilTag_cases :
  readUntilTag (runes "      this is a test of reading until the tag <area/>") 0
  = (runes "      this is a test of reading until the tag ", 46)
  /\ readUntilTag (runes "there is no tag.") 0 = (runes "there is no tag.", 16)
  /\ readUntilTag (runes "<br/> more text ...") 0 = ([], 0).
Proof. repeat split; vm_compute; reflexivity. Qed.

Example readUntilScriptTagClose_comments :
  readUntilScriptTagClose asciiToLower
    (runes "//</script>
		var foo = 'bar';
		</script>") 0 (runes "text/javascript")
  = (runes "//</script>
		var foo = 'bar';
		", 42)
  /\ readUntilScriptTagClose asciiToLower
       (runes "var foo = 'bar';
		/* this is a block
		comment and is annoying */
		foo = 'baz';
		</script>") 0 (runes "text/javascript")
     = (runes "var foo = 'bar';
		/* this is a block
		comment and is annoying */
		foo = 'baz';
		", 93).
Proof. split; vm_compute; reflexivity. Qed.

Example Parse_snippet :
  Parse asciiToLower (runes "<div id='first'><br><p><h1>Test!</h1></p></div>")
  = Returns
      (mkElement [] (runes "<div id='first'><br><p><h1>Test!</h1></p></div>") None
         [mkElement (runes "div") (runes "<br><p><h1>Test!</h1></p></div>")
            (Some {[ runes "id" := runes "first" ]})
            [mkElement (runes "br") [] (Some ∅) [] false true false false false false;
             mkElement (runes "p") (runes "<h1>Test!</h1></p>") (Some ∅)
               [mkElement (runes "h1") (runes "Test!</h1>") (Some ∅)
                  [newTextNode (runes "Test!")]
                  false false false false false false]
               false false false false false false]
            false false false false false false]
         false false false true false false,
       None).
Proof. vm_compute. reflexivity. Qed.

Example Parse_whitespace_between_tags :
  exists root div p : Element,
    Parse asciiToLower (runes "<div>
  <p>x</p>
</div>") = Returns (root, None)
    /\ Children root = [div]
    /\ Children div = [p]
    /\ Children p = [newTextNode (runes "x")].
Proof.
  eexists _, _, _. split; [vm_compute; reflexivity|].
  repeat split; reflexivity.
Qed.

Example ParseStrict_invalid_snippet :
  exists (root : Element) (e : error),
    ParseStrict asciiToLower (runes "<div><h1>Test!</p></h1></div>")
    = Returns (root, Some e)
    /\ Error e = runes "unexpected close </p> (expected </h1>) on line: 0
current path: div > h1"
    /\ exists root', Parse asciiToLower (runes "<div><h1>Test!</p></h1></div>")
                    = Returns (root', None).
Proof.
  eexists _, _. split; [vm_compute; reflexivity|]. split; [reflexivity|].
  eexists. vm_compute. reflexivity.
Qed.

(** ** Structural equality is reflexive *)

Lemma EqualTo_refl : forall e : Element, EqualTo e e = true.
Proof.
  fix IH 1. intros [name inner attrs children t v c r cl d]. simpl.
  rewrite !bool_decide_eq_true_2 by done.
  rewrite !Bool.eqb_reflx, !Nat.eqb_refl. simpl.
  induction children as [|child children IHc]; [done|].
  by rewrite IH, IHc.
Qed.

(** ** Termination *)

(** C9. [Parse] and [ParseStrict] terminate on every input.  [readTag]
    returns and consumes at least one character when the cursor is inside
    the text, and a pass of its switch that steps back one character is
    followed by a pass that does not; every iteration of the tree-builder loop (hence every nested
    call, which starts where [readTag] stopped) leaves the cursor strictly
    further; the loop started at [cursor] is done within
    [length body - cursor] iterations, nested calls included, and more
    iterations do not change its result. *)
Theorem C9_parse_terminates (lower : rune -> rune) :
  (forall (text : list rune) (cursor : nat),
      cursor < length text ->
      exists e err cursor',
        readTag lower text cursor = Some (e, err, cursor')
        /\ cursor < cursor' <= length text)
  /\ (forall (m m' : tagMachine) (c : rune),
        readTag_step lower m c = Back m' ->
        forall m'', readTag_step lower m' c <> Back m'')
  /\ (forall (body : list rune) (cursor : nat),
        cursor < length body ->
        exists read_tag err cursor2,
          readTag lower body (snd (readUntilTag body cursor))
          = Some (read_tag, err, cursor2)
          /\ cursor < cursor2 <= length body)
  /\ (forall (fuel : nat) (sc : bool) (body : list rune) (parent : Element)
             (cursor : nat) (tagStack : elementStack),
        cursor <= length body ->
        length body - cursor <= fuel ->
        match parseChildren lower fuel parent body cursor tagStack sc with
        | Returns r =>
            cursor <= r_cursor r <= length body
            /\ parseChildren lower (length body - cursor) parent body cursor tagStack sc
               = Returns r
        | Panic =>
            parseChildren lower (length body - cursor) parent body cursor tagStack sc
            = Panic
        | OutOfFuel => False
        end)
  /\ (forall body : list rune,
        ParseStrict lower body <> OutOfFuel /\ Parse lower body <> OutOfFuel).
Proof.
  split; [|split; [|split; [|split]]].
  - intros text cursor Hlt.
    destruct (readTag_total lower text cursor) as (e & err & c' & H & Hb & Hp); [lia|].
    exists e, err, c'. split; [done|]. lia.
  - intros m m' c Hstep m'' Hagain.
    apply readTag_step_Back in Hstep as (_ & _ & Hback).
    unfold backs in Hback. by rewrite Hagain in Hback.
  - apply iteration_advances.
  - intros fuel sc body parent cursor tagStack Hle Hfuel.
    pose proof (parseChildren_terminates lower sc body parent cursor tagStack
                  (length body - cursor) Hle ltac:(lia)) as Hmin.
    assert (Heq : parseChildren lower fuel parent body cursor tagStack sc
                  = parseChildren lower (length body - cursor) parent body cursor tagStack sc).
    { unfold parseChildren in *. destruct (decide (length body = 0)); [done|].
      apply parseChildren_loop_fuel_mono; [lia|].
      intros Hout. by rewrite Hout in Hmin. }
    rewrite Heq.
    destruct (parseChildren lower (length body - cursor) parent body cursor tagStack sc);
      simpl in Hmin; done.
  - intros body.
    pose proof (parseChildren_terminates lower true body rootElement 0 emptyStack
                  (length body) ltac:(lia) ltac:(lia)) as Hs.
    pose proof (parseChildren_terminates lower false body rootElement 0 emptyStack
                  (length body) ltac:(lia) ltac:(lia)) as Hl.
    unfold ParseStrict, Parse.
    destruct (parseChildren lower (length body) rootElement body 0 emptyStack true);
      destruct (parseChildren lower (length body) rootElement body 0 emptyStack false);
      simpl in *; done.
Qed.

Lemma C9_parse_terminates_witness :
  let text := runes "<a href=x>t</a>" in
  exists e err cursor',
    readTag asciiToLower text 3 = Some (e, err, cursor')
    /\ 3 < cursor' <= length text.
Proof.
  apply (proj1 (C9_parse_terminates asciiToLower)). vm_compute. lia.
Defined.

(** ** Text at the end of the input *)

Lemma isContinuousWhitespace_false_length (results : list rune) :
  isContinuousWhitespace results = false -> (0 <? length results) = true.
Proof. destruct results; [done|]. intros _. done. Qed.

(** ** Behaviour on particular inputs *)

(** C1. A close tag at the top level of the document, where the stack is
    empty: [Peek] returns nil and [parseChildren] reads [ElementName]
    through it.  The lenient parse of ["</div>"] panics. *)
Theorem C1_close_tag_on_empty_stack_panics :
  Parse asciiToLower (runes "</div>") = Panic
  /\ Parse asciiToLower (runes "<p>x</p></div>") = Panic.
Proof. split; vm_compute; reflexivity. Qed.

(** C3. The span recorded for a container that ends on its matching close
    tag runs up to the cursor after [readTag] has consumed that close tag:
    the [InnerHTML] of the [div] of ["<div>hello</div>"] is
    ["hello</div>"], not ["hello"]. *)
Theorem C3_InnerHTML_includes_close_tag :
  exists root div : Element,
    Parse asciiToLower (runes "<div>hello</div>") = Returns (root, None)
    /\ Children root = [div]
    /\ ElementName div = runes "div"
    /\ InnerHTML div = runes "hello</div>"
    /\ InnerHTML div <> runes "hello".
Proof.
  eexists _, _. split; [vm_compute; reflexivity|].
  split; [reflexivity|]. split; [reflexivity|]. split; [reflexivity|].
  discriminate.
Qed.

(** C6. In comment mode a ["-"] that does not start the closing ["-->"] is
    dropped, and after ["--"] every character up to the next [">"] is
    dropped: the stored content of ["<!--a-b-->"] is ["ab"] and that of
    ["<!--a--b-->"] is ["a"]. *)
Theorem C6_comment_drops_hyphens :
  (exists e : Element,
      readTag asciiToLower (runes "<!--a-b-->") 0 = Some (e, None, 10)
      /\ IsComment e = true
      /\ InnerHTML e = runes "ab"
      /\ InnerHTML e <> runes "a-b")
  /\ (exists e : Element,
        readTag asciiToLower (runes "<!--a--b-->") 0 = Some (e, None, 11)
        /\ IsComment e = true
        /\ InnerHTML e = runes "a"
        /\ InnerHTML e <> runes "a--b").
Proof.
  split; eexists; (split; [vm_compute; reflexivity|]);
    (split; [reflexivity|]); (split; [reflexivity|]); discriminate.
Qed.

(** C7. A ["-"] in a tag name moves the tokenizer to state 11, for which
    the switch has no case: the rest of the input is consumed without
    effect.  For ["<my-element>after"] the record is named ["my"] and the
    cursor is at the end of the input, not after the tag's [">"]. *)
Theorem C7_hyphen_in_tag_name_swallows_input :
  exists e : Element,
    readTag asciiToLower (runes "<my-element>after") 0
    = Some (e, None, length (runes "<my-element>after"))
    /\ ElementName e = runes "my"
    /\ ElementName e <> runes "my-element"
    /\ length (runes "<my-element>after") <> length (runes "<my-element>").
Proof.
  eexists. split; [vm_compute; reflexivity|].
  split; [reflexivity|]. split; discriminate.
Qed.

(** C5. With content type ["text/javascript"] the script scanner returns
    [var a = "abc";] for the input [var a = "abc";</script>] and
    [alert('</script>');] for the input [alert('</script>');</script>]; in
    both cases the cursor is left just after the closing [</script>],
    whatever follows it. *)
Theorem C5_script_scanner_examples (rest : list rune) :
  let body1 := runes "var a = " ++ [quote_double] ++ runes "abc"
                 ++ [quote_double] ++ runes ";" in
  let body2 := runes "alert('</script>');" in
  readUntilScriptTagClose asciiToLower (body1 ++ runes "</script>" ++ rest) 0
    (runes "text/javascript")
  = (body1, length (body1 ++ runes "</script>"))
  /\ readUntilScriptTagClose asciiToLower (body2 ++ runes "</script>" ++ rest) 0
       (runes "text/javascript")
     = (body2, length (body2 ++ runes "</script>")).
Proof. split; vm_compute; reflexivity. Qed.

(** ** The error of a strict parse *)

Section Mismatch.

Variable lower : rune -> rune.

Lemma parseChildren_loop_cursor (fuel : nat) (sc : bool) (body : list rune)
    (parse_start : nat) (parent : Element) (cursor : nat) (tagStack : elementStack)
    (r : parseResult) :
  parseChildren_loop lower fuel sc body parse_start parent cursor tagStack = Returns r ->
  cursor <= length body ->
  cursor <= r_cursor r <= length body.
Proof.
  intros Hrun Hle.
  pose proof (parseChildren_loop_terminates lower (fuel + (length body - cursor)) sc
                body parse_start parent cursor tagStack Hle ltac:(lia)) as Hterm.
  rewrite (parseChildren_loop_fuel_mono lower fuel) in Hterm;
    [|lia|by rewrite Hrun].
  by rewrite Hrun in Hterm.
Qed.

End Mismatch.

Lemma utf8_encode_single_byte (l : list rune) :
  Forall single_byte l -> utf8_encode l = l.
Proof.
  unfold utf8_encode. induction 1 as [|c l Hc _ IH]; simpl; [done|].
  rewrite IH. unfold utf8_encode_rune, single_byte in *.
  destruct (Z.ltb_spec c 0); [lia|].
  destruct (Z.ltb_spec 1114111 c); [lia|].
  destruct (Z.leb_spec 55296 c); [lia|].
  destruct (Z.ltb_spec c 128); [done|lia].
Qed.

Lemma countNewlinesBefore_take (l : list rune) (n : nat) :
  countNewlinesBefore l n = count_newlines (take n l).
Proof.
  unfold count_newlines. revert l.
  induction n as [|n IH]; intros [|c l]; try done.
  change (countNewlinesBefore (c :: l) (S n))
    with ((if (c =? 10)%Z then 1 else 0) + countNewlinesBefore l n).
  rewrite IH. simpl. rewrite filter_cons.
  destruct (Z.eqb_spec c 10); destruct (decide (c = 10%Z)); done.
Qed.

Lemma single_byte_forallb (l : list rune) :
  forallb (fun c => (0 <=? c)%Z && (c <? 128)%Z) l = true -> Forall single_byte l.
Proof.
  intros H. apply Forall_forall. intros c Hc.
  rewrite forallb_forall in H. apply list_elem_of_In in Hc.
  specialize (H c Hc). unfold single_byte. lia.
Qed.

(** C4, the line of a mismatch on the first line of the input: the error
    says line 0, not line 1. *)
Lemma C4_first_line_is_reported_as_0 :
  exists root : Element,
    ParseStrict asciiToLower (runes "<div></p>")
    = Returns (root, Some (errors_New
                 (runes "unexpected close </p> (expected </div>) on line: 0
current path: div")))
    /\ countNewlinesBefore (utf8_encode (runes "<div></p>")) 9 = 0
    /\ runes "unexpected close </p> (expected </div>) on line: 0
current path: div"
       <> runes "unexpected close </p> (expected </div>) on line: 1
current path: div".
Proof.
  eexists. split; [vm_compute; reflexivity|]. split; [reflexivity|]. discriminate.
Qed.

(** On an input with multi-byte characters the newlines are counted in a
    prefix of the bytes whose length is the cursor in runes: here the close
    tag is on the second line and the error says line 0. *)
Lemma line_is_counted_over_bytes :
  let body := runes "<div>" ++ [233; 233; 233; 233; 233]%Z ++ runes "
</p>" in
  exists root : Element,
    ParseStrict asciiToLower body
    = Returns (root, Some (errors_New
                 (runes "unexpected close </p> (expected </div>) on line: 0
current path: div")))
    /\ count_newlines (take (length body) body) = 1.
Proof. eexists. split; vm_compute; reflexivity. Qed.

(** ** The stack in the store *)

Lemma chain_same_nodes (h h' : StackHeap.store) (p : option positive)
    (vs : list Element) :
  StackHeap.nodes h' = StackHeap.nodes h ->
  StackHeap.chain h p vs -> StackHeap.chain h' p vs.
Proof.
  intros Heq Hch. induction Hch; econstructor; eauto. by rewrite Heq.
Qed.

Lemma chain_alloc (h h' : StackHeap.store) (q : positive)
    (nd : StackHeap.elementStackNode) (p : option positive) (vs : list Element) :
  StackHeap.nodes h !! q = None ->
  StackHeap.nodes h' = <[q := nd]> (StackHeap.nodes h) ->
  StackHeap.chain h p vs -> StackHeap.chain h' p vs.
Proof.
  intros Hfresh Heq Hch. induction Hch as [|p next v vs Hp _ IH]; econstructor; eauto.
  rewrite Heq, lookup_insert_ne; [done|]. intros ->. congruence.
Qed.

Lemma chain_functional (h : StackHeap.store) (p : option positive)
    (vs vs' : list Element) :
  StackHeap.chain h p vs -> StackHeap.chain h p vs' -> vs = vs'.
Proof.
  intros Hch. revert vs'. induction Hch as [|p next v vs Hp _ IH]; intros vs' Hch';
    inversion Hch'; subst; [done|].
  match goal with H : StackHeap.nodes h !! p = Some _ |- _ =>
    rewrite Hp in H; injection H as -> -> end.
  f_equal. by apply IH.
Qed.

Lemma fresh_node_unused (h : StackHeap.store) :
  StackHeap.nodes h !! fresh (dom (StackHeap.nodes h)) = None.
Proof. apply not_elem_of_dom, is_fresh. Qed.

Lemma fresh_stack_unused (h : StackHeap.store) :
  StackHeap.stacks h !! fresh (dom (StackHeap.stacks h)) = None.
Proof. apply not_elem_of_dom, is_fresh. Qed.

Lemma heap_Push (h : StackHeap.store) (es : positive) (s : elementStack) (e : Element) :
  repr h es s ->
  exists h',
    StackHeap.Push h es e = Returns h'
    /\ repr h' es (Push s e)
    /\ frame h h' es.
Proof.
  intros (st & Hst & Hch & Hcount).
  unfold StackHeap.Push. rewrite Hst. simpl.
  eexists. split; [reflexivity|].
  set (p := fresh (dom (StackHeap.nodes h))).
  pose proof (fresh_node_unused h) as Hp. fold p in Hp.
  split.
  - eexists. simpl. split; [apply lookup_insert_eq|]. simpl. split; [|lia].
    econstructor; [simpl; apply lookup_insert_eq|].
    eapply chain_alloc; [exact Hp | reflexivity | exact Hch].
  - intros es' s' Hne (st' & Hst' & Hch' & Hcount').
    exists st'. simpl. rewrite !lookup_insert_ne by done.
    repeat split; try done.
    eapply chain_alloc; [exact Hp | reflexivity | exact Hch'].
Qed.

Lemma heap_Pop (h : StackHeap.store) (es : positive) (s : elementStack) :
  repr h es s ->
  exists h',
    StackHeap.Pop h es = Returns (h', fst (Pop s))
    /\ repr h' es (snd (Pop s))
    /\ frame h h' es.
Proof.
  intros (st & Hst & Hch & Hcount).
  unfold StackHeap.Pop, Pop. rewrite Hst.
  inversion Hch as [Htop Hvs|p next v vs Hp Hnext Htop Hvs]; simpl.
  - exists h. split; [done|]. split; [|by intros ? ?].
    exists st. rewrite <- Htop, <- Hvs. repeat split; try done. constructor.
  - rewrite Hp. simpl. eexists. split; [reflexivity|]. split.
    + eexists. simpl. split; [apply lookup_insert_eq|]. simpl. split; [|lia].
      eapply chain_same_nodes; [|exact Hnext]. done.
    + intros es' s' Hne (st' & Hst' & Hch' & Hcount').
      exists st'. simpl. rewrite lookup_insert_ne by done.
      repeat split; try done. eapply chain_same_nodes; [|exact Hch']. done.
Qed.

Lemma heap_Peek (h : StackHeap.store) (es : positive) (s : elementStack) :
  repr h es s -> StackHeap.Peek h es = Returns (Peek s).
Proof.
  intros (st & Hst & Hch & _). unfold StackHeap.Peek, Peek. rewrite Hst.
  inversion Hch as [|p next v vs Hp]; [done|]. by rewrite Hp.
Qed.

Lemma heap_walk {A : Type} (h : StackHeap.store) (f : Element -> A)
    (p : option positive) (vs : list Element) :
  StackHeap.chain h p vs ->
  forall (fuel : nat) (acc : list A),
    length vs <= fuel ->
    StackHeap.walk fuel h f p acc = Returns (walk_prepend f vs acc).
Proof.
  induction 1 as [|p next v vs Hp _ IH]; intros fuel acc Hfuel.
  - by destruct fuel.
  - destruct fuel as [|fuel]; simpl in *; [lia|].
    rewrite Hp. simpl. apply IH. lia.
Qed.

Lemma heap_ToString (h : StackHeap.store) (es : positive) (s : elementStack)
    (fuel : nat) :
  repr h es s ->
  length (Top s) <= fuel ->
  StackHeap.ToString fuel h es = Returns (stack_ToString s).
Proof.
  intros (st & Hst & Hch & _) Hfuel.
  unfold StackHeap.ToString, stack_ToString. rewrite Hst.
  pose proof (heap_walk h ElementName _ _ Hch fuel [] Hfuel) as Hwalk.
  inversion Hch as [Htop Hvs|p next v vs Hp Hnext Htop Hvs]; [done|].
  rewrite <- Htop, <- Hvs in Hwalk. by rewrite Hwalk.
Qed.

Lemma heap_push_all (xs : list Element) :
  forall (h : StackHeap.store) (es : positive) (s : elementStack),
    repr h es s ->
    exists h',
      StackHeap.push_all h es xs = Returns h'
      /\ repr h' es (foldl Push s xs)
      /\ frame h h' es.
Proof.
  induction xs as [|x xs IH]; intros h es s Hrepr; simpl.
  - exists h. split; [done|]. split; [done|]. by intros ? ?.
  - destruct (heap_Push h es s x Hrepr) as (h1 & -> & Hrepr1 & Hframe1).
    destruct (IH h1 es (Push s x) Hrepr1) as (h2 & -> & Hrepr2 & Hframe2).
    exists h2. split; [done|]. split; [done|].
    intros es' s' Hne Hr. by apply Hframe2, Hframe1.
Qed.

Lemma heap_Duplicate (h : StackHeap.store) (es : positive) (s : elementStack)
    (fuel : nat) :
  repr h es s ->
  length (Top s) <= fuel ->
  exists h' new_es,
    StackHeap.Duplicate fuel h es = Returns (h', new_es)
    /\ StackHeap.stacks h !! new_es = None
    /\ repr h' new_es (Duplicate s)
    /\ (forall es' s', repr h es' s' -> repr h' es' s').
Proof.
  intros (st & Hst & Hch & Hcount) Hfuel.
  unfold StackHeap.Duplicate. rewrite Hst. simpl.
  set (d := fresh (dom (StackHeap.stacks h))).
  pose proof (fresh_stack_unused h) as Hd. fold d in Hd.
  set (h1 := StackHeap.mkStore (StackHeap.nodes h)
               (<[d := StackHeap.mkStack None 0]> (StackHeap.stacks h))).
  assert (Hkeep : forall es' s', repr h es' s' -> repr h1 es' s').
  { intros es' s' (st' & Hst' & Hch' & Hcount').
    exists st'. simpl. rewrite lookup_insert_ne by (intros ->; congruence).
    repeat split; try done. eapply chain_same_nodes; [|exact Hch']. done. }
  assert (Hempty : repr h1 d emptyStack).
  { eexists. simpl. split; [apply lookup_insert_eq|]. split; [constructor|done]. }
  inversion Hch as [Htop Hvs|p next v vs Hp Hnext Htop Hvs].
  - exists h1, d. split; [done|]. split; [done|]. split; [|done].
    unfold Duplicate. by rewrite <- Hvs.
  - assert (Hch1 : StackHeap.chain h1 (Some p) (Top s)).
    { rewrite <- Hvs. eapply chain_same_nodes; [|econstructor; eauto]. done. }
    rewrite (heap_walk h1 (fun v => v) _ _ Hch1 fuel [] Hfuel).
    destruct (heap_push_all (walk_prepend (fun v => v) (Top s) []) h1 d emptyStack Hempty)
      as (h2 & -> & Hrepr2 & Hframe2).
    exists h2, d. split; [done|]. split; [done|]. split.
    + unfold Duplicate. by rewrite <- Hvs in *.
    + intros es' s' Hr. apply Hframe2; [|by apply Hkeep].
      intros ->. destruct Hr as (? & ? & _). congruence.
Qed.

Lemma heap_run_ops (ops : list StackHeap.stackOp) :
  forall (h : StackHeap.store) (es : positive) (s : elementStack),
    repr h es s ->
    exists h',
      StackHeap.run_ops h es ops = Returns h'
      /\ repr h' es (foldl apply_op s ops)
      /\ frame h h' es.
Proof.
  induction ops as [|op ops IH]; intros h es s Hrepr; simpl.
  - exists h. split; [done|]. split; [done|]. by intros ? ?.
  - assert (exists h1, StackHeap.run_op h es op = Returns h1
                       /\ repr h1 es (apply_op s op) /\ frame h h1 es)
      as (h1 & -> & Hrepr1 & Hframe1).
    { destruct op as [e|]; simpl.
      - destruct (heap_Push h es s e Hrepr) as (h1 & ? & ? & ?). eauto.
      - destruct (heap_Pop h es s Hrepr) as (h1 & -> & ? & ?). eauto. }
    destruct (IH h1 es _ Hrepr1) as (h2 & -> & Hrepr2 & Hframe2).
    exists h2. split; [done|]. split; [done|].
    intros es' s' Hne Hr. by apply Hframe2, Hframe1.
Qed.

(** C8. For a stack [s] behind the pointer [es], [Duplicate] returns a
    pointer [d] to another struct with the same rendering and the same
    values; whatever pushes and pops are then made through [d], the stack
    behind [es] keeps its values and its rendering, and the other way
    round.  An empty stack renders as ["*"]; after pushing [br], [div],
    [div] the rendering is ["br > div > div"]. *)
Theorem C8_Duplicate_is_independent :
  (forall (h : StackHeap.store) (es : positive) (s : elementStack) (fuel : nat),
      repr h es s ->
      length (Top s) <= fuel ->
      exists (h' : StackHeap.store) (d : positive),
        StackHeap.Duplicate fuel h es = Returns (h', d)
        /\ d <> es
        /\ StackHeap.ToString fuel h es = Returns (stack_ToString s)
        /\ StackHeap.ToString fuel h' d = Returns (stack_ToString s)
        /\ repr h' es s
        /\ repr h' d (Duplicate s)
        /\ Top (Duplicate s) = Top s
        /\ (forall ops : list StackHeap.stackOp,
              exists h'',
                StackHeap.run_ops h' d ops = Returns h''
                /\ repr h'' d (foldl apply_op (Duplicate s) ops)
                /\ repr h'' es s
                /\ StackHeap.ToString fuel h'' es = Returns (stack_ToString s))
        /\ (forall ops : list StackHeap.stackOp,
              exists h'',
                StackHeap.run_ops h' es ops = Returns h''
                /\ repr h'' es (foldl apply_op s ops)
                /\ repr h'' d (Duplicate s)
                /\ StackHeap.ToString fuel h'' d = Returns (stack_ToString s)))
  /\ (let '(h0, es) := StackHeap.new_stack (StackHeap.mkStore ∅ ∅) in
      StackHeap.ToString 0 h0 es = Returns (runes "*")
      /\ exists h3,
           StackHeap.run_ops h0 es
             [StackHeap.OpPush test_br; StackHeap.OpPush (test_div "first");
              StackHeap.OpPush (test_div "second")] = Returns h3
           /\ StackHeap.ToString 3 h3 es = Returns (runes "br > div > div")).
Proof.
  split.
  - intros h es s fuel Hrepr Hfuel.
    destruct (heap_Duplicate h es s fuel Hrepr Hfuel) as (h' & d & Hdup & Hd & Hrd & Hkeep).
    assert (Hne : d <> es).
    { intros ->. destruct Hrepr as (? & ? & _). congruence. }
    pose proof (Hkeep es s Hrepr) as Hrs.
    assert (Hlen : length (Top (Duplicate s)) <= fuel) by (by rewrite Duplicate_Top).
    exists h', d. repeat split; try done.
    + by apply heap_ToString.
    + rewrite <- Duplicate_ToString. by apply heap_ToString.
    + apply Duplicate_Top.
    + intros ops.
      destruct (heap_run_ops ops h' d _ Hrd) as (h'' & Hrun & Hrd' & Hframe).
      exists h''. repeat split; try done.
      * by apply Hframe.
      * apply heap_ToString; [|done]. by apply Hframe.
    + intros ops.
      destruct (heap_run_ops ops h' es _ Hrs) as (h'' & Hrun & Hrs' & Hframe).
      exists h''. repeat split; try done.
      * by apply Hframe.
      * rewrite <- Duplicate_ToString. apply heap_ToString; [|done]. by apply Hframe.
  - vm_compute. split; [reflexivity|]. eexists. split; reflexivity.
Qed.

Lemma C8_Duplicate_is_independent_witness :
  let h0 := StackHeap.mkStore ∅ {[ 1%positive := StackHeap.mkStack None 0 ]} in
  repr h0 1%positive emptyStack
  /\ exists (h' : StackHeap.store) (d : positive),
       StackHeap.Duplicate 0 h0 1%positive = Returns (h', d)
       /\ d <> 1%positive
       /\ StackHeap.ToString 0 h0 1%positive = Returns (stack_ToString emptyStack)
       /\ StackHeap.ToString 0 h' d = Returns (stack_ToString emptyStack)
       /\ repr h' 1%positive emptyStack
       /\ repr h' d (Duplicate emptyStack)
       /\ Top (Duplicate emptyStack) = Top emptyStack
       /\ (forall ops : list StackHeap.stackOp,
             exists h'',
               StackHeap.run_ops h' d ops = Returns h''
               /\ repr h'' d (foldl apply_op (Duplicate emptyStack) ops)
               /\ repr h'' 1%positive emptyStack
               /\ StackHeap.ToString 0 h'' 1%positive
                  = Returns (stack_ToString emptyStack))
       /\ (forall ops : list StackHeap.stackOp,
             exists h'',
               StackHeap.run_ops h' 1%positive ops = Returns h''
               /\ repr h'' 1%positive (foldl apply_op emptyStack ops)
               /\ repr h'' d (Duplicate emptyStack)
               /\ StackHeap.ToString 0 h'' d = Returns (stack_ToString emptyStack)).
Proof.
  assert (Hrepr : repr (StackHeap.mkStore ∅ {[ 1%positive := StackHeap.mkStack None 0 ]})
                    1%positive emptyStack).
  { eexists. split; [reflexivity|]. split; [constructor|reflexivity]. }
  split; [exact Hrepr|].
  apply (proj1 C8_Duplicate_is_independent); [exact Hrepr | simpl; lia].
Defined.

(** * Further properties of the code *)

Transparent readUntilTag readTag readUntilScriptTagClose.

(** ** Induction on element trees *)

Lemma Element_tree_ind (P : Element -> Prop) :
  (forall e : Element, Forall P (Children e) -> P e) ->
  forall e : Element, P e.
Proof.
  intros Hstep. fix IH 1. intros e. apply Hstep.
  destruct e as [name inner attrs children t v c r cl d]. simpl.
  induction children as [|child children IHc]; constructor; [apply IH|exact IHc].
Qed.

(** ** Flatten and the queries built on it *)

Lemma Flatten_flat_map (e : Element) :
  Flatten e = flat_map (fun child => child :: Flatten child) (Children e).
Proof.
  destruct e as [name inner attrs children t v c r cl d]. simpl.
  induction children as [|child children IH]; [done|].
  simpl. by rewrite IH.
Qed.

Lemma Flatten_In_descendant (e c : Element) :
  In c (Flatten e) <-> descendant c e.
Proof.
  split.
  - revert c. induction e as [e IH] using Element_tree_ind. intros c.
    rewrite Flatten_flat_map, in_flat_map. intros (d & Hd & Hc).
    destruct Hc as [<-|Hc]; [by apply descendant_child|].
    apply descendant_deeper with d; [done|].
    rewrite Forall_forall in IH. apply IH; [|done]. by apply list_elem_of_In.
  - induction 1 as [c e Hc|c d e Hd _ IH];
      rewrite Flatten_flat_map, in_flat_map.
    + exists c. split; [done|]. by left.
    + exists d. split; [done|]. by right.
Qed.

Lemma Flatten_AddChild (e c : Element) :
  Flatten (AddChild e c) = Flatten e ++ c :: Flatten c.
Proof.
  rewrite (Flatten_flat_map (AddChild e c)), (Flatten_flat_map e).
  unfold AddChild. simpl. rewrite flat_map_app. simpl.
  by rewrite app_nil_r.
Qed.

(** X1. [Flatten] lists exactly the descendants of an element (never the
    element itself as such), and appending a child appends the child
    followed by the child's own flattening: the list is in document order. *)
Theorem Flatten_descendants_in_document_order :
  (forall e c : Element, In c (Flatten e) <-> descendant c e)
  /\ (forall e c : Element,
        Flatten (AddChild e c) = Flatten e ++ c :: Flatten c)
  /\ (forall e : Element, Children e = [] -> Flatten e = []).
Proof.
  split; [exact Flatten_In_descendant|]. split; [exact Flatten_AddChild|].
  intros e He. by rewrite Flatten_flat_map, He.
Qed.

(** X2. [GetElementById] returns the first descendant, in document order,
    whose [id] attribute equals the id asked for, where a missing attribute
    counts as the empty string; it returns nil exactly when no descendant
    qualifies.  So the empty id finds the first descendant whose [id]
    attribute is missing or is the empty string: every descendant before
    it has an [id] attribute that is not empty. *)
Theorem GetElementById_first_match (e : Element) (id : gostring) :
  (forall c : Element,
      GetElementById e id = Some c ->
      exists before after : list Element,
        Flatten e = before ++ c :: after
        /\ attr_value_of c (runes "id") = id
        /\ Forall (fun d => attr_value_of d (runes "id") <> id) before)
  /\ (GetElementById e id = None <->
      Forall (fun d => attr_value_of d (runes "id") <> id) (Flatten e))
  /\ (forall c : Element,
        GetElementById e [] = Some c ->
        exists before after : list Element,
          Flatten e = before ++ c :: after
          /\ (get_attr c (runes "id") = None \/ get_attr c (runes "id") = Some [])
          /\ Forall (fun d => exists v, get_attr d (runes "id") = Some v /\ v <> [])
                before)
  /\ (forall c : Element,
        descendant c e -> get_attr c (runes "id") = None ->
        GetElementById e [] <> None).
Proof.
  unfold GetElementById.
  assert (Hfound : forall l c,
    List.find (fun child => bool_decide (attr_value_of child (runes "id") = id)) l = Some c ->
    exists before after, l = before ++ c :: after
      /\ attr_value_of c (runes "id") = id
      /\ Forall (fun d => attr_value_of d (runes "id") <> id) before).
  { induction l as [|x l IH]; intros c; simpl; [done|].
    destruct (bool_decide (attr_value_of x (runes "id") = id)) eqn:Hx.
    - intros [= <-]. apply bool_decide_eq_true in Hx. by exists [], l.
    - intros Hc. destruct (IH c Hc) as (before & after & -> & Hid & Hall).
      exists (x :: before), after. repeat split; try done.
      constructor; [|done]. by apply bool_decide_eq_false in Hx. }
  assert (Hnone : forall (i : gostring) l,
    List.find (fun child => bool_decide (attr_value_of child (runes "id") = i)) l = None <->
    Forall (fun d => attr_value_of d (runes "id") <> i) l).
  { intros i. induction l as [|x l IH]; simpl; [done|].
    destruct (bool_decide (attr_value_of x (runes "id") = i)) eqn:Hx.
    - apply bool_decide_eq_true in Hx. split; [done|].
      intros Hall. by inversion Hall.
    - apply bool_decide_eq_false in Hx. rewrite IH. split.
      + by constructor.
      + intros Hall. by inversion Hall. }
  assert (Hempty : forall (i : gostring) l c,
    i = [] ->
    List.find (fun child => bool_decide (attr_value_of child (runes "id") = i)) l = Some c ->
    exists before after, l = before ++ c :: after
      /\ (get_attr c (runes "id") = None \/ get_attr c (runes "id") = Some [])
      /\ Forall (fun d => exists v, get_attr d (runes "id") = Some v /\ v <> []) before).
  { intros i l c ->. revert c.
    induction l as [|x l IH]; intros c; simpl; [done|].
    destruct (bool_decide (attr_value_of x (runes "id") = [])) eqn:Hx.
    - intros [= <-]. apply bool_decide_eq_true in Hx. exists [], l.
      split; [done|]. split; [|constructor].
      unfold attr_value_of in Hx.
      destruct (get_attr x (runes "id")) as [v|]; [right; by subst|by left].
    - intros Hc. destruct (IH c Hc) as (before & after & -> & Hid & Hall).
      exists (x :: before), after. split; [done|]. split; [done|].
      constructor; [|done]. apply bool_decide_eq_false in Hx.
      unfold attr_value_of in Hx.
      destruct (get_attr x (runes "id")) as [v|]; [by exists v|done]. }
  split; [apply Hfound|]. split; [|split].
  - unfold GetElementById. apply (Hnone id).
  - intros c Hc. exact (Hempty [] _ _ eq_refl Hc).
  - intros c Hdesc Hattr Hfind.
    apply (Hnone []) in Hfind.
    apply Flatten_In_descendant in Hdesc.
    rewrite Forall_forall in Hfind.
    apply (Hfind c); [by apply list_elem_of_In|].
    unfold attr_value_of. by rewrite Hattr.
Qed.

(** ** Classes *)

Lemma sliceContains_In (slice : list gostring) (value : gostring) :
  sliceContains slice value = true <-> In value slice.
Proof.
  induction slice as [|e rest IH]; simpl; [done|].
  destruct (bool_decide (e = value)) eqn:He.
  - apply bool_decide_eq_true in He. split; auto.
  - apply bool_decide_eq_false in He. rewrite IH. split; [auto|].
    intros [?|?]; [done|auto].
Qed.

Lemma is_rune_space (c : rune) : is_rune " " c = true <-> c = 32%Z.
Proof. unfold is_rune. rewrite Z.eqb_eq. done. Qed.

Lemma strings_Split_space_nonempty (s : gostring) : strings_Split_space s <> [].
Proof.
  induction s as [|c s IH]; simpl; [done|].
  destruct (is_rune " " c); [done|]. by destruct (strings_Split_space s).
Qed.

(** No piece that [strings.Split(s, " ")] returns holds a space. *)
Lemma strings_Split_space_pieces (s : gostring) :
  Forall (fun piece => ~ In 32%Z piece) (strings_Split_space s).
Proof.
  induction s as [|c s IH]; simpl.
  - constructor; [|constructor]. by intros [].
  - destruct (is_rune " " c) eqn:Hc.
    + constructor; [|done]. by intros [].
    + assert (Hne : c <> 32%Z).
      { intros ->. assert (is_rune " " 32%Z = true) by done. congruence. }
      destruct (strings_Split_space s) as [|piece pieces].
      * constructor; [|constructor]. intros [?|[]]. done.
      * inversion IH as [|? ? Hp Hps]; subst.
        constructor; [|done]. intros [?|Hin]; done.
Qed.

Lemma strings_Split_space_word (w s : gostring) :
  ~ In 32%Z w ->
  strings_Split_space (w ++ 32%Z :: s) = w :: strings_Split_space s.
Proof.
  induction w as [|c w IH]; intros Hw; simpl; [done|].
  destruct (is_rune " " c) eqn:Hc.
  - apply is_rune_space in Hc. subst. destruct Hw. by left.
  - rewrite IH; [done|]. intros Hin. apply Hw. by right.
Qed.

Lemma strings_Split_space_single (w : gostring) :
  ~ In 32%Z w -> strings_Split_space w = [w].
Proof.
  induction w as [|c w IH]; intros Hw; simpl; [done|].
  destruct (is_rune " " c) eqn:Hc.
  - apply is_rune_space in Hc. subst. destruct Hw. by left.
  - rewrite IH; [done|]. intros Hin. apply Hw. by right.
Qed.

(** [strings.Split] undoes [strings.Join] on words without spaces. *)
Lemma strings_Split_space_Join (words : list gostring) :
  words <> [] ->
  Forall (fun w => ~ In 32%Z w) words ->
  strings_Split_space (strings_Join words [32%Z]) = words.
Proof.
  induction words as [|w words IH]; intros Hne Hall; [done|].
  inversion Hall as [|? ? Hw Hws]; subst.
  destruct words as [|w' words]; simpl.
  - by apply strings_Split_space_single.
  - rewrite strings_Split_space_word by done. f_equal. by apply IH.
Qed.

Section Classes.

Variable lower : rune -> rune.

Lemma ToLower_Join (words : list gostring) :
  lower 32%Z = 32%Z ->
  ToLower lower (strings_Join words [32%Z])
  = strings_Join (List.map (ToLower lower) words) [32%Z].
Proof.
  intros Hsp. induction words as [|w words IH]; [done|].
  destruct words as [|w' words]; [done|].
  change (strings_Join (w :: w' :: words) [32%Z])
    with (w ++ [32%Z] ++ strings_Join (w' :: words) [32%Z]).
  unfold ToLower in *. rewrite !map_app, IH. simpl. by rewrite Hsp.
Qed.

(** X3. An element whose [class] attribute is a list of words separated by
    single spaces has the class [className] exactly when [className] is one
    of the words, letter case ignored.  ([unicode_ToLower] must map the
    space, and only the space, to the space.) *)
Theorem HasClass_words (e : Element) (words : list gostring) (className : gostring) :
  lower 32%Z = 32%Z ->
  (forall c, lower c = 32%Z -> c = 32%Z) ->
  words <> [] ->
  Forall (fun w => ~ In 32%Z w) words ->
  get_attr e (runes "class") = Some (strings_Join words (runes " ")) ->
  HasClass lower e className = true
  <-> In (ToLower lower className) (List.map (ToLower lower) words).
Proof.
  intros Hsp Honly Hne Hall Hattr. unfold HasClass. rewrite Hattr.
  change (runes " ") with [32%Z]. rewrite sliceContains_In, ToLower_Join by done.
  rewrite strings_Split_space_Join; [done| |].
  - by destruct words.
  - apply Forall_forall. intros w' Hw'. apply list_elem_of_In, in_map_iff in Hw'.
    destruct Hw' as (w & <- & Hw). rewrite Forall_forall in Hall.
    intros Hin. apply in_map_iff in Hin as (c & Hc & Hcw).
    apply Honly in Hc. subst. apply (Hall w); [by apply list_elem_of_In|done].
Qed.

(** X4. Edge cases of [HasClass]: an element without a [class] attribute
    has no class, not even the empty one; no element has a class whose
    lower-cased name holds a space; an element has the empty class exactly
    when its lower-cased [class] attribute is empty, starts or ends with a
    space, or holds two spaces in a row (that is, when splitting it at
    spaces yields an empty piece). *)
Theorem HasClass_edge_cases (e : Element) :
  (get_attr e (runes "class") = None ->
   forall className, HasClass lower e className = false)
  /\ (forall className,
        In 32%Z (ToLower lower className) -> HasClass lower e className = false)
  /\ (forall v,
        get_attr e (runes "class") = Some v ->
        (HasClass lower e [] = true
         <-> In [] (strings_Split_space (ToLower lower v))))
  /\ (get_attr e (runes "class") = Some [] -> HasClass lower e [] = true).
Proof.
  unfold HasClass. split; [|split; [|split]].
  - intros Hattr className. by rewrite Hattr.
  - intros className Hsp. destruct (get_attr e (runes "class")) as [v|]; [|done].
    apply not_true_is_false. rewrite sliceContains_In. intros Hin.
    pose proof (strings_Split_space_pieces (ToLower lower v)) as Hp.
    rewrite Forall_forall in Hp. apply (Hp _ (proj2 (list_elem_of_In _ _) Hin)). done.
  - intros v Hattr. rewrite Hattr. apply sliceContains_In.
  - intros Hattr. by rewrite Hattr.
Qed.

(** X5. When [unicode_ToLower] is idempotent, [GetElementsByClassName]
    returns exactly the descendants for which [HasClass] holds, in document
    order, and the letter case of the class name asked for does not
    matter. *)
Theorem GetElementsByClassName_filter (e : Element) (className : gostring) :
  (forall c, lower (lower c) = lower c) ->
  GetElementsByClassName lower e className
  = List.filter (fun child => HasClass lower child className) (Flatten e)
  /\ GetElementsByClassName lower e (ToLower lower className)
     = GetElementsByClassName lower e className.
Proof.
  intros Hidem.
  assert (Hlow : forall s, ToLower lower (ToLower lower s) = ToLower lower s).
  { intros s. unfold ToLower. rewrite map_map. apply map_ext. intros c. apply Hidem. }
  unfold GetElementsByClassName. split.
  - apply filter_ext. intros child. unfold HasClass. by rewrite Hlow.
  - by rewrite Hlow.
Qed.

End Classes.

Lemma HasClass_words_witness :
  let e := mkElement (runes "div") [] (Some {[ runes "class" := runes "Btn Btn-Primary" ]})
                     [] false false false false false false in
  HasClass asciiToLower e (runes "BTN") = true
  <-> In (ToLower asciiToLower (runes "BTN"))
         (List.map (ToLower asciiToLower) [runes "Btn"; runes "Btn-Primary"]).
Proof.
  apply (HasClass_words asciiToLower).
  - reflexivity.
  - intros c. unfold asciiToLower.
    destruct ((65 <=? c)%Z && (c <=? 90)%Z) eqn:Hc; [|done]. lia.
  - discriminate.
  - repeat constructor; vm_compute; intuition discriminate.
  - vm_compute. reflexivity.
Defined.

Lemma asciiToLower_idempotent (c : rune) :
  asciiToLower (asciiToLower c) = asciiToLower c.
Proof.
  unfold asciiToLower.
  destruct ((65 <=? c)%Z && (c <=? 90)%Z) eqn:Hc; [|by rewrite Hc].
  destruct ((65 <=? c + 32)%Z && (c + 32 <=? 90)%Z) eqn:Hc'; [lia|done].
Qed.

Lemma GetElementsByClassName_filter_witness :
  let e := AddChild rootElement
             (mkElement (runes "p") [] (Some {[ runes "class" := runes "a b" ]})
                        [] false false false false false false) in
  GetElementsByClassName asciiToLower e (runes "B")
  = List.filter (fun child => HasClass asciiToLower child (runes "B")) (Flatten e)
  /\ GetElementsByClassName asciiToLower e (ToLower asciiToLower (runes "B"))
     = GetElementsByClassName asciiToLower e (runes "B").
Proof.
  apply GetElementsByClassName_filter. exact asciiToLower_idempotent.
Defined.

(** ** EqualTo *)

Lemma EqualTo_fields (e e2 : Element) :
  EqualTo e e2 = true <->
  ElementName e = ElementName e2 /\ IsVoid e = IsVoid e2 /\ IsClose e = IsClose e2
  /\ InnerHTML e = InnerHTML e2 /\ Attributes e = Attributes e2
  /\ Forall2 (fun a b => EqualTo a b = true) (Children e) (Children e2).
Proof.
  destruct e as [n i a ch t v c r cl d], e2 as [n2 i2 a2 ch2 t2 v2 c2 r2 cl2 d2].
  simpl. rewrite !andb_true_iff, !bool_decide_eq_true, !Bool.eqb_true_iff, !Nat.eqb_eq.
  assert (Hch : length ch = length ch2 ->
            ((fix children_equal (l l2 : list Element) : bool :=
                match l, l2 with
                | childA :: rest, childB :: rest2 =>
                    EqualTo childA childB && children_equal rest rest2
                | _, _ => true
                end) ch ch2 = true
             <-> Forall2 (fun a b => EqualTo a b = true) ch ch2)).
  { revert ch2. induction ch as [|x ch IH]; intros [|y ch2] Hlen;
      simpl in Hlen; try lia.
    - split; [constructor|done].
    - rewrite andb_true_iff, IH by lia. split.
      + intros [? ?]. by constructor.
      + intros H. by inversion H. }
  split.
  - intros (((((((? & ?) & ?) & ?) & Hlen) & ?) & ?) & ?).
    repeat split; try done. by apply Hch.
  - intros (-> & -> & -> & -> & -> & HF).
    pose proof (Forall2_length _ _ _ HF) as Hlen.
    repeat split; try done. by apply Hch.
Qed.

Lemma EqualTo_compared_part (e : Element) :
  forall e2 : Element, EqualTo e e2 = true <-> compared_part e = compared_part e2.
Proof.
  induction e as [e IH] using Element_tree_ind. intros e2.
  rewrite EqualTo_fields.
  destruct e as [n i a ch t v c r cl d], e2 as [n2 i2 a2 ch2 t2 v2 c2 r2 cl2 d2].
  simpl in *.
  assert (Hch : Forall2 (fun a b => EqualTo a b = true) ch ch2
                <-> List.map compared_part ch = List.map compared_part ch2).
  { revert ch2. induction ch as [|x ch IHch]; intros [|y ch2].
    - split; [done|constructor].
    - split; [intros H; inversion H|done].
    - split; [intros H; inversion H|done].
    - inversion IH as [|? ? Hx Hrest]; subst. simpl. split.
      + intros H. inversion H; subst. f_equal; [by apply Hx|by apply IHch].
      + intros [= Hxy Hr]. constructor; [by apply Hx|by apply IHch]. }
  rewrite Hch. split.
  - intros (-> & -> & -> & -> & -> & ->). done.
  - intros [= -> -> -> Hc -> ->]. done.
Qed.

(** X6. [EqualTo] holds exactly when the two trees agree, node by node, on
    name, [IsVoid], [IsClose], [InnerHTML], attributes (a nil map is not an
    empty map) and on the number and order of the children; the flags
    [IsText], [IsComment], [IsRoot] and [IsData] are not compared.  It is
    therefore reflexive, symmetric and transitive. *)
Theorem EqualTo_is_equality_of_the_compared_part :
  (forall e e2 : Element,
      EqualTo e e2 = true <-> compared_part e = compared_part e2)
  /\ (forall e e2 : Element, EqualTo e e2 = EqualTo e2 e)
  /\ (forall e e2 e3 : Element,
        EqualTo e e2 = true -> EqualTo e2 e3 = true -> EqualTo e e3 = true).
Proof.
  split; [intros e e2; apply EqualTo_compared_part|]. split.
  - intros e e2. apply eq_true_iff_eq.
    rewrite !EqualTo_compared_part. split; congruence.
  - intros e e2 e3. rewrite !EqualTo_compared_part. congruence.
Qed.

(** ** trim, readWhitespace, readUntilTag *)

Lemma trim_left_skip (text : list rune) (k : nat) :
  forall (fuel left : nat),
    k <= fuel ->
    (forall i, left <= i < left + k ->
               exists c, text !! i = Some c /\ isWhitespace c = true) ->
    trim_left fuel text left = trim_left (fuel - k) text (left + k).
Proof.
  induction k as [|k IH]; intros fuel left Hfuel Hws.
  - by rewrite Nat.sub_0_r, Nat.add_0_r.
  - destruct fuel as [|fuel]; [lia|]. simpl.
    destruct (Hws left ltac:(lia)) as (c & -> & ->). simpl.
    rewrite IH; [f_equal; lia | lia |].
    intros i Hi. apply Hws. lia.
Qed.

Lemma trim_right_skip (text : list rune) (k : nat) :
  forall j : nat,
    (forall i, j < i <= j + k ->
               exists c, text !! i = Some c /\ isWhitespace c = true) ->
    trim_right text (j + k) = trim_right text j.
Proof.
  induction k as [|k IH]; intros j Hws.
  - by rewrite Nat.add_0_r.
  - replace (j + S k) with (S (j + k)) by lia. simpl.
    destruct (Hws (S (j + k)) ltac:(lia)) as (c & -> & ->). simpl.
    apply IH. intros i Hi. apply Hws. lia.
Qed.

Lemma isContinuousWhitespace_lookup (ws : list rune) (i : nat) :
  isContinuousWhitespace ws = true -> i < length ws ->
  exists c, ws !! i = Some c /\ isWhitespace c = true.
Proof.
  unfold isContinuousWhitespace. rewrite forallb_forall. intros Hall Hi.
  destruct (lookup_lt_is_Some_2 ws i Hi) as [c Hc].
  exists c. split; [done|]. apply Hall.
  apply list_elem_of_In, list_elem_of_lookup. eauto.
Qed.

(** X7. [trim] returns the text without its leading and trailing
    whitespace when the text holds a character that is not whitespace, and
    the empty text for an empty text or a single whitespace character; on a
    text of two or more characters that are all whitespace the slice
    expression [text[left : right+1]] is out of range and [trim] panics. *)
Theorem trim_cases :
  (forall (ws1 core ws2 : list rune) (first final : rune),
      isContinuousWhitespace ws1 = true ->
      isContinuousWhitespace ws2 = true ->
      head core = Some first -> isWhitespace first = false ->
      last core = Some final -> isWhitespace final = false ->
      trim (ws1 ++ core ++ ws2) = Returns core)
  /\ (forall text : list rune,
        isContinuousWhitespace text = true -> length text <= 1 ->
        trim text = Returns [])
  /\ (forall text : list rune,
        isContinuousWhitespace text = true -> 2 <= length text ->
        trim text = Panic).
Proof.
  split; [|split].
  - intros ws1 core ws2 first final Hws1 Hws2 Hfirst Hnws1 Hlast Hnws2.
    destruct core as [|c0 core]; [done|]. injection Hfirst as ->.
    set (text := ws1 ++ (first :: core) ++ ws2).
    assert (Hlen : length text = length ws1 + S (length core) + length ws2).
    { unfold text. rewrite !length_app. simpl. lia. }
    unfold trim. destruct (decide (length text = 0)); [lia|].
    assert (Hleft : trim_left (length text) text 0 = length ws1).
    { rewrite (trim_left_skip text (length ws1)); [|lia|].
      - simpl. destruct (length text - length ws1) as [|f] eqn:Hf; [lia|]. simpl.
        unfold text. rewrite lookup_app_r by lia.
        rewrite Nat.sub_diag. simpl. by rewrite Hnws1.
      - intros i Hi. unfold text. rewrite lookup_app_l by lia.
        apply isContinuousWhitespace_lookup; [done|lia]. }
    assert (Hright : trim_right text (length text - 1) = length ws1 + length core).
    { replace (length text - 1) with (length ws1 + length core + length ws2) by lia.
      rewrite trim_right_skip.
      - assert (Hl : text !! (length ws1 + length core) = Some final).
        { unfold text. rewrite lookup_app_r by lia.
          rewrite lookup_app_l by (simpl; lia).
          replace (length ws1 + length core - length ws1) with (length core) by lia.
          by rewrite <- Hlast, last_lookup. }
        destruct (length ws1 + length core) as [|j] eqn:Hj; [done|].
        simpl. by rewrite Hl, Hnws2.
      - intros i Hi. unfold text. rewrite lookup_app_r by lia.
        rewrite lookup_app_r by (simpl; lia).
        apply isContinuousWhitespace_lookup; [done|]. simpl. lia. }
    rewrite Hleft, Hright.
    destruct (decide (length ws1 <= length ws1 + length core + 1 <= length text)); [|lia].
    f_equal. unfold slice, text. rewrite drop_app_length.
    replace (length ws1 + length core + 1 - length ws1) with (length (first :: core))
      by (simpl; lia).
    by rewrite take_app_length.
  - intros text Hws Hlen. unfold trim.
    destruct (decide (length text = 0)) as [Hz|Hz].
    { by destruct text. }
    destruct text as [|c [|c' text]]; simpl in *; try lia.
    apply andb_prop in Hws as [Hc _]. rewrite Hc. simpl.
    destruct (decide (1 <= 0 + 1 <= 1)); [done|lia].
  - intros text Hws Hlen. unfold trim.
    destruct (decide (length text = 0)); [lia|].
    assert (Hleft : trim_left (length text) text 0 = length text).
    { rewrite (trim_left_skip text (length text)); [|lia|].
      - rewrite Nat.sub_diag. done.
      - intros i Hi. apply isContinuousWhitespace_lookup; [done|lia]. }
    assert (Hright : trim_right text (length text - 1) = 0).
    { pose proof (trim_right_skip text (length text - 1) 0) as Hskip.
      rewrite Nat.add_0_l in Hskip. rewrite Hskip; [done|].
      intros i Hi. apply isContinuousWhitespace_lookup; [done|lia]. }
    rewrite Hleft, Hright.
    destruct (decide (length text <= 0 + 1 <= length text)); [lia|done].
Qed.

Lemma trim_cases_witness :
  trim (runes "  a b ") = Returns (runes "a b")
  /\ trim (runes "  ") = Panic.
Proof.
  split.
  - apply (proj1 trim_cases (runes "  ") (runes "a b") (runes " ")
             (rune_of_ascii "a") (rune_of_ascii "b")); reflexivity.
  - apply (proj2 (proj2 trim_cases)); [reflexivity|simpl; lia].
Defined.

Lemma readUntilTag_loop_skipped (fuel : nat) (text : list rune) :
  forall (cursor i : nat) (c : rune),
    cursor <= i < readUntilTag_loop fuel text cursor ->
    text !! i = Some c -> is_rune "<" c = false.
Proof.
  induction fuel as [|fuel IH]; intros cursor i c Hi Hc; simpl in Hi; [lia|].
  destruct (text !! cursor) as [c0|] eqn:Hc0; [|lia].
  destruct (negb (isWhitespace c0) && is_rune "<" c0) eqn:Hstop; [lia|].
  destruct (decide (i = cursor)) as [->|Hne].
  - rewrite Hc in Hc0. injection Hc0 as ->.
    destruct (is_rune "<" c0) eqn:Hlt; [|done].
    unfold is_rune in Hlt. apply Z.eqb_eq in Hlt. subst. done.
  - apply (IH (cursor + 1) i c); [lia|done].
Qed.

Lemma readWhitespace_loop_bounds (fuel : nat) (text : list rune) (cursor : nat) :
  cursor <= length text ->
  cursor <= readWhitespace_loop fuel text cursor <= length text.
Proof.
  revert cursor. induction fuel as [|fuel IH]; intros cursor Hle; simpl; [lia|].
  destruct (text !! cursor) as [c|] eqn:Hc; [|lia].
  apply lookup_lt_length in Hc.
  destruct (negb (isWhitespace c)); [lia|].
  specialize (IH (cursor + 1)). lia.
Qed.

Lemma readWhitespace_loop_skipped (fuel : nat) (text : list rune) :
  forall (cursor i : nat) (c : rune),
    cursor <= i < readWhitespace_loop fuel text cursor ->
    text !! i = Some c -> isWhitespace c = true.
Proof.
  induction fuel as [|fuel IH]; intros cursor i c Hi Hc; simpl in Hi; [lia|].
  destruct (text !! cursor) as [c0|] eqn:Hc0; [|lia].
  destruct (isWhitespace c0) eqn:Hws; simpl in Hi; [|lia].
  destruct (decide (i = cursor)) as [->|Hne].
  - congruence.
  - apply (IH (cursor + 1) i c); [lia|done].
Qed.

Lemma readWhitespace_loop_stops (fuel : nat) (text : list rune) (cursor : nat) :
  length text - cursor <= fuel ->
  forall c, text !! readWhitespace_loop fuel text cursor = Some c ->
            isWhitespace c = false.
Proof.
  revert cursor. induction fuel as [|fuel IH]; intros cursor Hfuel c; simpl.
  - intros Hc. apply lookup_lt_length in Hc. lia.
  - destruct (text !! cursor) as [c0|] eqn:Hc0.
    + destruct (isWhitespace c0) eqn:Hws; simpl.
      * apply IH. lia.
      * congruence.
    + congruence.
Qed.

Lemma slice_split (text : list rune) (lo hi : nat) :
  lo <= hi <= length text ->
  length (slice text lo hi) = hi - lo
  /\ drop lo text = slice text lo hi ++ drop hi text.
Proof.
  intros Hb. unfold slice. split.
  - rewrite length_take, length_drop. lia.
  - rewrite <- (take_drop (hi - lo) (drop lo text)) at 1.
    rewrite drop_drop. do 2 f_equal. lia.
Qed.

Lemma slice_Forall (P : rune -> Prop) (text : list rune) (lo hi : nat) :
  (forall i c, lo <= i < hi -> text !! i = Some c -> P c) ->
  Forall P (slice text lo hi).
Proof.
  intros H. apply Forall_lookup. intros i c Hi. unfold slice in Hi.
  apply lookup_take_Some in Hi as [Hi Hlt]. rewrite lookup_drop in Hi.
  apply (H (lo + i)); [lia|done].
Qed.

(** X8. [readUntilTag] splits what is left of the text at the first ["<"]:
    the span it returns holds no ["<"], the cursor moves by the length of
    the span, and it then stands on a ["<"] or at the end of the text.
    Whitespace never stops it. *)
Theorem readUntilTag_splits_at_first_tag (text : list rune) (cursor : nat) :
  cursor <= length text ->
  exists span : list rune,
    readUntilTag text cursor = (span, cursor + length span)
    /\ drop cursor text = span ++ drop (cursor + length span) text
    /\ Forall (fun c => is_rune "<" c = false) span
    /\ (head (drop (cursor + length span) text) = None
        \/ head (drop (cursor + length span) text) = Some (rune_of_ascii "<")).
Proof.
  intros Hle. unfold readUntilTag.
  set (cursor' := readUntilTag_loop (length text - cursor) text cursor).
  pose proof (readUntilTag_loop_bounds (length text - cursor) text cursor Hle) as Hb.
  fold cursor' in Hb.
  destruct (slice_split text cursor cursor' Hb) as [Hlen Hsplit].
  exists (slice text cursor cursor').
  replace (cursor + length (slice text cursor cursor')) with cursor' by lia.
  repeat split; try done.
  - apply slice_Forall. intros i c Hi Hc.
    by apply (readUntilTag_loop_skipped (length text - cursor) text cursor i c).
  - destruct (decide (cursor' < length text)) as [Hlt|Hge].
    + right. rewrite head_lookup, lookup_drop, Nat.add_0_r.
      by apply (readUntilTag_loop_stops (length text - cursor) text cursor).
    + left. rewrite drop_ge by lia. done.
Qed.

Lemma readUntilTag_splits_at_first_tag_witness :
  exists span : list rune,
    readUntilTag (runes "a <b") 0 = (span, 0 + length span)
    /\ drop 0 (runes "a <b") = span ++ drop (0 + length span) (runes "a <b")
    /\ Forall (fun c => is_rune "<" c = false) span
    /\ (head (drop (0 + length span) (runes "a <b")) = None
        \/ head (drop (0 + length span) (runes "a <b")) = Some (rune_of_ascii "<")).
Proof. apply readUntilTag_splits_at_first_tag. simpl. lia. Defined.

(** X9. [readWhitespace] returns the longest run of whitespace that starts
    at the cursor: the span is all whitespace, the cursor moves by its
    length, and what follows is the end of the text or a character that is
    not whitespace. *)
Theorem readWhitespace_longest_run (text : list rune) (cursor : nat) :
  cursor <= length text ->
  exists span : list rune,
    readWhitespace text cursor = (span, cursor + length span)
    /\ drop cursor text = span ++ drop (cursor + length span) text
    /\ isContinuousWhitespace span = true
    /\ (forall c, head (drop (cursor + length span) text) = Some c ->
                  isWhitespace c = false).
Proof.
  intros Hle. unfold readWhitespace.
  set (cursor' := readWhitespace_loop (length text - cursor) text cursor).
  pose proof (readWhitespace_loop_bounds (length text - cursor) text cursor Hle) as Hb.
  fold cursor' in Hb.
  destruct (slice_split text cursor cursor' Hb) as [Hlen Hsplit].
  exists (slice text cursor cursor').
  replace (cursor + length (slice text cursor cursor')) with cursor' by lia.
  repeat split; try done.
  - unfold isContinuousWhitespace. apply forallb_forall. intros c Hc.
    pose proof (slice_Forall (fun c => isWhitespace c = true) text cursor cursor') as HF.
    rewrite Forall_forall in HF. apply HF; [|by apply list_elem_of_In].
    intros i c0 Hi Hc0.
    by apply (readWhitespace_loop_skipped (length text - cursor) text cursor i c0).
  - intros c. rewrite head_lookup, lookup_drop, Nat.add_0_r.
    by apply readWhitespace_loop_stops.
Qed.

Lemma readWhitespace_longest_run_witness :
  exists span : list rune,
    readWhitespace (runes "  x ") 0 = (span, 0 + length span)
    /\ drop 0 (runes "  x ") = span ++ drop (0 + length span) (runes "  x ")
    /\ isContinuousWhitespace span = true
    /\ (forall c, head (drop (0 + length span) (runes "  x ")) = Some c ->
                  isWhitespace c = false).
Proof. apply readWhitespace_longest_run. simpl. lia. Defined.

(** ** Runs of the tokenizer *)

Section Runs.

Variable lower : rune -> rune.

Lemma readTag_loop_more_fuel (text : list rune) (fuel : nat) :
  forall (fuel' : nat) (m : tagMachine) (cursor : nat) r,
    fuel <= fuel' ->
    readTag_loop lower fuel text m cursor = Some r ->
    readTag_loop lower fuel' text m cursor = Some r.
Proof.
  induction fuel as [|fuel IH]; intros fuel' m cursor r Hle; simpl.
  - destruct fuel'; simpl; destruct (text !! cursor); done.
  - destruct fuel' as [|fuel']; [lia|]. simpl.
    destruct (text !! cursor) as [c|]; [|done].
    destruct (readTag_step lower m c); [apply IH; lia|apply IH; lia|done].
Qed.

Lemma runs_readTag (text : list rune) (cursor : nat) r :
  runs lower text readTag_init cursor r -> readTag lower text cursor = Some r.
Proof.
  intros [fuel Hrun]. unfold readTag.
  destruct (decide (cursor <= length text)) as [Hle|Hgt].
  - destruct (readTag_total lower text cursor Hle) as (e & err & c' & Hr & _).
    unfold readTag in Hr. rewrite Hr.
    assert (H1 : readTag_fuel text cursor <= fuel + readTag_fuel text cursor) by lia.
    assert (H2 : fuel <= fuel + readTag_fuel text cursor) by lia.
    apply (readTag_loop_more_fuel text _ _ _ _ _ H1) in Hr.
    apply (readTag_loop_more_fuel text _ _ _ _ _ H2) in Hrun.
    congruence.
  - assert (Hnone : text !! cursor = None) by (apply lookup_ge_None; lia).
    unfold readTag_fuel. replace (length text - cursor) with 0 by lia. simpl.
    destruct fuel; simpl in Hrun; rewrite Hnone in Hrun |- *; done.
Qed.

Lemma runs_Next (text : list rune) (m m' : tagMachine) (cursor : nat) (c : rune)
    (rest : list rune) r :
  drop cursor text = c :: rest ->
  readTag_step lower m c = Next m' ->
  runs lower text m' (cursor + 1) r -> runs lower text m cursor r.
Proof.
  intros Hdrop Hstep [fuel Hrun]. exists (S fuel). simpl.
  assert (Hc : text !! cursor = Some c).
  { rewrite <- (Nat.add_0_r cursor), <- lookup_drop, Hdrop. done. }
  by rewrite Hc, Hstep.
Qed.

Lemma runs_Back (text : list rune) (m m' : tagMachine) (cursor : nat) (c : rune)
    (rest : list rune) r :
  1 <= cursor ->
  drop cursor text = c :: rest ->
  readTag_step lower m c = Back m' ->
  runs lower text m' cursor r -> runs lower text m cursor r.
Proof.
  intros Hpos Hdrop Hstep [fuel Hrun]. exists (S fuel). simpl.
  assert (Hc : text !! cursor = Some c).
  { rewrite <- (Nat.add_0_r cursor), <- lookup_drop, Hdrop. done. }
  rewrite Hc, Hstep. by replace (cursor - 1 + 1) with cursor by lia.
Qed.

Lemma runs_Return (text : list rune) (m : tagMachine) (cursor : nat) (c : rune)
    (rest : list rune) (e : Element) (err : option error) :
  drop cursor text = c :: rest ->
  readTag_step lower m c = Return e err ->
  runs lower text m cursor (e, err, cursor + 1).
Proof.
  intros Hdrop Hstep. exists 1. simpl.
  assert (Hc : text !! cursor = Some c).
  { rewrite <- (Nat.add_0_r cursor), <- lookup_drop, Hdrop. done. }
  by rewrite Hc, Hstep.
Qed.

Lemma runs_end (text : list rune) (m : tagMachine) (cursor : nat) :
  drop cursor text = [] ->
  runs lower text m cursor (name_void_elem lower m, None, cursor).
Proof.
  intros Hdrop. exists 0. simpl.
  assert (Hc : text !! cursor = None).
  { rewrite <- (Nat.add_0_r cursor), <- lookup_drop, Hdrop. done. }
  by rewrite Hc.
Qed.

Lemma drop_tail (text : list rune) (cursor : nat) (c : rune) (rest : list rune) :
  drop cursor text = c :: rest -> drop (cursor + 1) text = rest.
Proof.
  intros H. by rewrite <- drop_drop, H.
Qed.

(** State 10 appends a run of name characters to the tag name. *)
Lemma runs_name (text : list rune) (xs : list rune) :
  forall (m : tagMachine) (cursor : nat) (after : list rune) r,
    state m = T10 ->
    forallb name_char xs = true ->
    drop cursor text = xs ++ after ->
    runs lower text (with_element_name m (element_name m ++ xs)) (cursor + length xs) r ->
    runs lower text m cursor r.
Proof.
  induction xs as [|c xs IH]; intros m cursor after r Hs Hxs Hdrop Hrun.
  - simpl in Hrun. rewrite Nat.add_0_r, app_nil_r in Hrun.
    destruct m. simpl in *. exact Hrun.
  - simpl in Hxs. apply andb_prop in Hxs as [Hc Hxs].
    unfold name_char in Hc.
    repeat (apply andb_prop in Hc as [Hc ?]).
    repeat match goal with H : negb _ = true |- _ => apply negb_true_iff in H end.
    eapply runs_Next; [exact Hdrop| |].
    + unfold readTag_step. rewrite Hs.
      repeat match goal with H : _ = false |- _ => rewrite H end. reflexivity.
    + apply (IH _ _ after); [done|done|by eapply drop_tail|].
      simpl. rewrite <- app_assoc. simpl.
      replace (cursor + 1 + length xs) with (cursor + S (length xs)) by lia.
      exact Hrun.
Qed.

End Runs.

(** ** Tags without attributes *)

Ltac rune_cases :=
  match goal with
  | |- _ ?c = false =>
      repeat match goal with
             | H : ?T |- _ =>
                 lazymatch T with
                 | context [c] => fail
                 | _ => clear H
                 end
             end
  end;
  unfold name_start, name_char, attr_char, isWhitespace, is_rune,
    quote_single, rune_of_ascii in *;
  simpl in *;
  repeat match goal with
         | H : context [Z.eqb ?a ?b] |- _ => destruct (Z.eqb_spec a b)
         | |- context [Z.eqb ?a ?b] => destruct (Z.eqb_spec a b)
         end;
  simpl in *; try congruence; try lia.

Section SimpleTags.

Variable lower : rune -> rune.

Lemma runs_Return_eq (text : list rune) (m : tagMachine) (cursor : nat) (c : rune)
    (rest : list rune) (e : Element) (err : option error) r :
  drop cursor text = c :: rest ->
  readTag_step lower m c = Return e err ->
  r = (e, err, cursor + 1) ->
  runs lower text m cursor r.
Proof. intros Hdrop Hstep ->. by eapply runs_Return. Qed.

Lemma runs_end_eq (text : list rune) (m : tagMachine) (cursor : nat) r :
  drop cursor text = [] ->
  r = (name_void_elem lower m, None, cursor) ->
  runs lower text m cursor r.
Proof. intros Hdrop ->. by apply runs_end. Qed.

Lemma drop_run (text : list rune) (cursor : nat) (xs after : list rune) :
  drop cursor text = xs ++ after -> drop (cursor + length xs) text = after.
Proof. intros H. by rewrite <- drop_drop, H, drop_app_length. Qed.

(** State 1 skips whitespace and notes a [/]. *)
Lemma runs_preamble (text : list rune) (pre : list rune) :
  forall (m : tagMachine) (cursor : nat) (after : list rune) r,
    state m = T1 ->
    forallb (fun c => isWhitespace c || is_rune "/" c) pre = true ->
    drop cursor text = pre ++ after ->
    runs lower text
      (with_elem m (set_IsClose (elem m)
                      (IsClose (elem m) || existsb (is_rune "/") pre)))
      (cursor + length pre) r ->
    runs lower text m cursor r.
Proof.
  induction pre as [|c pre IH]; intros m cursor after r Hs Hpre Hdrop Hrun.
  - simpl in Hrun. rewrite Nat.add_0_r, orb_false_r in Hrun.
    destruct m as [s e an av en q]. destruct e. exact Hrun.
  - simpl in Hpre. apply andb_prop in Hpre as [Hc Hpre].
    assert (Hdrop' : drop (cursor + 1) text = pre ++ after)
      by (by eapply drop_tail).
    replace (cursor + length (c :: pre)) with (cursor + 1 + length pre) in Hrun
      by (simpl; lia).
    destruct (is_rune "/" c) eqn:Hslash.
    + eapply runs_Next; [exact Hdrop| |].
      * unfold readTag_step. rewrite Hs.
        assert (is_rune "!" c = false) as -> by rune_cases.
        rewrite Hslash. reflexivity.
      * apply (IH _ _ after); [exact Hs|exact Hpre|exact Hdrop'|].
        simpl in Hrun |- *. rewrite Hslash in Hrun.
        rewrite orb_true_r in Hrun. exact Hrun.
    + rewrite orb_false_r in Hc.
      eapply runs_Next; [exact Hdrop| |].
      * unfold readTag_step. rewrite Hs.
        assert (is_rune "!" c = false) as -> by rune_cases.
        rewrite Hslash.
        assert (is_rune ">" c = false) as -> by rune_cases.
        rewrite Hc. reflexivity.
      * apply (IH _ _ after); [exact Hs|exact Hpre|exact Hdrop'|].
        simpl in Hrun. rewrite Hslash in Hrun. exact Hrun.
Qed.

Lemma isKnownVoidElement_nil : isKnownVoidElement lower [] = false.
Proof. reflexivity. Qed.

Opaque isKnownVoidElement.

(** X10.  [readTag] at the [<] of a tag without attributes: between [<]
    and the name there may be whitespace and slashes, the name starts with
    a character other than [!], [/], [>] and whitespace and goes on with
    characters other than whitespace, [-], [>] and [/], and [>] follows.
    The record has the lowercased name, the empty attribute map and nothing
    else; it is a close tag iff a slash stood before the name, and void iff
    the name is a known void element; the cursor is just past the [>]. *)
Theorem readTag_tag_without_attributes (before pre : list rune) (c0 : rune)
    (name rest : list rune) :
  forallb (fun c => isWhitespace c || is_rune "/" c) pre = true ->
  name_start c0 = true ->
  forallb name_char name = true ->
  readTag lower
    (before ++ runes "<" ++ pre ++ c0 :: name ++ runes ">" ++ rest)
    (length before)
  = Some (plain_tag (ToLower lower (c0 :: name))
            (isKnownVoidElement lower (ToLower lower (c0 :: name)))
            (existsb (is_rune "/") pre),
          None,
          length before + 1 + length pre + 1 + length name + 1).
Proof.
  intros Hpre Hc0 Hname.
  set (text := before ++ _).
  assert (Hdrop : drop (length before) text
                  = rune_of_ascii "<" :: pre ++ c0 :: name ++ runes ">" ++ rest)
    by (unfold text; by rewrite drop_app_length).
  apply runs_readTag.
  eapply runs_Next; [exact Hdrop|reflexivity|].
  apply drop_tail in Hdrop.
  eapply runs_preamble; [reflexivity|exact Hpre|exact Hdrop|].
  apply drop_run in Hdrop.
  eapply runs_Next; [exact Hdrop| |].
  { unfold readTag_step. simpl state.
    assert (is_rune "!" c0 = false) as -> by rune_cases.
    assert (is_rune "/" c0 = false) as -> by rune_cases.
    assert (is_rune ">" c0 = false) as -> by rune_cases.
    assert (isWhitespace c0 = false) as -> by rune_cases.
    reflexivity. }
  apply drop_tail in Hdrop.
  eapply runs_name; [reflexivity|exact Hname|exact Hdrop|].
  apply drop_run in Hdrop.
  eapply runs_Return_eq; [exact Hdrop|reflexivity|].
  reflexivity.
Qed.

(** State 20 skips whitespace. *)
Lemma runs_gap (text : list rune) (gap : list rune) :
  forall (m : tagMachine) (cursor : nat) (after : list rune) r,
    state m = T20 ->
    forallb isWhitespace gap = true ->
    drop cursor text = gap ++ after ->
    runs lower text m (cursor + length gap) r ->
    runs lower text m cursor r.
Proof.
  induction gap as [|c gap IH]; intros m cursor after r Hs Hgap Hdrop Hrun.
  - simpl in Hrun. by rewrite Nat.add_0_r in Hrun.
  - simpl in Hgap. apply andb_prop in Hgap as [Hc Hgap].
    eapply runs_Next; [exact Hdrop| |].
    + unfold readTag_step. rewrite Hs.
      assert (is_rune "/" c = false) as -> by rune_cases.
      assert (is_rune ">" c = false) as -> by rune_cases.
      rewrite Hc. reflexivity.
    + apply (IH _ _ after); [exact Hs|exact Hgap|by eapply drop_tail|].
      replace (cursor + 1 + length gap) with (cursor + length (c :: gap))
        by (simpl; lia).
      exact Hrun.
Qed.

(** The run of [readTag] on a self-closing tag. *)
Lemma self_closing_run (before : list rune) (c0 : rune)
    (name gap rest : list rune) :
  name_start c0 = true ->
  forallb name_char name = true ->
  forallb isWhitespace gap = true ->
  let text := before ++ runes "<" ++ c0 :: name ++ gap ++ runes "/" ++ rest in
  let cursor' := length before + 1 + 1 + length name + length gap + 1 in
  readTag lower text (length before)
  = Some (plain_tag (ToLower lower (c0 :: name)) true false, None, cursor')
  /\ drop cursor' text = rest.
Proof.
  intros Hc0 Hname Hgap text cursor'.
  assert (Hdrop : drop (length before) text
                  = rune_of_ascii "<" :: c0 :: name ++ gap ++ runes "/" ++ rest)
    by (unfold text; by rewrite drop_app_length).
  assert (Hstart : readTag_step lower (with_state (readTag_init) T1) c0
                   = Next (with_element_name (with_state (with_state readTag_init T1) T10)
                             (EMPTY ++ [c0]))).
  { unfold readTag_step. simpl state.
    assert (is_rune "!" c0 = false) as -> by rune_cases.
    assert (is_rune "/" c0 = false) as -> by rune_cases.
    assert (is_rune ">" c0 = false) as -> by rune_cases.
    assert (isWhitespace c0 = false) as -> by rune_cases.
    reflexivity. }
  split.
  - apply runs_readTag.
    eapply runs_Next; [exact Hdrop|reflexivity|].
    apply drop_tail in Hdrop.
    eapply runs_Next; [exact Hdrop|exact Hstart|].
    apply drop_tail in Hdrop.
    eapply runs_name; [reflexivity|exact Hname|exact Hdrop|].
    apply drop_run in Hdrop.
    destruct gap as [|w gap].
    + eapply runs_Return_eq; [exact Hdrop|reflexivity|].
      unfold cursor'. simpl. do 2 f_equal. lia.
    + simpl in Hgap. apply andb_prop in Hgap as [Hw Hgap].
      eapply runs_Next; [exact Hdrop| |].
      { unfold readTag_step. simpl state. rewrite Hw. reflexivity. }
      apply drop_tail in Hdrop.
      eapply runs_gap; [reflexivity|exact Hgap|exact Hdrop|].
      apply drop_run in Hdrop.
      eapply runs_Return_eq; [exact Hdrop|reflexivity|].
      unfold cursor'. simpl. do 2 f_equal. lia.
  - replace cursor' with (length before + length (runes "<" ++ c0 :: name ++ gap ++ runes "/")).
    + unfold text.
      replace (before ++ runes "<" ++ c0 :: name ++ gap ++ runes "/" ++ rest)
        with (before ++ (runes "<" ++ c0 :: name ++ gap ++ runes "/") ++ rest).
      * rewrite <- drop_drop, drop_app_length. by rewrite drop_app_length.
      * simpl. by rewrite <- !app_assoc.
    + unfold cursor'. simpl. rewrite !length_app. simpl. lia.
Qed.

(** X11.  A self-closing tag: after the name, and whitespace if any, a [/]
    follows.  [readTag] returns at the [/]: the record is void whatever its
    name, and the cursor is just past the [/], so that the [>] which
    normally follows is left in the input for the next read. *)
Theorem readTag_self_closing_stops_at_slash (before : list rune) (c0 : rune)
    (name gap rest : list rune) :
  name_start c0 = true ->
  forallb name_char name = true ->
  forallb isWhitespace gap = true ->
  let text := before ++ runes "<" ++ c0 :: name ++ gap ++ runes "/" ++ rest in
  let cursor' := length before + 1 + 1 + length name + length gap + 1 in
  readTag lower text (length before)
  = Some (plain_tag (ToLower lower (c0 :: name)) true false, None, cursor')
  /\ drop cursor' text = rest.
Proof. exact (self_closing_run before c0 name gap rest). Qed.

End SimpleTags.

(** ** Self-closing tags in the tree builder *)

Lemma readUntilTag_at_tag (body : list rune) (cursor : nat) (rest : list rune) :
  drop cursor body = rune_of_ascii "<" :: rest ->
  readUntilTag body cursor = ([], cursor).
Proof.
  intros Hdrop. unfold readUntilTag.
  assert (Hc : body !! cursor = Some (rune_of_ascii "<")).
  { rewrite <- (Nat.add_0_r cursor), <- lookup_drop, Hdrop. done. }
  assert (Hlt : cursor < length body) by (by eapply lookup_lt_Some).
  destruct (length body - cursor) as [|fuel] eqn:Hfuel; [lia|].
  simpl. rewrite Hc. simpl. by rewrite slice_empty.
Qed.

Opaque readUntilTag readTag readUntilScriptTagClose.

Section VoidTags.

Variable lower : rune -> rune.

(** An iteration that reads a void tag appends it and goes on at the same
    level. *)
Lemma void_tag_iteration (fuel : nat) (sc : bool) (body : list rune)
    (parse_start : nat) (parent : Element) (cursor : nat) (tagStack : elementStack)
    (results : list rune) (cursor1 cursor2 : nat) (read_tag : Element) :
  cursor < length body ->
  readUntilTag body cursor = (results, cursor1) ->
  readTag lower body cursor1 = Some (read_tag, None, cursor2) ->
  IsClose read_tag = false ->
  IsVoid read_tag = true ->
  parseChildren_loop lower (S fuel) sc body parse_start parent cursor tagStack
  = parseChildren_loop lower fuel sc body parse_start
      (AddChild (with_text parent results) read_tag) cursor2 tagStack.
Proof.
  intros Hlt Hrut Hrt Hclose Hvoid. simpl.
  destruct (decide (cursor < length body)); [|lia].
  by rewrite Hrut, Hrt, Hclose, Hvoid.
Qed.

(** The tree builder on a document that is one self-closing tag followed
    by text. *)
Lemma self_closing_document (sc : bool) (c0 : rune)
    (name gap tail : list rune) :
  name_start c0 = true ->
  forallb name_char name = true ->
  forallb isWhitespace gap = true ->
  Forall (fun c => is_rune "<" c = false) tail ->
  let body := runes "<" ++ c0 :: name ++ gap ++ runes "/" ++ runes ">" ++ tail in
  parseChildren lower (length body) rootElement body 0 emptyStack sc
  = Returns (mkResult
               (mkElement [] body None
                  [plain_tag (ToLower lower (c0 :: name)) true false;
                   newTextNode (runes ">" ++ tail);
                   trailingElement]
                  false false false true false false)
               (length body) emptyStack None).
Proof.
  intros Hc0 Hname Hgap Htail body.
  destruct (self_closing_run lower [] c0 name gap
              (runes ">" ++ tail) Hc0 Hname Hgap) as [Hrt Hdrop].
  change ([] ++ runes "<" ++ c0 :: name ++ gap ++ runes "/" ++ runes ">" ++ tail)
    with body in Hrt, Hdrop.
  simpl length in Hrt, Hdrop.
  set (c2 := 0 + 1 + 1 + length name + length gap + 1) in *.
  assert (Hlen : length body = c2 + 1 + length tail).
  { unfold body, c2. simpl. rewrite !length_app. simpl. lia. }
  unfold parseChildren.
  destruct (decide (length body = 0)); [lia|].
  destruct (length body) as [|[|fuel]] eqn:Hfuel; [lia|unfold c2 in Hlen; lia|].
  rewrite (void_tag_iteration (S fuel) sc body 0 rootElement 0 emptyStack
             [] 0 c2 _ ltac:(lia) (readUntilTag_at_tag body 0 _ eq_refl) Hrt
             eq_refl eq_refl).
  rewrite (trailing_iteration lower fuel sc body 0 _ c2 emptyStack (drop c2 body)).
  - rewrite Hdrop. unfold with_text.
    replace (isContinuousWhitespace (runes ">" ++ tail)) with false by reflexivity.
    rewrite slice_full_from, Hfuel. reflexivity.
  - lia.
  - apply readUntilTag_no_tag; [lia|].
    rewrite Hdrop. constructor; [reflexivity|exact Htail].
Qed.

(** X12.  A document that is one self-closing tag followed by text: since
    [readTag] stops at the [/], the tree builder reads the [>] as the start
    of the text that follows.  The root gets the void element, a text node
    that begins with [>], and the empty record read at the end of the
    input. *)
Theorem Parse_self_closing_tag_leaves_gt (c0 : rune) (name gap tail : list rune) :
  name_start c0 = true ->
  forallb name_char name = true ->
  forallb isWhitespace gap = true ->
  Forall (fun c => is_rune "<" c = false) tail ->
  let body := runes "<" ++ c0 :: name ++ gap ++ runes "/" ++ runes ">" ++ tail in
  let tree :=
    mkElement [] body None
      [plain_tag (ToLower lower (c0 :: name)) true false;
       newTextNode (runes ">" ++ tail);
       trailingElement]
      false false false true false false in
  Parse lower body = Returns (tree, None)
  /\ ParseStrict lower body = Returns (tree, None).
Proof.
  intros Hc0 Hname Hgap Htail body tree. unfold Parse, ParseStrict.
  by rewrite !(self_closing_document _ c0 name gap tail Hc0 Hname Hgap Htail).
Qed.

End VoidTags.

Transparent readUntilTag readTag readUntilScriptTagClose.

(** ** Comments, empty tags and attributes *)

Section Tags.

Variable lower : rune -> rune.

(** State 200 appends the characters of a comment up to the first [-]. *)
Lemma runs_comment (text : list rune) (body : list rune) :
  forall (m : tagMachine) (cursor : nat) (after : list rune) r,
    state m = T200 ->
    forallb (fun c => negb (is_rune "-" c)) body = true ->
    drop cursor text = body ++ rune_of_ascii "-" :: after ->
    runs lower text
      (with_state
         (with_elem m
            (set_InnerHTML
               (set_IsComment (set_ElementName (elem m) ELEMENT_INTERNAL_XML_COMMENT) true)
               (InnerHTML (elem m) ++ body)))
         T201)
      (cursor + length body + 1) r ->
    runs lower text m cursor r.
Proof.
  induction body as [|c body IH]; intros m cursor after r Hs Hbody Hdrop Hrun.
  - eapply runs_Next; [exact Hdrop| |].
    + unfold readTag_step. rewrite Hs. simpl. reflexivity.
    + simpl in Hrun. rewrite Nat.add_0_r, app_nil_r in Hrun.
      destruct m as [s e an av en q]. destruct e. exact Hrun.
  - simpl in Hbody. apply andb_prop in Hbody as [Hc Hbody].
    apply negb_true_iff in Hc.
    eapply runs_Next; [exact Hdrop| |].
    + unfold readTag_step. rewrite Hs. cbv zeta. rewrite Hc. reflexivity.
    + apply (IH _ _ after); [exact Hs|exact Hbody|by eapply drop_tail|].
      replace (cursor + 1 + length body + 1) with (cursor + length (c :: body) + 1)
        by (simpl; lia).
      destruct m as [s e an av en q]. destruct e. simpl in Hrun |- *.
      rewrite <- app_assoc. exact Hrun.
Qed.

(** X13.  A comment whose text has no [-]: [readTag] returns a void
    comment record named by the lowercased internal comment name, whose
    [InnerHTML] is the text between the two markers, and the cursor is
    just past the closing marker. *)
Theorem readTag_comment_without_hyphen (before body rest : list rune) :
  forallb (fun c => negb (is_rune "-" c)) body = true ->
  readTag lower (before ++ runes "<!--" ++ body ++ runes "-->" ++ rest)
    (length before)
  = Some (mkElement (ToLower lower ELEMENT_INTERNAL_XML_COMMENT) body (Some ∅) []
            false true true false false false,
          None,
          length before + 4 + length body + 3).
Proof.
  intros Hbody.
  set (text := before ++ _).
  assert (Hdrop : drop (length before) text
                  = rune_of_ascii "<" :: rune_of_ascii "!" :: rune_of_ascii "-"
                    :: rune_of_ascii "-" :: body ++ runes "-->" ++ rest)
    by (unfold text; by rewrite drop_app_length).
  apply runs_readTag.
  eapply runs_Next; [exact Hdrop|reflexivity|]. apply drop_tail in Hdrop.
  eapply runs_Next; [exact Hdrop|reflexivity|]. apply drop_tail in Hdrop.
  eapply runs_Next; [exact Hdrop|reflexivity|]. apply drop_tail in Hdrop.
  eapply runs_Next; [exact Hdrop|reflexivity|]. apply drop_tail in Hdrop.
  eapply runs_comment; [reflexivity|exact Hbody|exact Hdrop|].
  apply drop_run in Hdrop. apply drop_tail in Hdrop.
  eapply runs_Next; [exact Hdrop|reflexivity|]. apply drop_tail in Hdrop.
  eapply runs_Return_eq; [exact Hdrop|reflexivity|].
  f_equal; lia.
Qed.

(** X14.  A tag without a name: between [<] and [>] there is nothing but
    whitespace and slashes.  [readTag] returns the empty-tag error, with a
    record that has the empty name and is a close tag iff a slash was
    read, and the cursor is just past the [>]. *)
Theorem readTag_nameless_tag_error (before pre rest : list rune) :
  forallb (fun c => isWhitespace c || is_rune "/" c) pre = true ->
  readTag lower (before ++ runes "<" ++ pre ++ runes ">" ++ rest) (length before)
  = Some (plain_tag [] false (existsb (is_rune "/") pre),
          Some emptyTagError,
          length before + 1 + length pre + 1).
Proof.
  intros Hpre.
  set (text := before ++ _).
  assert (Hdrop : drop (length before) text
                  = rune_of_ascii "<" :: pre ++ runes ">" ++ rest)
    by (unfold text; by rewrite drop_app_length).
  apply runs_readTag.
  eapply runs_Next; [exact Hdrop|reflexivity|]. apply drop_tail in Hdrop.
  eapply runs_preamble; [reflexivity|exact Hpre|exact Hdrop|].
  apply drop_run in Hdrop.
  eapply runs_Return_eq; [exact Hdrop|reflexivity|].
  unfold name_void_elem, name_elem. simpl.
  change (ToLower lower EMPTY) with (@nil rune).
  by rewrite isKnownVoidElement_nil.
Qed.

(** State 100 appends a run of attribute-name characters. *)
Lemma runs_attr_name (text : list rune) (xs : list rune) :
  forall (m : tagMachine) (cursor : nat) (after : list rune) r,
    state m = T100 ->
    forallb attr_char xs = true ->
    drop cursor text = xs ++ after ->
    runs lower text (with_attr_name m (attr_name m ++ xs)) (cursor + length xs) r ->
    runs lower text m cursor r.
Proof.
  induction xs as [|c xs IH]; intros m cursor after r Hs Hxs Hdrop Hrun.
  - simpl in Hrun. rewrite Nat.add_0_r, app_nil_r in Hrun.
    destruct m. exact Hrun.
  - simpl in Hxs. apply andb_prop in Hxs as [Hc Hxs].
    eapply runs_Next; [exact Hdrop| |].
    + unfold readTag_step. rewrite Hs.
      assert (is_rune "=" c = false) as -> by rune_cases.
      assert (is_rune ">" c = false) as -> by rune_cases.
      assert (is_rune "/" c = false) as -> by rune_cases.
      assert (isWhitespace c = false) as -> by rune_cases.
      reflexivity.
    + apply (IH _ _ after); [exact Hs|exact Hxs|by eapply drop_tail|].
      simpl. rewrite <- app_assoc. simpl.
      replace (cursor + 1 + length xs) with (cursor + S (length xs)) by lia.
      exact Hrun.
Qed.

(** State 102 appends the characters of a quoted value. *)
Lemma runs_quoted_value (text : list rune) (xs : list rune) :
  forall (m : tagMachine) (cursor : nat) (after : list rune) r,
    state m = T102 ->
    forallb (fun c => negb (Z.eqb c (quote_character m))) xs = true ->
    drop cursor text = xs ++ after ->
    runs lower text (with_attr_value m (attr_value m ++ xs)) (cursor + length xs) r ->
    runs lower text m cursor r.
Proof.
  induction xs as [|c xs IH]; intros m cursor after r Hs Hxs Hdrop Hrun.
  - simpl in Hrun. rewrite Nat.add_0_r, app_nil_r in Hrun.
    destruct m. exact Hrun.
  - simpl in Hxs. apply andb_prop in Hxs as [Hc Hxs].
    apply negb_true_iff in Hc.
    eapply runs_Next; [exact Hdrop| |].
    + unfold readTag_step. rewrite Hs, Hc. reflexivity.
    + apply (IH _ _ after); [exact Hs|exact Hxs|by eapply drop_tail|].
      simpl. rewrite <- app_assoc. simpl.
      replace (cursor + 1 + length xs) with (cursor + S (length xs)) by lia.
      exact Hrun.
Qed.

(** State 103 appends the characters of an unquoted value. *)
Lemma runs_unquoted_value (text : list rune) (xs : list rune) :
  forall (m : tagMachine) (cursor : nat) (after : list rune) r,
    state m = T103 ->
    forallb (fun c => negb (isWhitespace c)) xs = true ->
    drop cursor text = xs ++ after ->
    runs lower text (with_attr_value m (attr_value m ++ xs)) (cursor + length xs) r ->
    runs lower text m cursor r.
Proof.
  induction xs as [|c xs IH]; intros m cursor after r Hs Hxs Hdrop Hrun.
  - simpl in Hrun. rewrite Nat.add_0_r, app_nil_r in Hrun.
    destruct m. exact Hrun.
  - simpl in Hxs. apply andb_prop in Hxs as [Hc Hxs].
    apply negb_true_iff in Hc.
    eapply runs_Next; [exact Hdrop| |].
    + unfold readTag_step. rewrite Hs, Hc. reflexivity.
    + apply (IH _ _ after); [exact Hs|exact Hxs|by eapply drop_tail|].
      simpl. rewrite <- app_assoc. simpl.
      replace (cursor + 1 + length xs) with (cursor + S (length xs)) by lia.
      exact Hrun.
Qed.

(** One quoted attribute, read from state 20 with empty buffers. *)
Lemma runs_quoted_attr (text : list rune) (a : quotedAttr) (e : Element)
    (en : gostring) (q0 : rune) (cursor : nat) (after : list rune) r :
  1 <= cursor ->
  qa_ok a = true ->
  drop cursor text = qa_text a ++ after ->
  runs lower text (mkTagMachine T20 (store_quoted lower e a) EMPTY EMPTY en (qa_quote a))
    (cursor + length (qa_text a)) r ->
  runs lower text (mkTagMachine T20 e EMPTY EMPTY en q0) cursor r.
Proof.
  intros Hpos Hok Hdrop Hrun.
  destruct a as [gap k0 key q value]. unfold qa_ok, qa_text, qa_name in *.
  simpl in Hok, Hdrop, Hrun.
  apply andb_prop in Hok as [Hok Hvalue].
  apply andb_prop in Hok as [Hok Hq].
  apply andb_prop in Hok as [Hgap Hname].
  apply andb_prop in Hname as [Hk0 Hkey].
  replace (cursor + length (gap ++ k0 :: key ++ rune_of_ascii "=" :: q :: value ++ [q]))
    with (cursor + length gap + 1 + length key + 1 + 1 + length value + 1) in Hrun
    by (repeat (rewrite length_app; simpl); lia).
  repeat (rewrite <- app_assoc in Hdrop; simpl in Hdrop).
  eapply runs_gap; [reflexivity|exact Hgap|exact Hdrop|].
  apply drop_run in Hdrop.
  eapply runs_Back; [lia|exact Hdrop| |].
  { unfold readTag_step. simpl state.
    assert (is_rune "/" k0 = false) as -> by rune_cases.
    assert (is_rune ">" k0 = false) as -> by rune_cases.
    assert (isWhitespace k0 = false) as -> by rune_cases.
    reflexivity. }
  eapply (runs_attr_name text (k0 :: key)); [reflexivity| |exact Hdrop|].
  { simpl. by rewrite Hk0, Hkey. }
  apply (drop_run _ _ (k0 :: key)) in Hdrop.
  eapply runs_Next; [exact Hdrop|reflexivity|]. apply drop_tail in Hdrop.
  eapply runs_Next; [exact Hdrop| |].
  { unfold readTag_step. simpl state. rewrite Hq. reflexivity. }
  apply drop_tail in Hdrop.
  eapply runs_quoted_value; [reflexivity|exact Hvalue|exact Hdrop|].
  apply drop_run in Hdrop.
  eapply runs_Next; [exact Hdrop| |].
  { unfold readTag_step. simpl state. simpl quote_character.
    rewrite Z.eqb_refl. reflexivity. }
  simpl length.
  replace (cursor + length gap + S (length key) + 1 + 1 + length value + 1)
    with (cursor + length gap + 1 + length key + 1 + 1 + length value + 1) by lia.
  exact Hrun.
Qed.

(** A sequence of quoted attributes, read from state 20. *)
Lemma runs_quoted_attrs (text : list rune) (en : gostring) (attrs : list quotedAttr) :
  forall (e : Element) (q0 : rune) (cursor : nat) (after : list rune) r,
    1 <= cursor ->
    forallb qa_ok attrs = true ->
    drop cursor text = List.concat (List.map qa_text attrs) ++ after ->
    (forall q' : rune,
        runs lower text (mkTagMachine T20 (foldl (store_quoted lower) e attrs) EMPTY EMPTY en q')
          (cursor + length (List.concat (List.map qa_text attrs))) r) ->
    runs lower text (mkTagMachine T20 e EMPTY EMPTY en q0) cursor r.
Proof.
  induction attrs as [|a attrs IH]; intros e q0 cursor after r Hpos Hok Hdrop Hrun.
  - specialize (Hrun q0). simpl in Hrun. by rewrite Nat.add_0_r in Hrun.
  - simpl in Hok. apply andb_prop in Hok as [Ha Hok].
    simpl in Hdrop. rewrite <- app_assoc in Hdrop.
    eapply runs_quoted_attr; [exact Hpos|exact Ha|exact Hdrop|].
    apply drop_run in Hdrop.
    apply (IH _ _ _ after); [lia|exact Hok|exact Hdrop|].
    intros q'. specialize (Hrun q'). simpl in Hrun.
    rewrite length_app, Nat.add_assoc in Hrun. exact Hrun.
Qed.

Lemma foldl_store_quoted (attrs : list quotedAttr) :
  forall (e : Element) (mp : gmap gostring gostring),
    Attributes e = Some mp ->
    foldl (store_quoted lower) e attrs
    = set_Attributes e
        (Some (foldl (fun mp a => <[ToLower lower (qa_name a) := qa_value a]> mp)
                 mp attrs)).
Proof.
  induction attrs as [|a attrs IH]; intros e mp He.
  - simpl. destruct e. simpl in He. by rewrite He.
  - simpl. rewrite (IH _ (<[ToLower lower (qa_name a) := qa_value a]> mp)).
    + destruct e. reflexivity.
    + unfold store_quoted, set_attr. simpl. by rewrite He.
Qed.

Lemma name_void_elem_quoted (attrs : list quotedAttr) (en : gostring) (q : rune) :
  name_void_elem lower
    (mkTagMachine T20
       (foldl (store_quoted lower) (set_Attributes zeroElement (Some ∅)) attrs)
       EMPTY EMPTY en q)
  = mkElement (ToLower lower en) [] (Some (attrs_map lower attrs)) []
      false (isKnownVoidElement lower (ToLower lower en)) false false false false.
Proof.
  by rewrite (foldl_store_quoted attrs (set_Attributes zeroElement (Some ∅)) ∅ eq_refl).
Qed.

(** X15.  A tag with quoted attributes: the name, whitespace, then any
    number of attributes of the form name, [=], quote, value, the same
    quote, with or without whitespace before each, then whitespace if any
    and [>].  The value may hold any character but its own quote.
    [readTag] returns the lowercased name and the map that sends each
    lowercased attribute name to its value, a later attribute replacing an
    earlier one of the same name; the cursor is just past the [>]. *)
Theorem readTag_quoted_attributes (before : list rune) (c0 : rune)
    (name : list rune) (w : rune) (attrs : list quotedAttr)
    (gap rest : list rune) :
  name_start c0 = true ->
  forallb name_char name = true ->
  isWhitespace w = true ->
  forallb qa_ok attrs = true ->
  forallb isWhitespace gap = true ->
  readTag lower
    (before ++ runes "<" ++ c0 :: name ++ [w]
       ++ List.concat (List.map qa_text attrs) ++ gap ++ runes ">" ++ rest)
    (length before)
  = Some (mkElement (ToLower lower (c0 :: name)) [] (Some (attrs_map lower attrs)) []
            false (isKnownVoidElement lower (ToLower lower (c0 :: name)))
            false false false false,
          None,
          length before + 1 + 1 + length name + 1
          + length (List.concat (List.map qa_text attrs)) + length gap + 1).
Proof.
  intros Hc0 Hname Hw Hattrs Hgap.
  set (text := before ++ _).
  assert (Hdrop : drop (length before) text
                  = rune_of_ascii "<" :: c0 :: name ++ w
                    :: List.concat (List.map qa_text attrs) ++ gap ++ runes ">" ++ rest)
    by (unfold text; by rewrite drop_app_length).
  apply runs_readTag.
  eapply runs_Next; [exact Hdrop|reflexivity|]. apply drop_tail in Hdrop.
  eapply runs_Next; [exact Hdrop| |].
  { unfold readTag_step. simpl state.
    assert (is_rune "!" c0 = false) as -> by rune_cases.
    assert (is_rune "/" c0 = false) as -> by rune_cases.
    assert (is_rune ">" c0 = false) as -> by rune_cases.
    assert (isWhitespace c0 = false) as -> by rune_cases.
    reflexivity. }
  apply drop_tail in Hdrop.
  eapply runs_name; [reflexivity|exact Hname|exact Hdrop|].
  apply drop_run in Hdrop.
  eapply runs_Next; [exact Hdrop| |].
  { unfold readTag_step. simpl state. rewrite Hw. reflexivity. }
  apply drop_tail in Hdrop.
  eapply (runs_quoted_attrs text (c0 :: name) attrs
            (set_Attributes zeroElement (Some ∅)) 0%Z);
    [lia|exact Hattrs|exact Hdrop|].
  intros q'. apply drop_run in Hdrop.
  eapply runs_gap; [reflexivity|exact Hgap|exact Hdrop|].
  apply drop_run in Hdrop.
  eapply (runs_Return_eq lower text _ _ _ _
            (name_void_elem lower
               (mkTagMachine T20
                  (foldl (store_quoted lower) (set_Attributes zeroElement (Some ∅)) attrs)
                  EMPTY EMPTY (c0 :: name) q')) None);
    [exact Hdrop|reflexivity|].
  by rewrite name_void_elem_quoted.
Qed.

(** X16.  An unquoted attribute value is ended by whitespace only.  When
    no whitespace follows it in the rest of the input, [readTag] reads to
    the end of the input, whatever tags stand there; the attribute is not
    stored and the record has the empty attribute map. *)
Theorem readTag_unquoted_value_reads_to_end (before : list rune) (c0 : rune)
    (name : list rune) (w : rune) (gap : list rune) (k0 : rune)
    (key : list rune) (v0 : rune) (value : list rune) :
  name_start c0 = true ->
  forallb name_char name = true ->
  isWhitespace w = true ->
  forallb isWhitespace gap = true ->
  forallb attr_char (k0 :: key) = true ->
  isWhitespace v0 = false ->
  v0 <> quote_single -> v0 <> quote_double ->
  forallb (fun c => negb (isWhitespace c)) value = true ->
  let text :=
    before ++ runes "<" ++ c0 :: name ++ [w] ++ gap ++ k0 :: key
      ++ runes "=" ++ v0 :: value in
  readTag lower text (length before)
  = Some (plain_tag (ToLower lower (c0 :: name))
            (isKnownVoidElement lower (ToLower lower (c0 :: name))) false,
          None, length text).
Proof.
  intros Hc0 Hname Hw Hgap Hkey Hv0 Hq1 Hq2 Hvalue text.
  assert (Hdrop : drop (length before) text
                  = rune_of_ascii "<" :: c0 :: name ++ w :: gap ++ k0 :: key
                    ++ rune_of_ascii "=" :: v0 :: value ++ [])
    by (unfold text; rewrite drop_app_length, app_nil_r; done).
  assert (Hlen : length text
                 = length before + 1 + 1 + length name + 1 + length gap
                   + length (k0 :: key) + 1 + 1 + length value).
  { unfold text. repeat (rewrite length_app; simpl). lia. }
  rewrite Hlen.
  apply runs_readTag.
  eapply runs_Next; [exact Hdrop|reflexivity|]. apply drop_tail in Hdrop.
  eapply runs_Next; [exact Hdrop| |].
  { unfold readTag_step. simpl state.
    assert (is_rune "!" c0 = false) as -> by rune_cases.
    assert (is_rune "/" c0 = false) as -> by rune_cases.
    assert (is_rune ">" c0 = false) as -> by rune_cases.
    assert (isWhitespace c0 = false) as -> by rune_cases.
    reflexivity. }
  apply drop_tail in Hdrop.
  eapply runs_name; [reflexivity|exact Hname|exact Hdrop|].
  apply drop_run in Hdrop.
  eapply runs_Next; [exact Hdrop| |].
  { unfold readTag_step. simpl state. rewrite Hw. reflexivity. }
  apply drop_tail in Hdrop.
  eapply runs_gap; [reflexivity|exact Hgap|exact Hdrop|].
  apply drop_run in Hdrop.
  eapply runs_Back; [lia|exact Hdrop| |].
  { simpl in Hkey. apply andb_prop in Hkey as [Hk0 _].
    unfold readTag_step. simpl state.
    assert (is_rune "/" k0 = false) as -> by rune_cases.
    assert (is_rune ">" k0 = false) as -> by rune_cases.
    assert (isWhitespace k0 = false) as -> by rune_cases.
    reflexivity. }
  eapply (runs_attr_name text (k0 :: key)); [reflexivity|exact Hkey|exact Hdrop|].
  apply (drop_run _ _ (k0 :: key)) in Hdrop.
  eapply runs_Next; [exact Hdrop|reflexivity|]. apply drop_tail in Hdrop.
  eapply runs_Next; [exact Hdrop| |].
  { unfold readTag_step. simpl state.
    assert (Z.eqb v0 quote_single = false) as -> by (by apply Z.eqb_neq).
    assert (Z.eqb v0 quote_double = false) as -> by (by apply Z.eqb_neq).
    rewrite Hv0. reflexivity. }
  apply drop_tail in Hdrop.
  eapply runs_unquoted_value; [reflexivity|exact Hvalue|exact Hdrop|].
  apply drop_run in Hdrop.
  eapply runs_end_eq; [exact Hdrop|reflexivity].
Qed.

End Tags.

(** ** The shape of the records that [readTag] returns *)

Section Shape.

Variable lower : rune -> rune.

Lemma readTag_step_inv (m : tagMachine) (c : rune) :
  machine_inv m ->
  match readTag_step lower m c with
  | Next m' | Back m' => machine_inv m'
  | Return e _ => tag_shape e
  end.
Proof.
  destruct m as [s e an av en q]. destruct e.
  unfold machine_inv, tag_shape, readTag_step. simpl.
  intros [(? & ? & ? & ? & ? & Hinner & Hvoid) Hstate].
  destruct s; simpl;
    repeat match goal with
           | |- context [if ?b then _ else _] => destruct b
           end;
    simpl in *; destruct_and?; subst;
    repeat split; intros; rewrite ?orb_true_l; try done; try congruence; auto;
    match goal with
    | H : _ = true -> ?v = true |- ?v || _ = true => by rewrite H
    end.
Qed.

Lemma name_void_elem_shape (m : tagMachine) :
  machine_inv m -> tag_shape (name_void_elem lower m).
Proof.
  destruct m as [s e an av en q]. destruct e.
  unfold machine_inv, tag_shape, name_void_elem, name_elem. simpl.
  intros [(? & ? & ? & ? & ? & Hinner & Hvoid) _].
  repeat split; try done. intros Hc. by rewrite (Hvoid Hc).
Qed.

Lemma readTag_loop_shape (text : list rune) (fuel : nat) :
  forall (m : tagMachine) (cursor : nat) (e : Element) (err : option error)
         (cursor' : nat),
    machine_inv m ->
    readTag_loop lower fuel text m cursor = Some (e, err, cursor') ->
    tag_shape e.
Proof.
  induction fuel as [|fuel IH]; intros m cursor e err cursor' Hinv; simpl;
    destruct (text !! cursor) as [c|]; try discriminate.
  - intros [= <- <- <-]. by apply name_void_elem_shape.
  - pose proof (readTag_step_inv m c Hinv) as Hstep.
    destruct (readTag_step lower m c) as [m'|m'|e' err'].
    + by apply IH.
    + by apply IH.
    + by intros [= <- <- <-].
  - intros [= <- <- <-]. by apply name_void_elem_shape.
Qed.

(** X17.  Whatever the input, [readTag] returns, and the record it
    returns is not a text node, a root or data, has no children and has a
    map of its own; it has [InnerHTML] only if it is a comment, and a
    comment is void.  An error, if any, is one of the two errors of the
    tokenizer, and the cursor does not go back or leave the text. *)
Theorem readTag_record_shape (text : list rune) (cursor : nat) :
  cursor <= length text ->
  exists (e : Element) (err : option error) (cursor' : nat),
    readTag lower text cursor = Some (e, err, cursor')
    /\ tag_shape e
    /\ (err = None \/ err = Some emptyTagError \/ err = Some almostCommentError)
    /\ cursor <= cursor' <= length text.
Proof.
  intros Hle.
  destruct (readTag_total lower text cursor Hle) as (e & err & c' & Hr & Hc & _).
  exists e, err, c'. split; [exact Hr|]. split; [|split; [|exact Hc]].
  - eapply readTag_loop_shape; [|exact Hr].
    unfold machine_inv, tag_shape. simpl. repeat split; done.
  - destruct err as [err|]; [|by left].
    right. destruct (readTag_error lower text cursor e err c' Hr) as [-> | ->]; auto.
Qed.

End Shape.

(** ** The script scanner *)

Section Script.

Variable lower : rune -> rune.
Variable scriptType : gostring.

Lemma script_loop_Next (fuel : nat) (text : list rune) (m m' : scriptMachine)
    (cursor : nat) (c : rune) (rest : list rune) :
  drop cursor text = c :: rest ->
  readUntilScriptTagClose_step lower scriptType m cursor c = JNext m' ->
  readUntilScriptTagClose_loop lower (S fuel) text scriptType m cursor
  = readUntilScriptTagClose_loop lower fuel text scriptType m' (cursor + 1).
Proof.
  intros Hdrop Hstep. simpl.
  assert (Hc : text !! cursor = Some c).
  { rewrite <- (Nat.add_0_r cursor), <- lookup_drop, Hdrop. done. }
  by rewrite Hc, Hstep.
Qed.

Lemma script_loop_Return (fuel : nat) (text : list rune) (m : scriptMachine)
    (cursor : nat) (c : rune) (rest : list rune) (ts : nat) :
  drop cursor text = c :: rest ->
  readUntilScriptTagClose_step lower scriptType m cursor c = JReturn ts ->
  readUntilScriptTagClose_loop lower (S fuel) text scriptType m cursor
  = (ts, cursor + 1).
Proof.
  intros Hdrop Hstep. simpl.
  assert (Hc : text !! cursor = Some c).
  { rewrite <- (Nat.add_0_r cursor), <- lookup_drop, Hdrop. done. }
  by rewrite Hc, Hstep.
Qed.

(** State 0 passes over plain characters. *)
Lemma script_skip_plain (text : list rune) (xs : list rune) :
  forall (fuel : nat) (m : scriptMachine) (cursor : nat) (after : list rune),
    js_state m = J0 ->
    forallb plain_js xs = true ->
    drop cursor text = xs ++ after ->
    readUntilScriptTagClose_loop lower (length xs + fuel) text scriptType m cursor
    = readUntilScriptTagClose_loop lower fuel text scriptType m (cursor + length xs).
Proof.
  induction xs as [|c xs IH]; intros fuel m cursor after Hs Hxs Hdrop.
  - simpl. by rewrite Nat.add_0_r.
  - simpl in Hxs. apply andb_prop in Hxs as [Hc Hxs].
    unfold plain_js in Hc.
    apply andb_prop in Hc as [Hc Hq1]. apply andb_prop in Hc as [Hc Hq2].
    apply andb_prop in Hc as [Hc1 Hc2].
    apply negb_true_iff in Hq1, Hq2, Hc1, Hc2.
    simpl length. simpl Nat.add.
    rewrite (script_loop_Next _ text m m cursor c (xs ++ after) Hdrop).
    + rewrite (IH fuel m (cursor + 1) after Hs Hxs); [|by eapply drop_tail].
      f_equal. lia.
    + unfold readUntilScriptTagClose_step. rewrite Hs, Hc1, Hc2, Hq2, Hq1.
      reflexivity.
Qed.

(** State 11 passes over everything but a slash. *)
Lemma script_skip_to_slash (text : list rune) (xs : list rune) :
  forall (fuel : nat) (m : scriptMachine) (cursor : nat) (after : list rune),
    js_state m = J11 ->
    forallb (fun c => negb (is_rune "/" c)) xs = true ->
    drop cursor text = xs ++ after ->
    readUntilScriptTagClose_loop lower (length xs + fuel) text scriptType m cursor
    = readUntilScriptTagClose_loop lower fuel text scriptType m (cursor + length xs).
Proof.
  induction xs as [|c xs IH]; intros fuel m cursor after Hs Hxs Hdrop.
  - simpl. by rewrite Nat.add_0_r.
  - simpl in Hxs. apply andb_prop in Hxs as [Hc Hxs].
    apply negb_true_iff in Hc.
    simpl length. simpl Nat.add.
    rewrite (script_loop_Next _ text m m cursor c (xs ++ after) Hdrop).
    + rewrite (IH fuel m (cursor + 1) after Hs Hxs); [|by eapply drop_tail].
      f_equal. lia.
    + unfold readUntilScriptTagClose_step. rewrite Hs, Hc. reflexivity.
Qed.

(** State 12 appends the characters of the name of the close tag. *)
Lemma script_read_name (text : list rune) (xs : list rune) :
  forall (fuel : nat) (m : scriptMachine) (cursor : nat) (after : list rune),
    js_state m = J12 ->
    forallb close_name_char xs = true ->
    drop cursor text = xs ++ after ->
    readUntilScriptTagClose_loop lower (length xs + fuel) text scriptType m cursor
    = readUntilScriptTagClose_loop lower fuel text scriptType
        (mkScriptMachine J12 (tag_start m) (working_tag m ++ xs)
           (js_quote_character m))
        (cursor + length xs).
Proof.
  induction xs as [|c xs IH]; intros fuel m cursor after Hs Hxs Hdrop.
  - simpl. rewrite Nat.add_0_r, app_nil_r.
    destruct m. simpl in Hs. by subst.
  - simpl in Hxs. apply andb_prop in Hxs as [Hc Hxs].
    unfold close_name_char in Hc. apply andb_prop in Hc as [Hc1 Hc2].
    apply negb_true_iff in Hc1.
    simpl length. simpl Nat.add.
    rewrite (script_loop_Next _ text m
               (mkScriptMachine J12 (tag_start m) (working_tag m ++ [c])
                  (js_quote_character m))
               cursor c (xs ++ after) Hdrop).
    + rewrite (IH fuel (mkScriptMachine J12 (tag_start m) (working_tag m ++ [c])
                          (js_quote_character m))
                 (cursor + 1) after eq_refl Hxs); [|by eapply drop_tail].
      simpl. rewrite <- app_assoc. simpl. f_equal. lia.
    + unfold readUntilScriptTagClose_step. by rewrite Hs, Hc1, Hc2.
Qed.

(** X18.  A script body that holds no slash and no quote before its first
    [<]: that [<] is taken as the start of the closing tag, whatever stands
    between it and the next slash.  When the name read after that slash
    lowercases to [script], the span returned ends at that first [<] and
    the cursor is just past the [>].  With nothing between the [<] and the
    slash this is the closing tag of the script; with a comparison such as
    [a<b] before it, the script body is cut at the comparison. *)
Theorem script_span_ends_at_first_lt (before content junk name rest : list rune) :
  forallb plain_js content = true ->
  forallb (fun c => negb (is_rune "/" c)) junk = true ->
  forallb close_name_char name = true ->
  ToLower lower name = runes "script" ->
  readUntilScriptTagClose lower
    (before ++ content ++ runes "<" ++ junk ++ runes "/" ++ name ++ runes ">" ++ rest)
    (length before) scriptType
  = (content,
     length before + length content + 1 + length junk + 1 + length name + 1).
Proof.
  intros Hcontent Hjunk Hname Hscript.
  set (text := before ++ _).
  assert (Hdrop : drop (length before) text
                  = content ++ rune_of_ascii "<" :: junk ++ rune_of_ascii "/"
                    :: name ++ rune_of_ascii ">" :: rest)
    by (unfold text; by rewrite drop_app_length).
  assert (Hslice : slice text (length before) (length before + length content) = content).
  { unfold slice. rewrite Hdrop.
    replace (length before + length content - length before) with (length content) by lia.
    by rewrite take_app_length. }
  unfold readUntilScriptTagClose.
  replace (length text - length before)
    with (length content + S (length junk + S (length name + S (length rest)))).
  2:{ unfold text. repeat (rewrite length_app; simpl). lia. }
  erewrite (script_skip_plain text content); [|reflexivity|exact Hcontent|exact Hdrop].
  apply drop_run in Hdrop.
  erewrite script_loop_Next; [|exact Hdrop|reflexivity].
  apply drop_tail in Hdrop.
  erewrite (script_skip_to_slash text junk); [|reflexivity|exact Hjunk|exact Hdrop].
  apply drop_run in Hdrop.
  erewrite script_loop_Next; [|exact Hdrop|reflexivity].
  apply drop_tail in Hdrop.
  erewrite (script_read_name text name); [|reflexivity|exact Hname|exact Hdrop].
  apply drop_run in Hdrop.
  erewrite script_loop_Return; [|exact Hdrop|].
  - by rewrite Hslice.
  - unfold readUntilScriptTagClose_step. simpl.
    by rewrite bool_decide_eq_true_2.
Qed.

(** Once the scanner has read a close tag whose name cannot grow into
    [script], it stays in state 12 to the end of the input. *)
Lemma script_stuck (text : list rune) (fuel : nat) :
  forall (ts : nat) (w : gostring) (q : rune) (cursor : nat),
    (forall suffix, ToLower lower (w ++ suffix) <> runes "script") ->
    cursor <= length text ->
    length text - cursor <= fuel ->
    readUntilScriptTagClose_loop lower fuel text scriptType
      (mkScriptMachine J12 ts w q) cursor
    = (length text, length text).
Proof.
  induction fuel as [|fuel IH]; intros ts w q cursor Hw Hle Hfuel.
  - simpl. f_equal; lia.
  - simpl. destruct (text !! cursor) as [c|] eqn:Hc.
    + apply lookup_lt_length in Hc.
      unfold readUntilScriptTagClose_step. simpl.
      destruct (is_rune ">" c).
      * rewrite bool_decide_eq_false_2.
        -- apply IH; [exact Hw|lia|lia].
        -- specialize (Hw []). by rewrite app_nil_r in Hw.
      * destruct (negb (isWhitespace c)).
        -- apply IH; [|lia|lia].
           intros suffix. rewrite <- app_assoc. apply Hw.
        -- apply IH; [exact Hw|lia|lia].
    + apply lookup_ge_None in Hc. f_equal; lia.
Qed.

(** X19.  A close tag of another element inside a script body (with no
    slash and no quote before its [<]) blocks the scanner: the name buffer
    is never reset, so when the name read cannot grow into [script] no
    later [</script>] is recognised, and the script body extends to the
    end of the input. *)
Theorem script_scanner_blocked_by_other_close_tag
    (before content junk name rest : list rune) :
  forallb plain_js content = true ->
  forallb (fun c => negb (is_rune "/" c)) junk = true ->
  forallb close_name_char name = true ->
  (forall suffix, ToLower lower (name ++ suffix) <> runes "script") ->
  let text :=
    before ++ content ++ runes "<" ++ junk ++ runes "/" ++ name ++ runes ">" ++ rest in
  readUntilScriptTagClose lower text (length before) scriptType
  = (drop (length before) text, length text).
Proof.
  intros Hcontent Hjunk Hname Hother text.
  assert (Hdrop : drop (length before) text
                  = content ++ rune_of_ascii "<" :: junk ++ rune_of_ascii "/"
                    :: name ++ rune_of_ascii ">" :: rest)
    by (unfold text; by rewrite drop_app_length).
  assert (Hlen : length text
                 = length before + length content + 1 + length junk + 1
                   + length name + S (length rest)).
  { unfold text. repeat (rewrite length_app; simpl). lia. }
  unfold readUntilScriptTagClose.
  replace (length text - length before)
    with (length content + S (length junk + S (length name + S (length rest))))
    by lia.
  erewrite (script_skip_plain text content); [|reflexivity|exact Hcontent|exact Hdrop].
  apply drop_run in Hdrop.
  erewrite script_loop_Next; [|exact Hdrop|reflexivity].
  apply drop_tail in Hdrop.
  erewrite (script_skip_to_slash text junk); [|reflexivity|exact Hjunk|exact Hdrop].
  apply drop_run in Hdrop.
  erewrite script_loop_Next; [|exact Hdrop|reflexivity].
  apply drop_tail in Hdrop.
  erewrite (script_read_name text name); [|reflexivity|exact Hname|exact Hdrop].
  rewrite script_stuck; [|exact Hother|lia|lia].
  by rewrite slice_full_from.
Qed.

(** While the scanner is inside a tag, [tag_start] is the position of a
    [<] that it has passed since it started. *)
Lemma script_step_tag_start (text : list rune) (m m' : scriptMachine)
    (start cursor : nat) (c : rune) :
  text !! cursor = Some c ->
  start <= cursor ->
  (in_tag m -> start <= tag_start m < cursor
               /\ text !! tag_start m = Some (rune_of_ascii "<")) ->
  readUntilScriptTagClose_step lower scriptType m cursor c = JNext m' ->
  in_tag m' -> start <= tag_start m' < cursor + 1
               /\ text !! tag_start m' = Some (rune_of_ascii "<").
Proof.
  unfold in_tag, readUntilScriptTagClose_step. intros Hc Hle Hinv.
  destruct (js_state m) eqn:Hs; intros H;
    repeat match type of H with
           | (if ?b then _ else _) = _ => destruct b eqn:?
           end;
    try discriminate; injection H as <-; simpl; rewrite ?Hs;
    intros [?|?]; try discriminate;
    try (destruct Hinv as [? ?]; [by auto|]; split; [lia|done]).
  split; [lia|].
  match goal with H : is_rune "<" c = true |- _ => apply Z.eqb_eq in H; by subst end.
Qed.

Lemma script_step_return_gt (m : scriptMachine) (cursor : nat) (c : rune) (ts : nat) :
  readUntilScriptTagClose_step lower scriptType m cursor c = JReturn ts ->
  c = rune_of_ascii ">".
Proof.
  unfold readUntilScriptTagClose_step.
  destruct (js_state m); intros H;
    repeat match type of H with
           | (if ?b then _ else _) = _ => destruct b eqn:?
           end;
    try discriminate.
  match goal with H : is_rune ">" c = true |- _ => by apply Z.eqb_eq in H end.
Qed.

Lemma script_loop_post (text : list rune) (start : nat) (fuel : nat) :
  forall (m : scriptMachine) (cursor : nat),
    start <= cursor <= length text ->
    length text - cursor <= fuel ->
    (in_tag m -> start <= tag_start m < cursor
                 /\ text !! tag_start m = Some (rune_of_ascii "<")) ->
    let '(span_end, cursor') :=
      readUntilScriptTagClose_loop lower fuel text scriptType m cursor in
    (span_end = length text /\ cursor' = length text)
    \/ (start <= span_end < cursor' /\ cursor' <= length text
        /\ text !! span_end = Some (rune_of_ascii "<")
        /\ text !! (cursor' - 1) = Some (rune_of_ascii ">")).
Proof.
  induction fuel as [|fuel IH]; intros m cursor Hle Hfuel Hinv; simpl.
  - left. lia.
  - destruct (text !! cursor) as [c|] eqn:Hc.
    + pose proof (lookup_lt_length _ _ _ Hc) as Hlt.
      destruct (readUntilScriptTagClose_step lower scriptType m cursor c)
        as [m'|ts] eqn:Hstep.
      * apply IH; [lia|lia|].
        apply (script_step_tag_start text m m' start cursor c Hc); [lia|done|done].
      * right.
        pose proof (script_step_return_gt _ _ _ _ Hstep) as ->.
        apply readUntilScriptTagClose_step_return in Hstep as [Hin ->].
        destruct (Hinv Hin) as [? ?].
        replace (cursor + 1 - 1) with cursor by lia.
        repeat split; try done; lia.
    + apply lookup_ge_None in Hc. left. lia.
Qed.

(** X20.  What [readUntilScriptTagClose] returns, whatever the input: it
    either reads to the end of the input and returns all of it from the
    cursor on, or it stops just past a [>] and returns the text from the
    cursor up to a [<] that stands before that [>]. *)
Theorem script_scanner_result (text : list rune) (cursor : nat) :
  cursor <= length text ->
  exists (span : list rune) (cursor' : nat),
    readUntilScriptTagClose lower text cursor scriptType = (span, cursor')
    /\ ((span = drop cursor text /\ cursor' = length text)
        \/ exists tag_start : nat,
             cursor <= tag_start < cursor' /\ cursor' <= length text
             /\ span = slice text cursor tag_start
             /\ text !! tag_start = Some (rune_of_ascii "<")
             /\ text !! (cursor' - 1) = Some (rune_of_ascii ">")).
Proof.
  intros Hle. unfold readUntilScriptTagClose.
  pose proof (script_loop_post text cursor (length text - cursor)
                (mkScriptMachine J0 0 EMPTY 0%Z) cursor ltac:(lia) ltac:(lia)) as H.
  destruct (readUntilScriptTagClose_loop lower (length text - cursor) text scriptType
              (mkScriptMachine J0 0 EMPTY 0%Z) cursor) as [span_end cursor'].
  eexists _, _. split; [reflexivity|].
  destruct H as [[-> ->] | (? & ? & ? & ?)].
  - unfold in_tag. simpl. intros [?|?]; discriminate.
  - left. split; [apply slice_full_from|done].
  - right. exists span_end. repeat split; try done; lia.
Qed.

End Script.

(** ** The two modes of the tree builder; what a level changes *)

Opaque readUntilTag readTag readUntilScriptTagClose.

Section Modes.

Variable lower : rune -> rune.

(** A level that the strict mode ends without an error, or in the nil
    dereference, ends in the same way in the lenient mode. *)
Lemma strict_level_lenient (fuel : nat) :
  forall (body : list rune) (parse_start : nat) (parent : Element) (cursor : nat)
         (tagStack : elementStack),
    (forall r,
        parseChildren_loop lower fuel true body parse_start parent cursor tagStack
        = Returns r ->
        r_err r = None ->
        parseChildren_loop lower fuel false body parse_start parent cursor tagStack
        = Returns r)
    /\ (parseChildren_loop lower fuel true body parse_start parent cursor tagStack
        = Panic ->
        parseChildren_loop lower fuel false body parse_start parent cursor tagStack
        = Panic).
Proof.
  induction fuel as [|fuel IH]; intros body parse_start parent cursor tagStack; simpl.
  - destruct (decide (cursor < length body)); split; intros; done.
  - destruct (decide (cursor < length body)); [|split; intros; done].
    destruct (readUntilTag body cursor) as [results cursor1].
    set (parent1 := if (0 <? length results) && negb (isContinuousWhitespace results)
                    then _ else _). clearbody parent1.
    destruct (readTag lower body cursor1) as [[[tag [err|]] c2]|];
      [split; intros; done| |split; intros; done].
    destruct (IsClose tag).
    { destruct (Peek tagStack) as [expected|]; [|split; intros; done].
      destruct (bool_decide _); [split; intros; done|].
      split.
      - intros r [= <-]. simpl. discriminate.
      - discriminate. }
    destruct (IsVoid tag); [apply IH|].
    destruct (bool_decide (ElementName tag = runes "script")).
    { destruct (readUntilScriptTagClose lower body c2 _) as [contents c3]. apply IH. }
    destruct (decide (length body = 0)).
    { simpl. apply IH. }
    destruct (IH body c2 tag c2 (Push (Duplicate tagStack) tag)) as [IHr IHp].
    destruct (parseChildren_loop lower fuel true body c2 tag c2 _) as [rc| |] eqn:Hchild.
    + destruct (r_err rc) as [e|] eqn:Herr.
      * split; [|discriminate]. intros r [= <-]. simpl. discriminate.
      * rewrite (IHr rc eq_refl Herr), Herr. apply IH.
    + rewrite (IHp eq_refl). split; intros; done.
    + split; intros; done.
Qed.

(** X21.  The strict mode only adds errors.  When [ParseStrict] returns a
    tree without an error, [Parse] returns the same tree without an error;
    when [ParseStrict] ends in the nil dereference, so does [Parse]. *)
Theorem ParseStrict_success_is_Parse_success (body : list rune) :
  (forall tree : Element,
      ParseStrict lower body = Returns (tree, None) ->
      Parse lower body = Returns (tree, None))
  /\ (ParseStrict lower body = Panic -> Parse lower body = Panic).
Proof.
  unfold ParseStrict, Parse, parseChildren.
  destruct (decide (length body = 0)); [split; intros; done|].
  destruct (strict_level_lenient (length body) body 0 rootElement 0 emptyStack)
    as [Hr Hp].
  destruct (parseChildren_loop lower (length body) true body 0 rootElement 0 emptyStack)
    as [r| |].
  - split; [|discriminate]. intros tree [= <- Herr].
    by rewrite (Hr r eq_refl Herr), Herr.
  - split; [discriminate|]. intros _. by rewrite (Hp eq_refl).
  - split; discriminate.
Qed.

Lemma extends_refl (e : Element) : extends e e.
Proof. unfold extends. repeat split. exists []. by rewrite app_nil_r. Qed.

Lemma extends_trans (a b c : Element) : extends a b -> extends b c -> extends a c.
Proof.
  unfold extends.
  intros (? & ? & ? & ? & ? & ? & ? & ? & [l1 Hl1])
         (? & ? & ? & ? & ? & ? & ? & ? & [l2 Hl2]).
  repeat split; try congruence.
  exists (l1 ++ l2). by rewrite Hl2, Hl1, app_assoc.
Qed.

Lemma extends_AddChild (e c : Element) : extends e (AddChild e c).
Proof. unfold extends, AddChild. simpl. repeat split. by exists [c]. Qed.

Lemma extends_set_InnerHTML (e : Element) (v : gostring) : extends e (set_InnerHTML e v).
Proof. unfold extends. simpl. repeat split. exists []. by rewrite app_nil_r. Qed.

Lemma extends_with_text (e : Element) (results : list rune) :
  extends e (if (0 <? length results) && negb (isContinuousWhitespace results)
             then AddChild e (newTextNode results) else e).
Proof. destruct (_ && _); [apply extends_AddChild|apply extends_refl]. Qed.

Lemma level_extends (fuel : nat) :
  forall (sc : bool) (body : list rune) (parse_start : nat) (parent : Element)
         (cursor : nat) (tagStack : elementStack) (r : parseResult),
    parseChildren_loop lower fuel sc body parse_start parent cursor tagStack
    = Returns r ->
    extends parent (r_parent r)
    /\ (r_stack r = tagStack \/ r_stack r = snd (Pop tagStack)).
Proof.
  induction fuel as [|fuel IH]; intros sc body parse_start parent cursor tagStack r; simpl.
  - destruct (decide (cursor < length body)); [done|].
    intros [= <-]. simpl. split; [apply extends_set_InnerHTML|by left].
  - destruct (decide (cursor < length body));
      [|intros [= <-]; simpl; split; [apply extends_set_InnerHTML|by left]].
    destruct (readUntilTag body cursor) as [results cursor1].
    pose proof (extends_with_text parent results) as Htext.
    set (parent1 := if (0 <? length results) && negb (isContinuousWhitespace results)
                    then _ else _) in *. clearbody parent1.
    assert (Hnext : forall p c r,
              extends parent1 p ->
              parseChildren_loop lower fuel sc body parse_start p c tagStack = Returns r ->
              extends parent (r_parent r)
              /\ (r_stack r = tagStack \/ r_stack r = snd (Pop tagStack))).
    { intros p c r' Hp Hrun. destruct (IH _ _ _ _ _ _ _ Hrun) as [He Hs].
      split; [|exact Hs].
      eapply extends_trans; [exact Htext|]. eapply extends_trans; [exact Hp|exact He]. }
    destruct (readTag lower body cursor1) as [[[tag [err|]] c2]|]; [| |done].
    { intros [= <-]. simpl. split; [exact Htext|by left]. }
    destruct (IsClose tag).
    { destruct (Peek tagStack) as [expected|]; [|done].
      destruct (bool_decide _).
      - intros [= <-]. simpl. split; [|by right].
        eapply extends_trans; [exact Htext|apply extends_set_InnerHTML].
      - destruct sc.
        + intros [= <-]. simpl. split; [exact Htext|by left].
        + apply Hnext, extends_refl. }
    destruct (IsVoid tag); [apply Hnext, extends_AddChild|].
    destruct (bool_decide (ElementName tag = runes "script")).
    { destruct (readUntilScriptTagClose lower body c2 _) as [contents c3].
      apply Hnext, extends_AddChild. }
    destruct (decide (length body = 0)).
    { simpl. apply Hnext, extends_AddChild. }
    destruct (parseChildren_loop lower fuel sc body c2 tag c2 _) as [rc| |]; [|done|done].
    destruct (r_err rc).
    + intros [= <-]. simpl. split; [|by left].
      eapply extends_trans; [exact Htext|apply extends_AddChild].
    + apply Hnext, extends_AddChild.
Qed.

(** X22.  A call of [parseChildren] that returns has only appended
    children to the element it was given and set its [InnerHTML]: the
    name, the attributes and the flags are those of the element passed in,
    and the children it had come first, in their order.  The stack it
    returns is the one passed in, or that stack with its top popped. *)
Theorem parseChildren_only_appends (fuel : nat) (parentElement : Element)
    (body : list rune) (cursor : nat) (tagStack : elementStack) (sc : bool)
    (r : parseResult) :
  parseChildren lower fuel parentElement body cursor tagStack sc = Returns r ->
  extends parentElement (r_parent r)
  /\ (r_stack r = tagStack \/ r_stack r = snd (Pop tagStack)).
Proof.
  unfold parseChildren. destruct (decide (length body = 0)).
  - intros [= <-]. simpl. split; [apply extends_refl|by left].
  - apply level_extends.
Qed.

End Modes.

Transparent readUntilTag readTag readUntilScriptTagClose.

(** ** The stack: counting, last in first out *)

Lemma new_stack_repr (h : StackHeap.store) :
  repr (fst (StackHeap.new_stack h)) (snd (StackHeap.new_stack h)) emptyStack.
Proof.
  unfold StackHeap.new_stack. simpl.
  eexists. split; [apply lookup_insert_eq|]. split; [constructor|reflexivity].
Qed.

Lemma apply_op_Count (ops : list StackHeap.stackOp) :
  forall s : elementStack,
    Count s = Z.of_nat (length (Top s)) ->
    Count (foldl apply_op s ops) = Z.of_nat (length (Top (foldl apply_op s ops))).
Proof.
  induction ops as [|op ops IH]; intros s Hs; simpl; [exact Hs|].
  apply IH. destruct op as [e|]; simpl.
  - lia.
  - unfold Pop. destruct (Top s) as [|v vs] eqn:Htop; simpl.
    + by rewrite Hs, Htop.
    + simpl in Hs. lia.
Qed.

(** X23.  [Count] counts the elements on the stack.  Whatever pushes and
    pops are run on a new stack, none of them fails, and afterwards [Count]
    is the number of nodes on the chain from [Top]; a [Pop] on the empty
    stack changes nothing, so [Count] never goes below 0. *)
Theorem stack_Count_counts_elements (h : StackHeap.store)
    (ops : list StackHeap.stackOp) :
  let '(h1, es) := StackHeap.new_stack h in
  exists (h2 : StackHeap.store) (st : StackHeap.elementStack) (vs : list Element),
    StackHeap.run_ops h1 es ops = Returns h2
    /\ StackHeap.stacks h2 !! es = Some st
    /\ StackHeap.chain h2 (StackHeap.Top st) vs
    /\ vs = Top (foldl apply_op emptyStack ops)
    /\ StackHeap.Count st = Z.of_nat (length vs).
Proof.
  pose proof (new_stack_repr h) as Hrepr.
  destruct (StackHeap.new_stack h) as [h1 es]. simpl in Hrepr.
  destruct (heap_run_ops ops h1 es emptyStack Hrepr) as (h2 & Hrun & (st & Hst & Hchain & Hcount) & _).
  exists h2, st, (Top (foldl apply_op emptyStack ops)).
  split; [exact Hrun|]. split; [exact Hst|]. split; [exact Hchain|].
  split; [reflexivity|].
  rewrite Hcount. by apply apply_op_Count.
Qed.

Lemma strings_Join_snoc (l : list gostring) (x sep : gostring) :
  l <> [] -> strings_Join (l ++ [x]) sep = strings_Join l sep ++ sep ++ x.
Proof.
  induction l as [|a l IH]; [done|]. intros _.
  destruct l as [|b l]; [done|].
  change (strings_Join ((a :: b :: l) ++ [x]) sep)
    with (a ++ sep ++ strings_Join ((b :: l) ++ [x]) sep).
  rewrite IH by done.
  change (strings_Join (a :: b :: l) sep) with (a ++ sep ++ strings_Join (b :: l) sep).
  by rewrite <- !app_assoc.
Qed.

Lemma Pop_Push (s : elementStack) (e : Element) : Pop (Push s e) = (Some e, s).
Proof.
  unfold Pop, Push. simpl. destruct s as [top count]. simpl.
  do 2 f_equal. lia.
Qed.

(** X24.  Last in, first out.  After [Push(e)] on a stack, [Peek] returns
    [e], [ToString] is the rendering of the stack before followed by the
    separator and the name of [e] (the name alone when the stack was
    empty), and [Pop] returns [e] and leaves the stack as it was before
    the [Push], with its [Count]. *)
Theorem stack_last_in_first_out (h : StackHeap.store) (es : positive)
    (s : elementStack) (e : Element) (fuel : nat) :
  repr h es s ->
  length (Top s) < fuel ->
  exists h1 h2 : StackHeap.store,
    StackHeap.Push h es e = Returns h1
    /\ StackHeap.Peek h1 es = Returns (Some e)
    /\ StackHeap.ToString fuel h1 es
       = Returns (match Top s with
                  | [] => ElementName e
                  | _ => stack_ToString s ++ runes " > " ++ ElementName e
                  end)
    /\ StackHeap.Pop h1 es = Returns (h2, Some e)
    /\ repr h2 es s.
Proof.
  intros Hrepr Hfuel.
  destruct (heap_Push h es s e Hrepr) as (h1 & Hpush & Hrepr1 & _).
  destruct (heap_Pop h1 es (Push s e) Hrepr1) as (h2 & Hpop & Hrepr2 & _).
  rewrite Pop_Push in Hpop, Hrepr2. simpl in Hpop, Hrepr2.
  exists h1, h2. split; [exact Hpush|].
  split; [by rewrite (heap_Peek h1 es (Push s e) Hrepr1)|].
  split; [|split; [exact Hpop|exact Hrepr2]].
  rewrite (heap_ToString h1 es (Push s e) fuel Hrepr1) by (simpl; lia).
  f_equal. rewrite !stack_ToString_names. simpl.
  destruct (Top s) as [|v vs]; [done|].
  rewrite strings_Join_snoc; [done|].
  simpl. by destruct (rev (List.map ElementName vs)).
Qed.

(** ** Declarations and attributes without a value *)

Section BareAttributes.

Variable lower : rune -> rune.

(** X26.  A tag with one attribute that has no value, with or without a
    [!] after the [<]: the attribute is stored with the empty string as
    its value, under its lowercased name.  With the [!] -- a declaration
    such as a document type -- the record is void whatever its name, and
    what follows the name of the declaration is read as an attribute. *)
Theorem readTag_attribute_without_value (before : list rune) (bang : bool)
    (c0 : rune) (name : list rune) (w : rune) (gap : list rune) (k0 : rune)
    (key rest : list rune) :
  name_start c0 = true ->
  (bang = true -> is_rune "-" c0 = false) ->
  forallb name_char name = true ->
  isWhitespace w = true ->
  forallb isWhitespace gap = true ->
  forallb attr_char (k0 :: key) = true ->
  readTag lower
    (before ++ runes "<" ++ (if bang then runes "!" else []) ++ c0 :: name ++ [w]
       ++ gap ++ k0 :: key ++ runes ">" ++ rest)
    (length before)
  = Some (mkElement (ToLower lower (c0 :: name)) []
            (Some {[ ToLower lower (k0 :: key) := [] ]}) []
            false (bang || isKnownVoidElement lower (ToLower lower (c0 :: name)))
            false false false false,
          None,
          length before + 1 + (if bang then 1 else 0) + 1 + length name + 1
          + length gap + length (k0 :: key) + 1).
Proof.
  intros Hc0 Hbang Hname Hw Hgap Hkey.
  set (text := before ++ _).
  assert (Hstart : forall m, state m = T1 -> element_name m = EMPTY ->
            readTag_step lower m c0
            = Next (with_element_name (with_state m T10) (EMPTY ++ [c0]))).
  { intros m Hs Hen. unfold readTag_step. rewrite Hs, Hen.
    assert (is_rune "!" c0 = false) as -> by rune_cases.
    assert (is_rune "/" c0 = false) as -> by rune_cases.
    assert (is_rune ">" c0 = false) as -> by rune_cases.
    assert (isWhitespace c0 = false) as -> by rune_cases.
    reflexivity. }
  assert (Hk0 : forall m, state m = T20 ->
            readTag_step lower m k0 = Back (with_state m T100)).
  { intros m Hs. simpl in Hkey. apply andb_prop in Hkey as [Hk0 _].
    unfold readTag_step. rewrite Hs.
    assert (is_rune "/" k0 = false) as -> by rune_cases.
    assert (is_rune ">" k0 = false) as -> by rune_cases.
    assert (isWhitespace k0 = false) as -> by rune_cases.
    reflexivity. }
  assert (Htail : forall (m : tagMachine) (cursor : nat) r,
            1 <= cursor ->
            state m = T10 -> attr_name m = EMPTY ->
            drop cursor text = name ++ w :: gap ++ k0 :: key ++ runes ">" ++ rest ->
            r = (name_void_elem lower
                   (with_elem (with_element_name m (element_name m ++ name))
                      (set_attr (elem m) (ToLower lower (k0 :: key)) EMPTY)),
                 None,
                 cursor + length name + 1 + length gap + length (k0 :: key) + 1) ->
            runs lower text m cursor r).
  { intros m cursor r Hpos Hs Han Hdrop ->.
    eapply runs_name; [exact Hs|exact Hname|exact Hdrop|].
    apply drop_run in Hdrop.
    eapply runs_Next; [exact Hdrop| |].
    { unfold readTag_step. simpl state. rewrite Hs, Hw. reflexivity. }
    apply drop_tail in Hdrop.
    eapply runs_gap; [reflexivity|exact Hgap|exact Hdrop|].
    apply drop_run in Hdrop.
    eapply runs_Back; [lia|exact Hdrop|by apply Hk0|].
    eapply (runs_attr_name lower text (k0 :: key)); [reflexivity|exact Hkey|exact Hdrop|].
    apply (drop_run _ _ (k0 :: key)) in Hdrop.
    eapply runs_Back; [lia|exact Hdrop|reflexivity|].
    eapply runs_Return_eq; [exact Hdrop|reflexivity|].
    simpl. rewrite Han. reflexivity. }
  apply runs_readTag.
  destruct bang.
  - assert (Hdrop : drop (length before) text
                    = rune_of_ascii "<" :: rune_of_ascii "!" :: c0 :: name ++ w
                      :: gap ++ k0 :: key ++ runes ">" ++ rest)
      by (unfold text; by rewrite drop_app_length).
    eapply runs_Next; [exact Hdrop|reflexivity|]. apply drop_tail in Hdrop.
    eapply runs_Next; [exact Hdrop|reflexivity|]. apply drop_tail in Hdrop.
    eapply runs_Back; [lia|exact Hdrop| |].
    { unfold readTag_step. simpl state. rewrite (Hbang eq_refl). reflexivity. }
    eapply runs_Next; [exact Hdrop|by apply Hstart|]. apply drop_tail in Hdrop.
    eapply Htail; [lia|reflexivity|reflexivity|exact Hdrop|].
    first [reflexivity | f_equal; lia].
  - assert (Hdrop : drop (length before) text
                    = rune_of_ascii "<" :: c0 :: name ++ w
                      :: gap ++ k0 :: key ++ runes ">" ++ rest)
      by (unfold text; by rewrite drop_app_length).
    eapply runs_Next; [exact Hdrop|reflexivity|]. apply drop_tail in Hdrop.
    eapply runs_Next; [exact Hdrop|by apply Hstart|]. apply drop_tail in Hdrop.
    eapply Htail; [lia|reflexivity|reflexivity|exact Hdrop|].
    first [reflexivity | f_equal; lia].
Qed.

End BareAttributes.

(** ** The text of a tree *)

Lemma strings_Join_EMPTY (l : list gostring) : strings_Join l EMPTY = List.concat l.
Proof.
  induction l as [|a l IH]; [done|].
  destruct l as [|b l]; [simpl; by rewrite app_nil_r|].
  change (strings_Join (a :: b :: l) EMPTY) with (a ++ EMPTY ++ strings_Join (b :: l) EMPTY).
  by rewrite IH.
Qed.

Section Text.

Variable lower : rune -> rune.

(** X25.  [GetText] is the concatenation, in document order, of the
    [InnerHTML] of every descendant whose lowercased name is the lowercased
    internal name of text nodes -- whether or not it is a text node:
    appending a child appends the child's own [InnerHTML] if it has that
    name, then the text below the child.  Appending a text node appends its
    text. *)
Theorem GetText_in_document_order :
  (forall e c : Element,
      GetText lower (AddChild e c)
      = GetText lower e
        ++ (if bool_decide (ToLower lower ELEMENT_INTERNAL_TEXT
                            = ToLower lower (ElementName c))
            then InnerHTML c else [])
        ++ GetText lower c)
  /\ (forall (e : Element) (text : list rune),
        GetText lower (AddChild e (newTextNode text)) = GetText lower e ++ text)
  /\ (forall e : Element,
        GetText lower e
        = List.concat
            (List.map InnerHTML
               (List.filter
                  (fun c => bool_decide (ToLower lower ELEMENT_INTERNAL_TEXT
                                         = ToLower lower (ElementName c)))
                  (Flatten e)))).
Proof.
  assert (Hflat : forall e : Element,
        GetText lower e
        = List.concat
            (List.map InnerHTML
               (List.filter
                  (fun c => bool_decide (ToLower lower ELEMENT_INTERNAL_TEXT
                                         = ToLower lower (ElementName c)))
                  (Flatten e)))).
  { intros e. unfold GetText, GetElementsByTagName. apply strings_Join_EMPTY. }
  assert (Hadd : forall e c : Element,
      GetText lower (AddChild e c)
      = GetText lower e
        ++ (if bool_decide (ToLower lower ELEMENT_INTERNAL_TEXT
                            = ToLower lower (ElementName c))
            then InnerHTML c else [])
        ++ GetText lower c).
  { intros e c. rewrite !Hflat, Flatten_AddChild.
    rewrite List.filter_app, List.map_app, List.concat_app. f_equal.
    simpl. destruct (bool_decide _); simpl; [done|done]. }
  split; [exact Hadd|]. split; [|exact Hflat].
  intros e text. rewrite Hadd.
  replace (GetText lower (newTextNode text)) with (@nil rune) by (by rewrite Hflat).
  simpl. rewrite bool_decide_eq_true_2 by done. by rewrite app_nil_r.
Qed.

End Text.

(** ** Instances of the properties above *)

Lemma Flatten_descendants_in_document_order_witness :
  Flatten trailingElement = [].
Proof.
  apply (proj2 (proj2 Flatten_descendants_in_document_order)). reflexivity.
Defined.

Lemma GetElementById_first_match_witness :
  let c := mkElement (runes "p") [] (Some {[ runes "id" := runes "a" ]}) []
                     false false false false false false in
  let e := AddChild (AddChild rootElement trailingElement) c in
  exists before after : list Element,
    Flatten e = before ++ c :: after
    /\ attr_value_of c (runes "id") = runes "a"
    /\ Forall (fun d => attr_value_of d (runes "id") <> runes "a") before.
Proof.
  intros c e.
  apply (proj1 (GetElementById_first_match e (runes "a"))).
  vm_compute. reflexivity.
Defined.

Lemma HasClass_edge_cases_witness :
  HasClass asciiToLower
    (mkElement (runes "p") [] (Some {[ runes "class" := [] ]}) []
               false false false false false false)
    [] = true.
Proof.
  apply (proj2 (proj2 (proj2 (HasClass_edge_cases asciiToLower _)))).
  vm_compute. reflexivity.
Defined.

Lemma EqualTo_is_equality_of_the_compared_part_witness :
  EqualTo rootElement
    (mkElement [] [] None [] false false true false false true) = true.
Proof.
  apply (proj2 (proj2 EqualTo_is_equality_of_the_compared_part) rootElement
           (mkElement [] [] None [] true false false false false false));
    reflexivity.
Defined.

Lemma readTag_tag_without_attributes_witness :
  readTag asciiToLower (runes "x< /BR>y") 1
  = Some (plain_tag (runes "br") true true, None, 7).
Proof.
  exact (readTag_tag_without_attributes asciiToLower (runes "x") (runes " /")
           (rune_of_ascii "B") (runes "R") (runes "y") eq_refl eq_refl eq_refl).
Defined.

Lemma readTag_self_closing_stops_at_slash_witness :
  readTag asciiToLower (runes "<p />x") 0
  = Some (plain_tag (runes "p") true false, None, 4)
  /\ drop 4 (runes "<p />x") = runes ">x".
Proof.
  exact (readTag_self_closing_stops_at_slash asciiToLower [] (rune_of_ascii "p") []
           (runes " ") (runes ">x") eq_refl eq_refl eq_refl).
Defined.

Lemma Parse_self_closing_tag_leaves_gt_witness :
  let tree :=
    mkElement [] (runes "<br/>x") None
      [plain_tag (runes "br") true false; newTextNode (runes ">x"); trailingElement]
      false false false true false false in
  Parse asciiToLower (runes "<br/>x") = Returns (tree, None)
  /\ ParseStrict asciiToLower (runes "<br/>x") = Returns (tree, None).
Proof.
  apply (Parse_self_closing_tag_leaves_gt asciiToLower (rune_of_ascii "b") (runes "r")
           [] (runes "x")); try reflexivity.
  repeat constructor.
Defined.

Lemma readTag_comment_without_hyphen_witness :
  readTag asciiToLower (runes "<!--hi-->x") 0
  = Some (mkElement (runes "xmlcomment") (runes "hi") (Some ∅) []
            false true true false false false,
          None, 9).
Proof.
  exact (readTag_comment_without_hyphen asciiToLower [] (runes "hi") (runes "x") eq_refl).
Defined.

Lemma readTag_nameless_tag_error_witness :
  readTag asciiToLower (runes "< / >x") 0
  = Some (plain_tag [] false true, Some emptyTagError, 5).
Proof.
  exact (readTag_nameless_tag_error asciiToLower [] (runes " / ") (runes "x") eq_refl).
Defined.

Lemma readTag_quoted_attributes_witness :
  let attrs :=
    [mkQuotedAttr [] (rune_of_ascii "h") (runes "ref") quote_double (runes "a 'b'>");
     mkQuotedAttr [] (rune_of_ascii "C") (runes "lass") quote_single (runes "x")] in
  readTag asciiToLower
    ([] ++ runes "<" ++ rune_of_ascii "a" :: [] ++ [rune_of_ascii " "]
        ++ List.concat (List.map qa_text attrs) ++ runes " " ++ runes ">" ++ runes "t")
    (length (@nil rune))
  = Some (mkElement (ToLower asciiToLower (rune_of_ascii "a" :: [])) []
            (Some (attrs_map asciiToLower attrs)) []
            false (isKnownVoidElement asciiToLower
                     (ToLower asciiToLower (rune_of_ascii "a" :: [])))
            false false false false,
          None,
          length (@nil rune) + 1 + 1 + length (@nil rune) + 1
          + length (List.concat (List.map qa_text attrs)) + length (runes " ") + 1)
  /\ attrs_map asciiToLower attrs
     = {[ runes "href" := runes "a 'b'>"; runes "class" := runes "x" ]}.
Proof.
  intros attrs. split.
  - apply (readTag_quoted_attributes asciiToLower [] (rune_of_ascii "a") []
             (rune_of_ascii " ") attrs (runes " ") (runes "t")); reflexivity.
  - vm_compute. reflexivity.
Defined.

Lemma readTag_unquoted_value_reads_to_end_witness :
  readTag asciiToLower (runes "<a href=x>t</a>") 0
  = Some (plain_tag (runes "a") false false, None, 15).
Proof.
  apply (readTag_unquoted_value_reads_to_end asciiToLower [] (rune_of_ascii "a") []
           (rune_of_ascii " ") [] (rune_of_ascii "h") (runes "ref")
           (rune_of_ascii "x") (runes ">t</a>")); try reflexivity;
    vm_compute; discriminate.
Defined.

Lemma readTag_record_shape_witness :
  exists (e : Element) (err : option error) (cursor' : nat),
    readTag asciiToLower (runes "<a>") 0 = Some (e, err, cursor')
    /\ tag_shape e
    /\ (err = None \/ err = Some emptyTagError \/ err = Some almostCommentError)
    /\ 0 <= cursor' <= length (runes "<a>").
Proof. apply (readTag_record_shape asciiToLower (runes "<a>") 0). simpl. lia. Defined.

Lemma script_span_ends_at_first_lt_witness :
  readUntilScriptTagClose asciiToLower (runes "if(a<b){};</SCRIPT>x") 0
    (runes "text/javascript")
  = (runes "if(a", 19).
Proof.
  exact (script_span_ends_at_first_lt asciiToLower (runes "text/javascript") []
           (runes "if(a") (runes "b){};<") (runes "SCRIPT") (runes "x")
           eq_refl eq_refl eq_refl eq_refl).
Defined.

Lemma script_scanner_blocked_by_other_close_tag_witness :
  readUntilScriptTagClose asciiToLower (runes "a</b>c</script>x") 0
    (runes "text/javascript")
  = (runes "a</b>c</script>x", 16).
Proof.
  apply (script_scanner_blocked_by_other_close_tag asciiToLower
           (runes "text/javascript") [] (runes "a") [] (runes "b")
           (runes "c</script>x")); try reflexivity.
  intros suffix H. apply (f_equal head) in H. vm_compute in H. discriminate.
Defined.

Lemma script_scanner_result_witness :
  exists (span : list rune) (cursor' : nat),
    readUntilScriptTagClose asciiToLower (runes "a</script>") 0 (runes "text/javascript")
    = (span, cursor')
    /\ ((span = drop 0 (runes "a</script>") /\ cursor' = length (runes "a</script>"))
        \/ exists tag_start : nat,
             0 <= tag_start < cursor' /\ cursor' <= length (runes "a</script>")
             /\ span = slice (runes "a</script>") 0 tag_start
             /\ runes "a</script>" !! tag_start = Some (rune_of_ascii "<")
             /\ runes "a</script>" !! (cursor' - 1) = Some (rune_of_ascii ">")).
Proof.
  apply (script_scanner_result asciiToLower (runes "text/javascript")
           (runes "a</script>") 0).
  simpl. lia.
Defined.

Lemma ParseStrict_success_is_Parse_success_witness :
  exists tree : Element,
    ParseStrict asciiToLower (runes "<p>x</p>") = Returns (tree, None)
    /\ Parse asciiToLower (runes "<p>x</p>") = Returns (tree, None).
Proof.
  eexists. split.
  2:{ apply (proj1 (ParseStrict_success_is_Parse_success asciiToLower (runes "<p>x</p>"))).
      vm_compute. reflexivity. }
  vm_compute. reflexivity.
Defined.

Lemma parseChildren_only_appends_witness :
  let r :=
    mkResult
      (set_InnerHTML
         (AddChild (AddChild rootElement (newTextNode (runes "a"))) trailingElement)
         (runes "a"))
      1 emptyStack None in
  extends rootElement (r_parent r)
  /\ (r_stack r = emptyStack \/ r_stack r = snd (Pop emptyStack)).
Proof.
  intros r.
  apply (parseChildren_only_appends asciiToLower 1 rootElement (runes "a") 0
           emptyStack false r).
  vm_compute. reflexivity.
Defined.

Lemma stack_last_in_first_out_witness :
  let h0 := StackHeap.mkStore ∅ {[ 1%positive := StackHeap.mkStack None 0 ]} in
  exists h1 h2 : StackHeap.store,
    StackHeap.Push h0 1%positive test_br = Returns h1
    /\ StackHeap.Peek h1 1%positive = Returns (Some test_br)
    /\ StackHeap.ToString 1 h1 1%positive
       = Returns (match Top emptyStack with
                  | [] => ElementName test_br
                  | _ => stack_ToString emptyStack ++ runes " > " ++ ElementName test_br
                  end)
    /\ StackHeap.Pop h1 1%positive = Returns (h2, Some test_br)
    /\ repr h2 1%positive emptyStack.
Proof.
  intros h0.
  apply (stack_last_in_first_out h0 1%positive emptyStack test_br 1).
  - eexists. split; [reflexivity|]. split; [constructor|reflexivity].
  - simpl. lia.
Defined.

Lemma readTag_attribute_without_value_witness :
  readTag asciiToLower (runes "<!DOCTYPE html>x") 0
  = Some (mkElement (runes "doctype") [] (Some {[ runes "html" := [] ]}) []
            false true false false false false,
          None, 15).
Proof.
  apply (readTag_attribute_without_value asciiToLower [] true (rune_of_ascii "D")
           (runes "OCTYPE") (rune_of_ascii " ") [] (rune_of_ascii "h") (runes "tml")
           (runes "x")); reflexivity.
Defined.

(** ** Where a strict parse ends *)

Opaque readUntilTag readTag readUntilScriptTagClose.

Section StrictScan.

Variable lower : rune -> rune.

Lemma follows_scan_lift (body : list rune) (cursor cursor' : nat)
    (open : list Element) (o : outcome parseResult) :
  (forall res, strict_scan lower body cursor' open res ->
               strict_scan lower body cursor open res) ->
  follows_scan lower body cursor' open o ->
  follows_scan lower body cursor open o.
Proof.
  intros Hlift. destruct o as [r| |]; simpl; [|by apply Hlift|done].
  destruct (r_err r) as [e|].
  - intros (res & Hres & He). exists res. split; [by apply Hlift|done].
  - intros [[Hend Hscan] | (expected & outer & Hopen & Hrest)].
    + left. split; [done|by apply Hlift].
    + right. exists expected, outer. split; [done|].
      intros res Hres. by apply Hlift, Hrest.
Qed.

Lemma level_at_end (fuel : nat) (sc : bool) (body : list rune) (parse_start : nat)
    (parent : Element) (cursor : nat) (tagStack : elementStack) :
  length body <= cursor ->
  parseChildren_loop lower fuel sc body parse_start parent cursor tagStack
  = Returns (mkResult (set_InnerHTML parent (slice body parse_start cursor))
               cursor tagStack None).
Proof.
  intros Hge. destruct fuel; simpl; destruct (decide (cursor < length body)); done || lia.
Qed.

Lemma stack_ToString_path (st : elementStack) :
  Top st <> [] -> stack_ToString st = stack_path (Top st).
Proof.
  intros Hne. rewrite stack_ToString_names. unfold stack_path.
  by destruct (Top st).
Qed.

(** A level of the strict tree builder follows the scan. *)
Lemma strict_level_follows_scan (fuel : nat) :
  forall (body : list rune) (parse_start : nat) (parent : Element) (cursor : nat)
         (tagStack : elementStack),
    follows_scan lower body cursor (Top tagStack)
      (parseChildren_loop lower fuel true body parse_start parent cursor tagStack).
Proof.
  induction fuel as [|fuel IH]; intros body parse_start parent cursor tagStack.
  - simpl. destruct (decide (cursor < length body)); [done|].
    simpl. left. split; [lia|]. apply scan_end. lia.
  - destruct (decide (cursor < length body)) as [Hlt|Hge].
    2:{ rewrite level_at_end by lia. simpl. left. split; [lia|]. apply scan_end. lia. }
    simpl. destruct (decide (cursor < length body)); [|lia].
    destruct (readUntilTag body cursor) as [results cursor1] eqn:Hrut.
    assert (Hc1 : snd (readUntilTag body cursor) = cursor1) by (by rewrite Hrut).
    set (parent1 := if (0 <? length results) && negb (isContinuousWhitespace results)
                    then _ else _). clearbody parent1.
    destruct (readTag lower body cursor1) as [[[tag [err|]] c2]|] eqn:Hrt; [| |done].
    { simpl. exists (TokenError err). split; [|done].
      eapply scan_token_error; [done|]. rewrite Hc1. exact Hrt. }
    destruct (IsClose tag) eqn:Hclose.
    { unfold Peek. destruct (Top tagStack) as [|expected outer] eqn:Htop.
      - simpl. eapply scan_close_empty; [done| |done]. rewrite Hc1. exact Hrt.
      - destruct (bool_decide (ElementName expected = ElementName tag)) eqn:Hname.
        + apply bool_decide_eq_true in Hname. simpl. right.
          exists expected, outer. split; [done|]. intros res Hres.
          eapply scan_close_match; [done| |done|done|done]. rewrite Hc1. exact Hrt.
        + apply bool_decide_eq_false in Hname. simpl.
          exists (Mismatch tag expected c2 (expected :: outer)). split.
          * eapply scan_mismatch; [done| |done|done]. rewrite Hc1. exact Hrt.
          * simpl. rewrite stack_ToString_path by (by rewrite Htop).
            by rewrite Htop. }
    destruct (IsVoid tag) eqn:Hvoid.
    { eapply follows_scan_lift; [|apply IH].
      intros res Hres. eapply scan_void; [done| |done|done|done].
      rewrite Hc1. exact Hrt. }
    destruct (bool_decide (ElementName tag = runes "script")) eqn:Hscript.
    { apply bool_decide_eq_true in Hscript.
      destruct (readUntilScriptTagClose lower body c2 _) as [contents c3] eqn:Hjs.
      eapply follows_scan_lift; [|apply IH].
      intros res Hres. eapply scan_script; [done| |done|done|done|].
      - rewrite Hc1. exact Hrt.
      - unfold script_type_of. by rewrite Hjs. }
    apply bool_decide_eq_false in Hscript.
    assert (Hopen : forall res,
              strict_scan lower body c2 (tag :: Top tagStack) res ->
              strict_scan lower body cursor (Top tagStack) res).
    { intros res Hres. eapply scan_open; [done| |done|done|done|done].
      rewrite Hc1. exact Hrt. }
    destruct (decide (length body = 0)); [lia|].
    pose proof (IH body c2 tag c2 (Push (Duplicate tagStack) tag)) as Hchild.
    rewrite Push_Top, Duplicate_Top in Hchild.
    destruct (parseChildren_loop lower fuel true body c2 tag c2
                (Push (Duplicate tagStack) tag)) as [rc| |]; [| |done].
    2:{ simpl in *. by apply Hopen. }
    simpl in Hchild.
    destruct (r_err rc) as [e|].
    + simpl. destruct Hchild as (res & Hres & He).
      exists res. split; [by apply Hopen|done].
    + destruct Hchild as [[Hend Hscan] | (expected & outer & Heq & Hrest)].
      * rewrite level_at_end by lia. simpl. left. split; [lia|by apply Hopen].
      * injection Heq as <- <-.
        eapply follows_scan_lift; [|apply IH].
        intros res Hres. by apply Hopen, Hrest.
Qed.

Lemma strict_scan_functional (body : list rune) (cursor : nat) (open : list Element)
    (res res' : scanEnd) :
  strict_scan lower body cursor open res ->
  strict_scan lower body cursor open res' ->
  res = res'.
Proof.
  intros H. revert res'.
  induction H; intros res' H'; inversion H'; subst;
    repeat match goal with
           | H1 : readTag lower ?b ?c = _, H2 : readTag lower ?b ?c = _ |- _ =>
               rewrite H1 in H2; injection H2 as ? ?; subst
           end;
    try congruence; try lia; auto.
Qed.

Lemma strict_scan_TokenError (body : list rune) (cursor : nat) (open : list Element)
    (res : scanEnd) :
  strict_scan lower body cursor open res ->
  forall e, res = TokenError e -> e = emptyTagError \/ e = almostCommentError.
Proof.
  induction 1; intros e He; try discriminate; eauto.
  injection He as <-. eapply readTag_error. eassumption.
Qed.

Lemma strict_scan_Mismatch (body : list rune) (cursor : nat) (open0 : list Element)
    (res : scanEnd) :
  strict_scan lower body cursor open0 res ->
  forall tag expected c2 open,
    res = Mismatch tag expected c2 open ->
    IsClose tag = true
    /\ (exists outer, open = expected :: outer)
    /\ ElementName expected <> ElementName tag
    /\ exists c1, c1 <= c2 <= length body
                  /\ readTag lower body c1 = Some (tag, None, c2).
Proof.
  induction 1; intros tag expected c2 open' He; try discriminate; eauto.
  injection He as <- <- <- <-.
  split; [done|]. split; [by eexists|]. split; [done|].
  exists (snd (readUntilTag body cursor)).
  split; [|done].
  pose proof (readUntilTag_bounds body cursor ltac:(lia)) as Hb.
  destruct (readTag_total lower body (snd (readUntilTag body cursor)) ltac:(lia))
    as (e' & err' & c' & Hr & Hc & _).
  rewrite Hr in *. match goal with H : Some _ = Some _ |- _ => injection H as -> -> -> end.
  lia.
Qed.

(** C4.  [ParseStrict] returns an error other than the two errors of the
    tokenizer exactly when the scan of the input ends at a mismatch: at the
    first close tag whose name is not the name of the innermost open
    container.  The text of the error is made of the name of that close
    tag, the name of that container (the top of the stack of that level),
    a line number and the names of the open containers, outermost first,
    joined by [" > "].  The line number is what [countNewlinesBefore]
    returns for the cursor that [readTag] left after the close tag: it
    starts at 0, and on an input of single-byte characters it is the
    number of newline characters before that cursor. *)
Theorem C4_strict_mismatch_error (body : list rune) :
  (forall (root : Element) (e : error),
      ParseStrict lower body = Returns (root, Some e) ->
      e <> emptyTagError ->
      e <> almostCommentError ->
      exists (tag expected : Element) (c2 : nat) (open : list Element),
        strict_scan lower body 0 [] (Mismatch tag expected c2 open)
        /\ (forall res, strict_scan lower body 0 [] res ->
                        res = Mismatch tag expected c2 open)
        /\ IsClose tag = true
        /\ (exists outer, open = expected :: outer)
        /\ ElementName expected <> ElementName tag
        /\ (exists c1, c1 <= c2 <= length body
                       /\ readTag lower body c1 = Some (tag, None, c2))
        /\ Error e =
             runes "unexpected close </" ++ ElementName tag ++ runes "> (expected </"
             ++ ElementName expected ++ runes ">) on line: "
             ++ decimal (countNewlinesBefore (utf8_encode body) c2)
             ++ runes "
current path: " ++ strings_Join (rev (List.map ElementName open)) (runes " > ")
        /\ (Forall single_byte body ->
            countNewlinesBefore (utf8_encode body) c2 = count_newlines (take c2 body)))
  /\ (forall (tag expected : Element) (c2 : nat) (open : list Element),
        strict_scan lower body 0 [] (Mismatch tag expected c2 open) ->
        exists root : Element,
          ParseStrict lower body
          = Returns (root,
                     Some (errors_New
                             (mismatch_text (ElementName tag) (ElementName expected)
                                (countNewlinesBefore (utf8_encode body) c2)
                                (stack_path open))))).
Proof.
  pose proof (strict_level_follows_scan (length body) body 0 rootElement 0 emptyStack)
    as Hfollows.
  pose proof (parseChildren_loop_terminates lower (length body) true body 0 rootElement
                0 emptyStack ltac:(lia) ltac:(lia)) as Hterm.
  split.
  - intros root e Hrun Hne1 Hne2.
    unfold ParseStrict, parseChildren in Hrun.
    destruct (decide (length body = 0)); [done|].
    destruct (parseChildren_loop lower (length body) true body 0 rootElement 0 emptyStack)
      as [r| |]; try done.
    injection Hrun as <- Herr. simpl in Hfollows. rewrite Herr in Hfollows.
    destruct Hfollows as (res & Hres & He).
    destruct res as [ |e'| |tag expected c2 open]; try done.
    { injection He as ->.
      destruct (strict_scan_TokenError _ _ _ _ Hres e eq_refl); done. }
    injection He as <-.
    destruct (strict_scan_Mismatch _ _ _ _ Hres _ _ _ _ eq_refl)
      as (Hclose & Hopen & Hname & Hread).
    exists tag, expected, c2, open.
    split; [exact Hres|]. split.
    { intros res' Hres'. by eapply strict_scan_functional. }
    split; [done|]. split; [done|]. split; [done|]. split; [done|]. split.
    + unfold mismatch_text, Error, stack_path. by rewrite <- !app_assoc.
    + intros Hascii. by rewrite utf8_encode_single_byte, countNewlinesBefore_take.
  - intros tag expected c2 open Hscan.
    unfold ParseStrict, parseChildren.
    destruct (decide (length body = 0)) as [Hz|Hnz].
    { exfalso. inversion Hscan; lia. }
    destruct (parseChildren_loop lower (length body) true body 0 rootElement 0 emptyStack)
      as [r| |]; simpl in Hfollows, Hterm; [| |done].
    + destruct (r_err r) as [e|] eqn:Herr.
      * destruct Hfollows as (res & Hres & He).
        rewrite (strict_scan_functional _ _ _ _ _ Hres Hscan) in He.
        simpl in He. injection He as <-. by exists (r_parent r).
      * destruct Hfollows as [[_ Hend] | (x & outer & Heq & _)]; [|done].
        by pose proof (strict_scan_functional _ _ _ _ _ Hend Hscan).
    + by pose proof (strict_scan_functional _ _ _ _ _ Hfollows Hscan).
Qed.

End StrictScan.

Transparent readUntilTag readTag readUntilScriptTagClose.

Lemma C4_strict_mismatch_error_witness :
  let body := runes "<div>
<b>x</p>" in
  exists (tag expected : Element) (c2 : nat) (open : list Element),
    strict_scan asciiToLower body 0 [] (Mismatch tag expected c2 open)
    /\ (forall res, strict_scan asciiToLower body 0 [] res ->
                    res = Mismatch tag expected c2 open)
    /\ IsClose tag = true
    /\ (exists outer, open = expected :: outer)
    /\ ElementName expected <> ElementName tag
    /\ (exists c1, c1 <= c2 <= length body
                   /\ readTag asciiToLower body c1 = Some (tag, None, c2))
    /\ runes "unexpected close </p> (expected </b>) on line: 1
current path: div > b" =
         runes "unexpected close </" ++ ElementName tag ++ runes "> (expected </"
         ++ ElementName expected ++ runes ">) on line: "
         ++ decimal (countNewlinesBefore (utf8_encode body) c2)
         ++ runes "
current path: " ++ strings_Join (rev (List.map ElementName open)) (runes " > ")
    /\ (Forall single_byte body ->
        countNewlinesBefore (utf8_encode body) c2 = count_newlines (take c2 body)).
Proof.
  intros body.
  eapply (proj1 (C4_strict_mismatch_error asciiToLower body) _
            (errors_New (runes "unexpected close </p> (expected </b>) on line: 1
current path: div > b"))).
  - vm_compute. reflexivity.
  - vm_compute. discriminate.
  - vm_compute. discriminate.
Defined.

(** ** Text at the end of the input *)

Opaque readUntilTag readTag readUntilScriptTagClose.

Section TrailingText.

Variable lower : rune -> rune.

Lemma Flatten_set_InnerHTML (e : Element) (v : gostring) :
  Flatten (set_InnerHTML e v) = Flatten e.
Proof. by rewrite !Flatten_flat_map. Qed.

Lemma Flatten_with_text (parent : Element) (results : list rune) :
  exists mid, Flatten (with_text parent results) = Flatten parent ++ mid.
Proof.
  unfold with_text. destruct (_ && _).
  - rewrite Flatten_AddChild. by eexists.
  - exists []. by rewrite app_nil_r.
Qed.

(** A level that returns without error, when the iterations that start at
    its cursor come to the text at the end of the input: either the level
    has read that text, its cursor is at the end of the input and the last
    two descendants of its element are the text node and the empty record;
    or it has returned before, at the close tag of its container. *)
Lemma trailing_level (fuel : nat) :
  forall (sc : bool) (body : list rune) (parse_start : nat) (parent : Element)
         (cursor : nat) (tagStack : elementStack) (r : parseResult) (c : nat),
    parseChildren_loop lower fuel sc body parse_start parent cursor tagStack
    = Returns r ->
    r_err r = None ->
    iterates lower body cursor c ->
    c < length body ->
    Forall (fun ch => is_rune "<" ch = false) (drop c body) ->
    isContinuousWhitespace (drop c body) = false ->
    (r_cursor r = length body
     /\ exists mid,
          Flatten (r_parent r)
          = Flatten parent ++ mid ++ [newTextNode (drop c body); trailingElement])
    \/ (iterates lower body (r_cursor r) c /\ Peek tagStack <> None).
Proof.
  induction fuel as [|fuel IH];
    intros sc body parse_start parent cursor tagStack r c Hrun Herr Hit Hc Hall Hws.
  { simpl in Hrun. destruct (decide (cursor < length body)); [done|].
    inversion Hit; subst; lia. }
  destruct (decide (cursor < length body)) as [Hlt|Hge].
  2:{ inversion Hit; subst; lia. }
  inversion Hit as [|a a' c' Ha Hnext Hit']; subst.
  { (* the text starts here *)
    rewrite (trailing_iteration lower fuel sc body parse_start parent c tagStack
               (drop c body) Hlt) in Hrun
      by (apply readUntilTag_no_tag; [lia|done]).
    injection Hrun as <-. cbn [r_parent r_cursor]. left. split; [done|]. exists [].
    rewrite Flatten_set_InnerHTML, Flatten_AddChild. unfold with_text.
    rewrite Hws, (isContinuousWhitespace_false_length _ Hws).
    cbn [andb negb]. rewrite Flatten_AddChild.
    replace (Flatten (newTextNode (drop c body))) with (@nil Element) by done.
    replace (Flatten trailingElement) with (@nil Element) by done.
    by rewrite <- !app_assoc. }
  simpl in Hrun. destruct (decide (cursor < length body)); [|lia].
  unfold next_cursor in Hnext.
  destruct (readUntilTag body cursor) as [results cursor1] eqn:Hrut.
  simpl in Hnext.
  destruct (Flatten_with_text parent results) as [mid0 Hmid0].
  fold (with_text parent results) in Hrun.
  set (parent1 := with_text parent results) in *. clearbody parent1.
  assert (Hrest : forall p ps cur st r',
            parseChildren_loop lower fuel sc body ps p cur st = Returns r' ->
            r_err r' = None ->
            iterates lower body cur c ->
            (exists mid1, Flatten p = Flatten parent ++ mid1) ->
            (r_cursor r' = length body
             /\ exists mid,
                  Flatten (r_parent r')
                  = Flatten parent ++ mid ++ [newTextNode (drop c body); trailingElement])
            \/ (iterates lower body (r_cursor r') c /\ Peek st <> None)).
  { intros p ps cur st r' Hrun' Herr' Hit'' [mid1 Hmid1].
    destruct (IH _ _ _ _ _ _ _ _ Hrun' Herr' Hit'' Hc Hall Hws)
      as [[Hend [mid Hmid]] | Hback]; [left|by right].
    split; [done|]. exists (mid1 ++ mid). by rewrite Hmid, Hmid1, <- !app_assoc. }
  destruct (readTag lower body cursor1) as [[[tag [err|]] c2]|] eqn:Hrt; try done.
  destruct (IsClose tag) eqn:Hclose.
  { injection Hnext as <-.
    destruct (Peek tagStack) as [expected|] eqn:Hpeek; [|done].
    destruct (bool_decide (ElementName expected = ElementName tag)).
    - injection Hrun as <-. cbn [r_cursor]. right. by split.
    - destruct sc; [injection Hrun as <-; done|].
      rewrite <- Hpeek. eapply Hrest; [exact Hrun|done|done|by eexists]. }
  destruct (IsVoid tag) eqn:Hvoid.
  { injection Hnext as <-.
    eapply Hrest; [exact Hrun|done|done|].
    rewrite Flatten_AddChild, Hmid0, <- app_assoc. by eexists. }
  destruct (bool_decide (ElementName tag = runes "script")) eqn:Hscript.
  { unfold script_type_of in Hnext.
    destruct (readUntilScriptTagClose lower body c2 _) as [contents c3] eqn:Hjs.
    injection Hnext as <-.
    eapply Hrest; [exact Hrun|done|done|].
    rewrite Flatten_AddChild, Hmid0, <- app_assoc. by eexists. }
  injection Hnext as <-.
  destruct (decide (length body = 0)); [lia|].
  destruct (parseChildren_loop lower fuel sc body c2 tag c2 (Push (Duplicate tagStack) tag))
    as [rc| |] eqn:Hchild; try done.
  destruct (r_err rc) as [e|] eqn:Herrc.
  { injection Hrun as <-. done. }
  destruct (IH _ _ _ _ _ _ _ _ Hchild Herrc Hit' Hc Hall Hws)
    as [[Hend [mid Hmid]] | [Hback _]].
  - rewrite level_at_end in Hrun by lia.
    injection Hrun as <-. cbn [r_parent r_cursor]. left. split; [done|].
    rewrite Flatten_set_InnerHTML, Flatten_AddChild, Hmid0, Hmid.
    exists (mid0 ++ r_parent rc :: Flatten tag ++ mid).
    repeat (rewrite <- app_assoc || rewrite <- app_comm_cons). reflexivity.
  - eapply Hrest; [exact Hrun|done|done|].
    rewrite Flatten_AddChild, Hmid0, <- app_assoc. by eexists.
Qed.

(** C10.  Text at the end of the input (no ["<"], not only whitespace).
    At whatever level and in whatever mode the tree builder starts an
    iteration where that text starts, the iteration appends the text node
    and then one more child, the empty record that [readTag] returns at
    the end of the input, and the level returns without error.  So when a
    parse that comes to the text returns without error, the text node and
    the empty record are the last two nodes of the tree in document order;
    and an input that is such a text as a whole -- ["hello"] -- gives a
    root with exactly these two children.  The parse need not come to the
    text or return without error. *)
Theorem C10_trailing_text_appends_empty_element :
  (forall (fuel : nat) (sc : bool) (body : list rune) (parse_start : nat)
          (parent : Element) (cursor : nat) (tagStack : elementStack),
      cursor < length body ->
      Forall (fun c => is_rune "<" c = false) (drop cursor body) ->
      isContinuousWhitespace (drop cursor body) = false ->
      parseChildren_loop lower (S fuel) sc body parse_start parent cursor tagStack
      = Returns (mkResult
                   (set_InnerHTML
                      (AddChild (AddChild parent (newTextNode (drop cursor body)))
                                (mkElement [] [] (Some ∅) [] false false false false
                                           false false))
                      (slice body parse_start (length body)))
                   (length body) tagStack None))
  /\ (forall (body : list rune) (c : nat) (tree : Element),
        iterates lower body 0 c ->
        c < length body ->
        Forall (fun ch => is_rune "<" ch = false) (drop c body) ->
        isContinuousWhitespace (drop c body) = false ->
        Parse lower body = Returns (tree, None)
        \/ ParseStrict lower body = Returns (tree, None) ->
        exists earlier : list Element,
          Flatten tree
          = earlier ++ [newTextNode (drop c body);
                        mkElement [] [] (Some ∅) [] false false false false false false])
  /\ (forall body : list rune,
        Forall (fun c => is_rune "<" c = false) body ->
        isContinuousWhitespace body = false ->
        Parse lower body
        = Returns (mkElement [] body None
                     [newTextNode body;
                      mkElement [] [] (Some ∅) [] false false false false false false]
                     false false false true false false,
                   None))
  /\ Parse lower (runes "hello")
     = Returns (mkElement [] (runes "hello") None
                  [mkElement (runes "text") (runes "hello") None [] true true false
                             false false false;
                   mkElement [] [] (Some ∅) [] false false false false false false]
                  false false false true false false,
                None).
Proof.
  assert (Hlevel : forall fuel sc body parse_start parent cursor tagStack,
      cursor < length body ->
      Forall (fun c => is_rune "<" c = false) (drop cursor body) ->
      isContinuousWhitespace (drop cursor body) = false ->
      parseChildren_loop lower (S fuel) sc body parse_start parent cursor tagStack
      = Returns (mkResult
                   (set_InnerHTML
                      (AddChild (AddChild parent (newTextNode (drop cursor body)))
                                trailingElement)
                      (slice body parse_start (length body)))
                   (length body) tagStack None)).
  { intros fuel sc body parse_start parent cursor tagStack Hlt Hall Hws.
    rewrite (trailing_iteration lower fuel sc body parse_start parent cursor tagStack
               (drop cursor body) Hlt).
    - unfold with_text.
      by rewrite Hws, (isContinuousWhitespace_false_length _ Hws).
    - apply readUntilTag_no_tag; [lia|done]. }
  assert (Hwhole : forall body : list rune,
        Forall (fun c => is_rune "<" c = false) body ->
        isContinuousWhitespace body = false ->
        Parse lower body
        = Returns (mkElement [] body None [newTextNode body; trailingElement]
                     false false false true false false, None)).
  { intros body Hall Hws. unfold Parse, parseChildren.
    destruct (decide (length body = 0)) as [Hz|Hnz].
    { destruct body; [done|]. done. }
    destruct body as [|c body]; [done|].
    pose proof (Hlevel (length body) false (c :: body) 0 rootElement 0 emptyStack
                  ltac:(simpl; lia) Hall Hws) as Hrun.
    change (S (length body)) with (length (c :: body)) in Hrun.
    rewrite Hrun. simpl. rewrite slice_full_from. reflexivity. }
  assert (Hreached : forall (sc : bool) (body : list rune) (c : nat) (r : parseResult),
        iterates lower body 0 c ->
        c < length body ->
        Forall (fun ch => is_rune "<" ch = false) (drop c body) ->
        isContinuousWhitespace (drop c body) = false ->
        parseChildren lower (length body) rootElement body 0 emptyStack sc = Returns r ->
        r_err r = None ->
        exists earlier : list Element,
          Flatten (r_parent r)
          = earlier ++ [newTextNode (drop c body); trailingElement]).
  { intros sc body c r Hit Hc Hall Hws Hrun Herr. unfold parseChildren in Hrun.
    destruct (decide (length body = 0)); [lia|].
    destruct (trailing_level _ _ _ _ _ _ _ _ _ Hrun Herr Hit Hc Hall Hws)
      as [[_ [mid Hmid]] | [_ Hpeek]]; [|done].
    exists mid. by rewrite Hmid. }
  split; [exact Hlevel|]. split; [|split; [exact Hwhole|]].
  - intros body c tree Hit Hc Hall Hws [Hrun | Hrun].
    + unfold Parse in Hrun.
      destruct (parseChildren lower (length body) rootElement body 0 emptyStack false)
        as [r| |] eqn:Hp; try done.
      injection Hrun as <- Herr. by eapply Hreached.
    + unfold ParseStrict in Hrun.
      destruct (parseChildren lower (length body) rootElement body 0 emptyStack true)
        as [r| |] eqn:Hp; try done.
      injection Hrun as <- Herr. by eapply Hreached.
  - apply Hwhole; [|by vm_compute].
    repeat constructor.
Qed.

End TrailingText.

Transparent readUntilTag readTag readUntilScriptTagClose.

(** ** The tokens of well-formed markup *)

Lemma readUntilTag_loop_text (body : list rune) (text : list rune) :
  forall (cursor fuel : nat) (rest : list rune),
    drop cursor body = text ++ rest ->
    Forall (fun c => is_rune "<" c = false) text ->
    readUntilTag_loop (length text + fuel) body cursor
    = readUntilTag_loop fuel body (cursor + length text).
Proof.
  induction text as [|a text IH]; intros cursor fuel rest Hdrop Hall.
  - simpl. by rewrite Nat.add_0_r.
  - inversion Hall as [|? ? Ha Hall']; subst.
    assert (Hc : body !! cursor = Some a).
    { rewrite <- (Nat.add_0_r cursor), <- lookup_drop, Hdrop. done. }
    simpl. rewrite Hc, Ha, andb_false_r.
    rewrite (IH (cursor + 1) fuel rest); [f_equal; lia| |done].
    by rewrite <- drop_drop, Hdrop.
Qed.

(** [readUntilTag] reads the text before a tag. *)
Lemma readUntilTag_text (body : list rune) (cursor : nat) (text rest : list rune) :
  drop cursor body = text ++ rune_of_ascii "<" :: rest ->
  Forall (fun c => is_rune "<" c = false) text ->
  readUntilTag body cursor = (text, cursor + length text).
Proof.
  intros Hdrop Hall. unfold readUntilTag.
  assert (Hlen : length body - cursor = length text + S (length rest)).
  { rewrite <- length_drop, Hdrop, length_app. done. }
  rewrite Hlen, (readUntilTag_loop_text body text cursor _ _ Hdrop Hall).
  assert (Hc : body !! (cursor + length text) = Some (rune_of_ascii "<")).
  { rewrite <- (Nat.add_0_r (cursor + length text)), <- lookup_drop, <- drop_drop, Hdrop.
    by rewrite drop_app_length. }
  simpl. rewrite Hc. simpl. unfold slice. rewrite Hdrop.
  replace (cursor + length text - cursor) with (length text) by lia.
  by rewrite take_app_length.
Qed.

Section MarkupTokens.

Variable lower : rune -> rune.

Lemma readTag_step_name_start (m : tagMachine) (c0 : rune) :
  state m = T1 ->
  name_start c0 = true ->
  readTag_step lower m c0
  = Next (with_element_name (with_state m T10) (element_name m ++ [c0])).
Proof.
  intros Hs Hc0. unfold readTag_step. rewrite Hs.
  assert (is_rune "!" c0 = false) as -> by rune_cases.
  assert (is_rune "/" c0 = false) as -> by rune_cases.
  assert (is_rune ">" c0 = false) as -> by rune_cases.
  assert (isWhitespace c0 = false) as -> by rune_cases.
  reflexivity.
Qed.

(** An open tag, with quoted attributes if any. *)
Lemma readTag_open_tag (before rest : list rune) (c0 : rune) (name : list rune)
    (attrs : list quotedAttr) :
  name_start c0 = true ->
  forallb name_char name = true ->
  forallb qa_ok attrs = true ->
  readTag lower (before ++ open_tag_text (c0 :: name) attrs ++ rest) (length before)
  = Some (mkElement (ToLower lower (c0 :: name)) [] (Some (attrs_map lower attrs)) []
            false (isKnownVoidElement lower (ToLower lower (c0 :: name)))
            false false false false,
          None,
          length before + length (open_tag_text (c0 :: name) attrs)).
Proof.
  intros Hc0 Hname Hattrs.
  set (text := before ++ _).
  apply runs_readTag.
  destruct attrs as [|a attrs].
  - assert (Hdrop : drop (length before) text
                    = rune_of_ascii "<" :: c0 :: name ++ rune_of_ascii ">" :: rest).
    { unfold text, open_tag_text. rewrite drop_app_length. simpl.
      repeat (rewrite <- app_assoc; simpl). reflexivity. }
    eapply runs_Next; [exact Hdrop|reflexivity|]. apply drop_tail in Hdrop.
    eapply runs_Next; [exact Hdrop|by apply readTag_step_name_start|].
    apply drop_tail in Hdrop.
    eapply runs_name; [reflexivity|exact Hname|exact Hdrop|].
    apply drop_run in Hdrop.
    eapply runs_Return_eq; [exact Hdrop|reflexivity|].
    f_equal. unfold open_tag_text. simpl. rewrite !length_app. simpl. lia.
  - assert (Htext : open_tag_text (c0 :: name) (a :: attrs)
                    = runes "<" ++ (c0 :: name) ++ (runes " "
                        ++ List.concat (List.map qa_text (a :: attrs))) ++ runes ">")
      by reflexivity.
    remember (a :: attrs) as attrs' eqn:Hattrs'. clear Hattrs' a attrs.
    assert (Hdrop : drop (length before) text
                    = rune_of_ascii "<" :: c0 :: name ++ rune_of_ascii " "
                      :: List.concat (List.map qa_text attrs') ++ [] ++ runes ">" ++ rest).
    { unfold text. rewrite drop_app_length, Htext. simpl.
      repeat (rewrite <- app_assoc; simpl). reflexivity. }
    eapply runs_Next; [exact Hdrop|reflexivity|]. apply drop_tail in Hdrop.
    eapply runs_Next; [exact Hdrop|by apply readTag_step_name_start|].
    apply drop_tail in Hdrop.
    eapply runs_name; [reflexivity|exact Hname|exact Hdrop|].
    apply drop_run in Hdrop.
    eapply runs_Next; [exact Hdrop|reflexivity|].
    apply drop_tail in Hdrop.
    eapply (runs_quoted_attrs lower text (c0 :: name) attrs'
              (set_Attributes zeroElement (Some ∅)) 0%Z);
      [lia|exact Hattrs|exact Hdrop|].
    intros q'. apply drop_run in Hdrop.
    eapply (runs_Return_eq lower text _ _ _ _
              (name_void_elem lower
                 (mkTagMachine T20
                    (foldl (store_quoted lower) (set_Attributes zeroElement (Some ∅)) attrs')
                    EMPTY EMPTY (c0 :: name) q')) None);
      [exact Hdrop|reflexivity|].
    rewrite name_void_elem_quoted. f_equal.
    rewrite Htext. simpl. rewrite !length_app. simpl. rewrite !length_app. simpl. lia.
Qed.

(** A close tag. *)
Lemma readTag_close_tag (before rest : list rune) (c0 : rune) (name : list rune) :
  name_start c0 = true ->
  forallb name_char name = true ->
  readTag lower (before ++ close_tag_text (c0 :: name) ++ rest) (length before)
  = Some (plain_tag (ToLower lower (c0 :: name))
            (isKnownVoidElement lower (ToLower lower (c0 :: name))) true,
          None,
          length before + length (close_tag_text (c0 :: name))).
Proof.
  intros Hc0 Hname.
  set (text := before ++ _).
  assert (Hdrop : drop (length before) text
                  = rune_of_ascii "<" :: rune_of_ascii "/" :: c0 :: name
                    ++ rune_of_ascii ">" :: rest).
  { unfold text, close_tag_text. rewrite drop_app_length. simpl.
    by rewrite <- !app_assoc. }
  apply runs_readTag.
  eapply runs_Next; [exact Hdrop|reflexivity|]. apply drop_tail in Hdrop.
  eapply runs_Next; [exact Hdrop|reflexivity|]. apply drop_tail in Hdrop.
  eapply runs_Next; [exact Hdrop|by apply readTag_step_name_start|].
  apply drop_tail in Hdrop.
  eapply runs_name; [reflexivity|exact Hname|exact Hdrop|].
  apply drop_run in Hdrop.
  eapply runs_Return_eq; [exact Hdrop|reflexivity|].
  f_equal. unfold close_tag_text. simpl. rewrite !length_app. simpl. lia.
Qed.

(** A comment whose text holds no [-]. *)
Lemma readTag_plain_comment (before rest body : list rune) :
  forallb (fun c => negb (is_rune "-" c)) body = true ->
  readTag lower (before ++ (runes "<!--" ++ body ++ runes "-->") ++ rest)
    (length before)
  = Some (mkElement (ToLower lower ELEMENT_INTERNAL_XML_COMMENT) body (Some ∅) []
            false true true false false false,
          None,
          length before + length (runes "<!--" ++ body ++ runes "-->")).
Proof.
  intros Hbody.
  set (text := before ++ _).
  assert (Hdrop : drop (length before) text
                  = rune_of_ascii "<" :: rune_of_ascii "!" :: rune_of_ascii "-"
                    :: rune_of_ascii "-" :: body ++ runes "-->" ++ rest).
  { unfold text. rewrite drop_app_length. simpl.
    repeat (rewrite <- app_assoc; simpl). reflexivity. }
  apply runs_readTag.
  eapply runs_Next; [exact Hdrop|reflexivity|]. apply drop_tail in Hdrop.
  eapply runs_Next; [exact Hdrop|reflexivity|]. apply drop_tail in Hdrop.
  eapply runs_Next; [exact Hdrop|reflexivity|]. apply drop_tail in Hdrop.
  eapply runs_Next; [exact Hdrop|reflexivity|]. apply drop_tail in Hdrop.
  eapply runs_comment; [reflexivity|exact Hbody|exact Hdrop|].
  apply drop_run in Hdrop. apply drop_tail in Hdrop.
  eapply runs_Next; [exact Hdrop|reflexivity|]. apply drop_tail in Hdrop.
  eapply runs_Return_eq; [exact Hdrop|reflexivity|].
  f_equal. simpl. rewrite !length_app. simpl. lia.
Qed.

End MarkupTokens.

(** ** The tree builder on well-formed markup *)

Opaque readUntilTag readTag readUntilScriptTagClose.

Section Absorb.

Variable lower : rune -> rune.

(** Any number of iterations that is enough gives the level. *)
Lemma level_fuel (fuel : nat) (sc : bool) (body : list rune) (parse_start : nat)
    (parent : Element) (cursor : nat) (tagStack : elementStack) :
  cursor <= length body ->
  length body - cursor <= fuel ->
  parseChildren_loop lower fuel sc body parse_start parent cursor tagStack
  = level lower sc body parse_start parent cursor tagStack.
Proof.
  intros Hle Hfuel. unfold level.
  pose proof (parseChildren_loop_terminates lower fuel sc body parse_start parent
                cursor tagStack Hle Hfuel) as H1.
  pose proof (parseChildren_loop_terminates lower (length body) sc body parse_start
                parent cursor tagStack Hle ltac:(lia)) as H2.
  destruct (decide (fuel <= length body)).
  - symmetry. apply parseChildren_loop_fuel_mono; [lia|].
    intros Heq. by rewrite Heq in H1.
  - apply parseChildren_loop_fuel_mono; [lia|].
    intros Heq. by rewrite Heq in H2.
Qed.

Lemma level_end (sc : bool) (body : list rune) (parse_start : nat)
    (parent : Element) (cursor : nat) (tagStack : elementStack) :
  length body <= cursor ->
  level lower sc body parse_start parent cursor tagStack
  = Returns (mkResult (set_InnerHTML parent (slice body parse_start cursor))
               cursor tagStack None).
Proof. intros Hge. unfold level. by apply level_at_end. Qed.

Lemma level_trailing (sc : bool) (body : list rune) (parse_start : nat)
    (parent : Element) (cursor : nat) (tagStack : elementStack)
    (results : list rune) :
  cursor < length body ->
  readUntilTag body cursor = (results, length body) ->
  level lower sc body parse_start parent cursor tagStack
  = Returns (mkResult
               (set_InnerHTML (AddChild (with_text parent results) trailingElement)
                  (slice body parse_start (length body)))
               (length body) tagStack None).
Proof.
  intros Hlt Hrut. unfold level.
  assert (Hn : exists n, length body = S n) by (exists (length body - 1); lia).
  destruct Hn as [n Hn].
  pose proof (trailing_iteration lower n sc body parse_start parent cursor tagStack
                results Hlt Hrut) as H.
  rewrite <- Hn in H. exact H.
Qed.

Lemma level_void (sc : bool) (body : list rune) (parse_start : nat)
    (parent : Element) (cursor : nat) (tagStack : elementStack)
    (results : list rune) (cursor1 cursor2 : nat) (read_tag : Element) :
  cursor < length body ->
  readUntilTag body cursor = (results, cursor1) ->
  readTag lower body cursor1 = Some (read_tag, None, cursor2) ->
  IsClose read_tag = false ->
  IsVoid read_tag = true ->
  level lower sc body parse_start parent cursor tagStack
  = level lower sc body parse_start (AddChild (with_text parent results) read_tag)
      cursor2 tagStack.
Proof.
  intros Hlt Hrut Hrt Hclose Hvoid.
  destruct (iteration_advances lower body cursor Hlt) as (t & e & c & Hr & Hc).
  rewrite Hrut in Hr. simpl in Hr. rewrite Hrt in Hr. injection Hr as <- <- <-.
  unfold level at 1.
  destruct (length body) as [|n] eqn:Hn; [lia|].
  rewrite (void_tag_iteration lower n sc body parse_start parent cursor tagStack
             results cursor1 cursor2 read_tag ltac:(lia) Hrut Hrt Hclose Hvoid).
  apply level_fuel; lia.
Qed.

Lemma level_close (sc : bool) (body : list rune) (parse_start : nat)
    (parent : Element) (cursor : nat) (tagStack : elementStack)
    (results : list rune) (cursor1 cursor2 : nat) (read_tag expected_tag : Element) :
  cursor < length body ->
  readUntilTag body cursor = (results, cursor1) ->
  readTag lower body cursor1 = Some (read_tag, None, cursor2) ->
  IsClose read_tag = true ->
  Peek tagStack = Some expected_tag ->
  ElementName expected_tag = ElementName read_tag ->
  level lower sc body parse_start parent cursor tagStack
  = Returns (mkResult
               (set_InnerHTML (with_text parent results)
                  (slice body parse_start cursor2))
               cursor2 (snd (Pop tagStack)) None).
Proof.
  intros Hlt Hrut Hrt Hclose Hpeek Hname. unfold level.
  assert (Hn : exists n, length body = S n) by (exists (length body - 1); lia).
  destruct Hn as [n Hn].
  pose proof (matching_close_ends_level lower n sc body parse_start parent cursor
                tagStack results cursor1 cursor2 read_tag expected_tag
                Hlt Hrut Hrt Hclose Hpeek Hname) as H.
  rewrite <- Hn in H. exact H.
Qed.

Lemma level_open (sc : bool) (body : list rune) (parse_start : nat)
    (parent : Element) (cursor : nat) (tagStack : elementStack)
    (results : list rune) (cursor1 cursor2 : nat) (read_tag : Element) :
  cursor < length body ->
  readUntilTag body cursor = (results, cursor1) ->
  readTag lower body cursor1 = Some (read_tag, None, cursor2) ->
  IsClose read_tag = false ->
  IsVoid read_tag = false ->
  ElementName read_tag <> runes "script" ->
  level lower sc body parse_start parent cursor tagStack
  = match level lower sc body cursor2 read_tag cursor2
            (Push (Duplicate tagStack) read_tag) with
    | Returns r =>
        match r_err r with
        | Some e =>
            Returns (mkResult (AddChild (with_text parent results) (r_parent r))
                       (r_cursor r) tagStack (Some e))
        | None =>
            level lower sc body parse_start
              (AddChild (with_text parent results) (r_parent r)) (r_cursor r) tagStack
        end
    | Panic => Panic
    | OutOfFuel => OutOfFuel
    end.
Proof.
  intros Hlt Hrut Hrt Hclose Hvoid Hscript.
  destruct (iteration_advances lower body cursor Hlt) as (t & e & c & Hr & Hc).
  rewrite Hrut in Hr. simpl in Hr. rewrite Hrt in Hr. injection Hr as <- <- <-.
  unfold level at 1.
  destruct (length body) as [|n] eqn:Hn; [lia|].
  simpl. destruct (decide (cursor < length body)); [|lia].
  rewrite Hrut, Hrt, Hclose, Hvoid, bool_decide_eq_false_2 by done.
  destruct (decide (length body = 0)); [lia|].
  fold (with_text parent results).
  rewrite (level_fuel n) by lia.
  destruct (level lower sc body cursor2 read_tag cursor2
              (Push (Duplicate tagStack) read_tag)) as [r| |] eqn:Hchild; try done.
  destruct (r_err r); [done|].
  unfold level in Hchild.
  pose proof (parseChildren_loop_cursor lower _ _ _ _ _ _ _ _ Hchild ltac:(lia)).
  apply level_fuel; lia.
Qed.

Lemma level_def (sc : bool) (body : list rune) (parse_start : nat)
    (parent : Element) (cursor : nat) (tagStack : elementStack) :
  parseChildren_loop lower (length body) sc body parse_start parent cursor tagStack
  = level lower sc body parse_start parent cursor tagStack.
Proof. reflexivity. Qed.

Opaque level.

Lemma absorbs_nil : absorbs lower [].
Proof.
  intros before pending rest parent Hpend.
  exists parent, before, pending. split; [by rewrite app_nil_r|]. by split.
Qed.

Lemma absorbs_text (text : list rune) :
  Forall (fun c => is_rune "<" c = false) text -> absorbs lower text.
Proof.
  intros Htext before pending rest parent Hpend.
  exists parent, before, (pending ++ text). split; [done|].
  split; [by apply Forall_app|done].
Qed.

Lemma absorbs_app (text1 text2 : list rune) :
  absorbs lower text1 -> absorbs lower text2 -> absorbs lower (text1 ++ text2).
Proof.
  intros H1 H2 before pending rest parent Hpend.
  destruct (H1 before pending (text2 ++ rest) parent Hpend)
    as (parent1 & before1 & pending1 & Heq1 & Hpend1 & Hlevel1).
  destruct (H2 before1 pending1 rest parent1 Hpend1)
    as (parent2 & before2 & pending2 & Heq2 & Hpend2 & Hlevel2).
  assert (Hbody : before1 ++ pending1 ++ text2 ++ rest
                  = before ++ pending ++ text1 ++ text2 ++ rest).
  { rewrite (app_assoc before1), Heq1. by rewrite <- !app_assoc. }
  rewrite Hbody in Hlevel2.
  exists parent2, before2, pending2. split; [|split; [done|]].
  - rewrite Heq2, (app_assoc before1), Heq1. by rewrite <- !app_assoc.
  - intros sc parse_start tagStack.
    rewrite <- (app_assoc text1). by rewrite Hlevel1, Hlevel2.
Qed.

(** A void tag or a comment. *)
Lemma absorbs_leaf (text tail : list rune) (tag : Element) :
  text = rune_of_ascii "<" :: tail ->
  (forall before rest,
      readTag lower (before ++ text ++ rest) (length before)
      = Some (tag, None, length before + length text)) ->
  IsClose tag = false ->
  IsVoid tag = true ->
  absorbs lower text.
Proof.
  intros Htext Hread Hclose Hvoid before pending rest parent Hpend.
  exists (AddChild (with_text parent pending) tag), (before ++ pending ++ text), [].
  split; [by rewrite app_nil_r|]. split; [constructor|].
  intros sc parse_start tagStack.
  set (body := before ++ pending ++ text ++ rest).
  assert (Hlen : length body = length before + length pending + length text + length rest).
  { unfold body. rewrite !length_app. lia. }
  assert (Hrut : readUntilTag body (length before)
                 = (pending, length before + length pending)).
  { apply (readUntilTag_text body _ _ (tail ++ rest)); [|done].
    unfold body. rewrite drop_app_length, Htext. done. }
  assert (Hrt : readTag lower body (length before + length pending)
                = Some (tag, None, length (before ++ pending ++ text))).
  { pose proof (Hread (before ++ pending) rest) as H.
    rewrite <- !app_assoc in H. rewrite !length_app in H |- *.
    unfold body. rewrite H. do 2 f_equal. rewrite ?length_app. lia. }
  apply (level_void sc body parse_start parent (length before) tagStack pending
           (length before + length pending) _ tag); try done.
  rewrite Hlen, Htext. simpl. lia.
Qed.

(** A container: its open tag, what it holds, its close tag. *)
Lemma absorbs_container (open_text kids close_text open_tail close_tail : list rune)
    (tag close : Element) :
  open_text = rune_of_ascii "<" :: open_tail ->
  close_text = rune_of_ascii "<" :: close_tail ->
  (forall before rest,
      readTag lower (before ++ open_text ++ rest) (length before)
      = Some (tag, None, length before + length open_text)) ->
  IsClose tag = false ->
  IsVoid tag = false ->
  ElementName tag <> runes "script" ->
  (forall before rest,
      readTag lower (before ++ close_text ++ rest) (length before)
      = Some (close, None, length before + length close_text)) ->
  IsClose close = true ->
  ElementName tag = ElementName close ->
  absorbs lower kids ->
  absorbs lower (open_text ++ kids ++ close_text).
Proof.
  intros Hopen Hclose_text Hread Hnotclose Hnotvoid Hscript Hread_close Hisclose
    Hname Hkids before pending rest parent Hpend.
  destruct (Hkids (before ++ pending ++ open_text) [] (close_text ++ rest) tag
              ltac:(constructor))
    as (tag' & before' & pending' & Heq & Hpend' & Hlevel).
  set (body := before ++ pending ++ (open_text ++ kids ++ close_text) ++ rest).
  assert (Hbody1 : (before ++ pending ++ open_text) ++ [] ++ kids ++ close_text ++ rest
                   = body).
  { unfold body. simpl. by rewrite <- !app_assoc. }
  rewrite Hbody1 in Hlevel.
  assert (Hbody2 : body = before' ++ pending' ++ close_text ++ rest).
  { rewrite (app_assoc before'), Heq. unfold body. simpl. by rewrite <- !app_assoc. }
  set (c2 := length (before ++ pending ++ open_text)) in *.
  set (c3 := length (before ++ pending ++ open_text ++ kids ++ close_text)).
  assert (Hc3 : c3 = length before' + length pending' + length close_text).
  { unfold c3. rewrite <- length_app, <- length_app, <- app_assoc, (app_assoc before'), Heq.
    f_equal. simpl. by rewrite <- !app_assoc. }
  assert (Hlen : length body = c3 + length rest).
  { unfold body, c3. rewrite !length_app. lia. }
  exists (AddChild (with_text parent pending)
            (set_InnerHTML (with_text tag' pending') (slice body c2 c3))),
         (before ++ pending ++ open_text ++ kids ++ close_text), [].
  split; [by rewrite app_nil_r|]. split; [constructor|].
  intros sc parse_start tagStack. fold body. fold c3.
  assert (Hrut : readUntilTag body (length before)
                 = (pending, length before + length pending)).
  { apply (readUntilTag_text body _ _ (open_tail ++ kids ++ close_text ++ rest)); [|done].
    unfold body. rewrite drop_app_length, Hopen. simpl. by rewrite <- !app_assoc. }
  assert (Hrt : readTag lower body (length before + length pending)
                = Some (tag, None, c2)).
  { pose proof (Hread (before ++ pending) (kids ++ close_text ++ rest)) as H.
    rewrite <- !app_assoc in H. unfold body. rewrite <- !app_assoc.
    rewrite !length_app in H. rewrite H. do 2 f_equal. unfold c2.
    rewrite ?length_app. lia. }
  assert (Hrut' : readUntilTag body (length before')
                  = (pending', length before' + length pending')).
  { apply (readUntilTag_text body _ _ (close_tail ++ rest)); [|done].
    rewrite Hbody2, drop_app_length, Hclose_text. done. }
  assert (Hrt' : readTag lower body (length before' + length pending')
                 = Some (close, None, c3)).
  { pose proof (Hread_close (before' ++ pending') rest) as H.
    rewrite <- !app_assoc in H. rewrite <- Hbody2 in H.
    rewrite !length_app in H. rewrite H. do 2 f_equal. rewrite ?length_app. lia. }
  rewrite (level_open sc body parse_start parent (length before) tagStack pending
             (length before + length pending) c2 tag); try done.
  2:{ rewrite Hlen. unfold c3. rewrite !length_app, Hopen. simpl. lia. }
  rewrite Hlevel.
  rewrite (level_close sc body c2 tag' (length before') _ pending'
             (length before' + length pending') c3 close tag); try done.
  rewrite Hlen, Hc3, Hclose_text. simpl. lia.
Qed.

End Absorb.

Section MarkupParse.

Variable lower : rune -> rune.

Lemma markup_ind' (P : markup -> Prop) :
  (forall text, P (MText text)) ->
  (forall text, P (MComment text)) ->
  (forall name attrs, P (MVoid name attrs)) ->
  (forall name attrs children, Forall P children -> P (MElement name attrs children)) ->
  forall m : markup, P m.
Proof.
  intros Htext Hcomment Hvoid Helement. fix IH 1. intros m.
  destruct m as [text|text|name attrs|name attrs children];
    [apply Htext|apply Hcomment|apply Hvoid|].
  apply Helement.
  induction children as [|child children IHc]; constructor; [apply IH|exact IHc].
Qed.

Lemma markup_text_element (name : gostring) (attrs : list quotedAttr)
    (children : list markup) :
  markup_text (MElement name attrs children)
  = open_tag_text name attrs ++ document_text children ++ close_tag_text name.
Proof.
  assert (H : document_text children
              = (fix over_children (l : list markup) : list rune :=
                   match l with
                   | [] => []
                   | child :: rest => markup_text child ++ over_children rest
                   end) children).
  { unfold document_text.
    induction children as [|child children IH]; [done|].
    cbn [List.map List.concat]. by rewrite IH. }
  rewrite H. reflexivity.
Qed.

Lemma well_formed_element (name : gostring) (attrs : list quotedAttr)
    (children : list markup) :
  well_formed lower (MElement name attrs children)
  = tag_name_ok name && forallb qa_ok attrs
    && negb (isKnownVoidElement lower (ToLower lower name))
    && negb (bool_decide (ToLower lower name = runes "script"))
    && forallb (well_formed lower) children.
Proof.
  assert (H : forallb (well_formed lower) children
              = (fix over_children (l : list markup) : bool :=
                   match l with
                   | [] => true
                   | child :: rest => well_formed lower child && over_children rest
                   end) children).
  { induction children as [|child children IH]; [done|].
    cbn [forallb]. by rewrite IH. }
  rewrite H. reflexivity.
Qed.

Lemma hyphen_free_element (name : gostring) (attrs : list quotedAttr)
    (children : list markup) :
  hyphen_free (MElement name attrs children)
  = forallb (fun c => negb (is_rune "-" c)) name && forallb hyphen_free children.
Proof.
  assert (H : forallb hyphen_free children
              = (fix over_children (l : list markup) : bool :=
                   match l with
                   | [] => true
                   | child :: rest => hyphen_free child && over_children rest
                   end) children).
  { induction children as [|child children IH]; [done|].
    cbn [forallb]. by rewrite IH. }
  rewrite H. reflexivity.
Qed.

(** A name of the spec without a [-] is a name that the tokenizer reads
    as it stands. *)
Lemma tag_name_split (name : gostring) :
  tag_name_ok name = true ->
  forallb (fun c => negb (is_rune "-" c)) name = true ->
  exists c0 rest,
    name = c0 :: rest /\ name_start c0 = true /\ forallb name_char rest = true.
Proof.
  destruct name as [|c0 rest]; [done|]. simpl.
  intros Hok Hhyphen.
  apply andb_prop in Hok as [Hc0 Hrest]. apply andb_prop in Hhyphen as [_ Hhyphen].
  exists c0, rest. split; [done|]. split; [done|].
  apply forallb_forall. intros c Hc.
  rewrite forallb_forall in Hrest, Hhyphen.
  specialize (Hrest c Hc). specialize (Hhyphen c Hc).
  unfold name_char.
  apply andb_prop in Hrest as [Hrest H3]. apply andb_prop in Hrest as [H1 H2].
  by rewrite H1, H2, H3, Hhyphen.
Qed.

Lemma absorbs_document_text (children : list markup) :
  Forall (fun m => absorbs lower (markup_text m)) children ->
  absorbs lower (document_text children).
Proof.
  unfold document_text.
  induction 1 as [|child children Hchild _ IH]; simpl.
  - apply absorbs_nil.
  - by apply absorbs_app.
Qed.

(** The tree builder takes in every node of well-formed markup without
    [-] in names and comments. *)
Lemma absorbs_markup (m : markup) :
  well_formed lower m = true ->
  hyphen_free m = true ->
  absorbs lower (markup_text m).
Proof.
  induction m as [text|text|name attrs|name attrs children IH] using markup_ind';
    intros Hwf Hhf.
  - simpl in *. apply absorbs_text. apply Forall_forall. intros c Hc.
    rewrite forallb_forall in Hwf. apply list_elem_of_In in Hc.
    specialize (Hwf c Hc). by apply negb_true_iff in Hwf.
  - simpl in Hhf.
    apply (absorbs_leaf lower (markup_text (MComment text))
             (runes "!--" ++ text ++ runes "-->")
             (mkElement (ToLower lower ELEMENT_INTERNAL_XML_COMMENT) text (Some ∅) []
                false true true false false false)); try done.
    intros before rest. by apply readTag_plain_comment.
  - simpl in Hwf, Hhf.
    apply andb_prop in Hwf as [Hwf Hvoid]. apply andb_prop in Hwf as [Hname Hattrs].
    destruct (tag_name_split name Hname Hhf) as (c0 & rest & -> & Hc0 & Hrest).
    eapply (absorbs_leaf lower (markup_text (MVoid (c0 :: rest) attrs)) _
             (mkElement (ToLower lower (c0 :: rest)) [] (Some (attrs_map lower attrs)) []
                false (isKnownVoidElement lower (ToLower lower (c0 :: rest)))
                false false false false)); [reflexivity| |done|done].
    intros before rest'. by apply readTag_open_tag.
  - rewrite well_formed_element in Hwf. rewrite hyphen_free_element in Hhf.
    apply andb_prop in Hwf as [Hwf Hkids_wf]. apply andb_prop in Hwf as [Hwf Hscript].
    apply andb_prop in Hwf as [Hwf Hvoid]. apply andb_prop in Hwf as [Hname Hattrs].
    apply andb_prop in Hhf as [Hhf Hkids_hf].
    apply negb_true_iff in Hvoid, Hscript. apply bool_decide_eq_false in Hscript.
    destruct (tag_name_split name Hname Hhf) as (c0 & rest & -> & Hc0 & Hrest).
    rewrite markup_text_element.
    eapply (absorbs_container lower (open_tag_text (c0 :: rest) attrs)
              (document_text children) (close_tag_text (c0 :: rest)) _ _
              (mkElement (ToLower lower (c0 :: rest)) [] (Some (attrs_map lower attrs)) []
                 false (isKnownVoidElement lower (ToLower lower (c0 :: rest)))
                 false false false false)
              (plain_tag (ToLower lower (c0 :: rest))
                 (isKnownVoidElement lower (ToLower lower (c0 :: rest))) true));
      [reflexivity|reflexivity| |done|done|done| |done|done|].
    + intros before rest'. by apply readTag_open_tag.
    + intros before rest'. by apply readTag_close_tag.
    + apply absorbs_document_text.
      rewrite Forall_forall in IH. apply Forall_forall. intros m Hm.
      rewrite forallb_forall in Hkids_wf, Hkids_hf.
      apply IH; [done| |]; [apply Hkids_wf|apply Hkids_hf]; by apply list_elem_of_In.
Qed.


End MarkupParse.

Transparent level.
Transparent readUntilTag readTag readUntilScriptTagClose.

(** ** Instances of the properties of the two modes and of trailing text *)



Lemma C10_trailing_text_appends_empty_element_witness :
  exists tree : Element,
    Parse asciiToLower (runes "<p>a</p>hi") = Returns (tree, None)
    /\ exists earlier : list Element,
         Flatten tree
         = earlier ++ [newTextNode (drop 8 (runes "<p>a</p>hi"));
                       mkElement [] [] (Some ∅) [] false false false false false false].
Proof.
  eexists. split.
  2:{ eapply (proj1 (proj2 (C10_trailing_text_appends_empty_element asciiToLower))
                (runes "<p>a</p>hi") 8).
      - eapply iterates_next; [simpl; lia|vm_compute; reflexivity|].
        eapply iterates_next; [simpl; lia|vm_compute; reflexivity|].
        apply iterates_here.
      - simpl. lia.
      - repeat constructor.
      - vm_compute. reflexivity.
      - left. vm_compute. reflexivity. }
  vm_compute. reflexivity.
Defined.

(** C10, inputs that end with text on which [Parse] does not succeed, or
    does not come to the text: a close tag while nothing is open, a tag
    that the tokenizer rejects, an unquoted attribute value that runs to
    the end of the input. *)
Lemma C10_parse_need_not_reach_the_trailing_text :
  Parse asciiToLower (runes "</div>hello") = Panic
  /\ (exists root : Element,
        Parse asciiToLower (runes "<>hello") = Returns (root, Some emptyTagError))
  /\ (exists root : Element,
        Parse asciiToLower (runes "<a href=x>hello") = Returns (root, None)
        /\ List.map ElementName (Flatten root) = [runes "a"]).
Proof.
  split; [vm_compute; reflexivity|].
  split; eexists; [vm_compute; reflexivity|].
  split; vm_compute; reflexivity.
Qed.
